(** * grok2api_cf: the streaming transcoder, the batch task manager,
      the settings store and the request statistics

    A shallow embedding of the TypeScript sources:
    - [TagFilter] and [createOpenAiStreamFromGrokNdjson], the NDJSON to SSE
      transcoder, with the error classes it imports;
    - [BatchTask] and [createTaskSSEStream], the batch task manager;
    - [getSettings] and [saveSettings]  (src/settings.ts);
    - [getRequestStats]                 (src/repo/logs.ts).

    The first part is the model, one module per source module; the second
    part holds the concrete scenarios; the third the properties.

    Conventions.  A JavaScript string is a [string] (a list of bytes; the
    sources only ever inspect ASCII characters, so a UTF-8 byte stands for a
    UTF-16 code unit).  A JavaScript number that the code uses as a counter,
    a status or a millisecond clock is a [Z]; the one quotient the sources
    compute, the success rate of the statistics, is a [Q] that is rounded as
    an IEEE 754 double is (module [Double]).  A dynamically
    typed value (the result of [JSON.parse]) is a [json]; a missing property
    ([undefined]) is [None].  Platform functions whose behaviour is not part
    of the repository ([JSON.parse], [JSON.stringify], [URL], [btoa], the
    clock and the upstream reader) are parameters of the model. *)

From Stdlib Require Import ZArith String Ascii List Bool Lia QArith Qround
  Qpower DecimalString.
From stdpp Require Import gmap strings list fin_maps.
Import ListNotations.

Set Warnings "-register-all".

Local Open Scope string_scope.
Local Open Scope Z_scope.

(** ** JavaScript strings *)

Module JS.

(** The double quote, the line feed and the other control characters are
    built from their codes. *)
Definition chr (n : nat) : string := String (ascii_of_nat n) EmptyString.
Definition dq : string := chr 34.
Definition nl : string := chr 10.

(** [s.startsWith(p)] *)
Definition startsWith (s p : string) : bool := String.prefix p s.

(** [s.includes(sub)] *)
Fixpoint includes (s sub : string) : bool :=
  match s with
  | EmptyString => String.prefix sub EmptyString
  | String _ s' => String.prefix sub s || includes s' sub
  end.

(** [s.endsWith(suf)] *)
Definition endsWith (s suf : string) : bool :=
  String.prefix (String.rev suf) (String.rev s).

(** JavaScript truthiness of a string: non-empty. *)
Definition truthy (s : string) : bool :=
  match s with EmptyString => false | _ => true end.

(** White space as [String.prototype.trim] sees it, restricted to the
    ASCII range: TAB, LF, VT, FF, CR and SPACE.  The white space outside
    ASCII that [trim] strips as well (U+00A0, U+FEFF, the Unicode space
    separators and line terminators) is not white space here: a text that
    begins or ends with it is outside the model. *)
Definition is_ws (c : ascii) : bool :=
  let n := nat_of_ascii c in
  ((9 <=? n)%nat && (n <=? 13)%nat) || (n =? 32)%nat.

Fixpoint trimStart (s : string) : string :=
  match s with
  | String c s' => if is_ws c then trimStart s' else s
  | EmptyString => EmptyString
  end.

Definition trimEnd (s : string) : string :=
  String.rev (trimStart (String.rev s)).

Definition trim (s : string) : string := trimEnd (trimStart s).

(** [s.toLowerCase()] on the ASCII letters. *)
Definition lower_char (c : ascii) : ascii :=
  let n := nat_of_ascii c in
  if (65 <=? n)%nat && (n <=? 90)%nat then ascii_of_nat (n + 32) else c.

Fixpoint toLowerCase (s : string) : string :=
  match s with
  | EmptyString => EmptyString
  | String c s' => String (lower_char c) (toLowerCase s')
  end.

(** [s.replace(/c/g, by)]: every occurrence of one character. *)
Fixpoint replaceAll (c : ascii) (by_ : string) (s : string) : string :=
  match s with
  | EmptyString => EmptyString
  | String d s' =>
      (if Ascii.eqb c d then by_ else String d EmptyString) +:+ replaceAll c by_ s'
  end.

(** [lines.join(sep)] *)
Fixpoint join (sep : string) (l : list string) : string :=
  match l with
  | [] => EmptyString
  | [x] => x
  | x :: rest => x +:+ sep +:+ join sep rest
  end.

(** [String(n)] for an integral number, in decimal. *)
Definition N_to_string (n : N) : string := NilZero.string_of_uint (N.to_uint n).

Definition Z_to_string (z : Z) : string := NilZero.string_of_int (Z.to_int z).

(** Left padding with zeros to a given width. *)
Definition zeros (k : nat) (s : string) : string :=
  String.concat EmptyString (List.repeat "0" (k - String.length s)) +:+ s.

Definition pad2_digits (z : Z) : string := zeros 2 (Z_to_string z).
Definition pad3_digits (z : Z) : string := zeros 3 (Z_to_string z).

(** [String(ms / 1000)] for a millisecond count: the quotient has at most
    three decimals, printed without trailing zeros. *)
Definition seconds_to_string (ms : Z) : string :=
  let a := Z.abs ms in
  let whole := Z_to_string (a / 1000) in
  let r := a mod 1000 in
  let frac :=
    if r =? 0 then EmptyString
    else if r mod 100 =? 0 then "." +:+ Z_to_string (r / 100)
    else if r mod 10 =? 0 then "." +:+ pad2_digits (r / 10)
    else "." +:+ pad3_digits r in
  (if ms <? 0 then "-" else EmptyString) +:+ whole +:+ frac.

(** [String(n).padStart(2, "0")] for a non-negative integer. *)
Definition pad2 (z : Z) : string := zeros 2 (Z_to_string z).

(** [s.split(sep)] on a one-character separator. *)
Fixpoint split_acc (sep : ascii) (s : string) (cur : string) : list string :=
  match s with
  | EmptyString => [cur]
  | String c s' =>
      if Ascii.eqb c sep then cur :: split_acc sep s' EmptyString
      else split_acc sep s' (cur +:+ String c EmptyString)
  end.

Definition split (sep : ascii) (s : string) : list string :=
  split_acc sep s EmptyString.

(** *** Dynamically typed values

    What [JSON.parse] returns.  Numbers are the integral ones (the frames and
    settings carry counters, percentages and seconds). *)
Inductive json : Type :=
| JNull
| JBool (b : bool)
| JNum (n : Z)
| JStr (s : string)
| JArr (items : list json)
| JObj (fields : list (string * json)).

(** A JavaScript value: [None] is [undefined]. *)
Definition value : Type := option json.

(** An own property of a parsed object; of two equal keys [JSON.parse]
    keeps the later one. *)
Fixpoint lookup_field (k : string) (fields : list (string * json)) : value :=
  match fields with
  | [] => None
  | (k', v) :: rest =>
      match lookup_field k rest with
      | Some w => Some w
      | None => if String.eqb k k' then Some v else None
      end
  end.

(** [v.k] on a value that is neither [null] nor [undefined]: the names the
    sources read are no prototype properties, so only objects have them. *)
Definition get (v : json) (k : string) : value :=
  match v with
  | JObj fields => lookup_field k fields
  | _ => None
  end.

(** [v?.k] *)
Definition opt_get (v : value) (k : string) : value :=
  match v with
  | None | Some JNull => None
  | Some o => get o k
  end.

(** [Boolean(v)] *)
Definition truthy_value (v : value) : bool :=
  match v with
  | None | Some JNull => false
  | Some (JBool b) => b
  | Some (JNum n) => negb (n =? 0)
  | Some (JStr s) => truthy s
  | Some (JArr _) | Some (JObj _) => true
  end.

(** A truthy value, as the value itself. *)
Definition as_truthy (v : value) : option json :=
  if truthy_value v then v else None.

(** [typeof v === "string" ? v : d] *)
Definition string_or (d : string) (v : value) : string :=
  match v with
  | Some (JStr s) => s
  | _ => d
  end.

(** [String(v)].  A number is an integer here and prints in decimal
    digits, as [String] prints an integer below 10^21; fractions and the
    exponent form of larger numbers are outside the model. *)
Fixpoint to_String (v : json) : string :=
  match v with
  | JNull => "null"
  | JBool true => "true"
  | JBool false => "false"
  | JNum n => Z_to_string n
  | JStr s => s
  | JArr items =>
      (fix elems (l : list json) : string :=
         match l with
         | [] => EmptyString
         | x :: rest =>
             let here := match x with JNull => EmptyString | _ => to_String x end in
             match rest with
             | [] => here
             | _ => here +:+ "," +:+ elems rest
             end
         end) items
  | JObj _ => "[object Object]"
  end.

(** *** Exceptions *)
Inductive exn : Type :=
| StreamIdleTimeoutError (idle_ms : Z)   (* idleSeconds * 1000 *)
| ErrorObject (name message : string)    (* an instance of Error *)
| ThrownValue (text : string).           (* any other thrown value, by its String() *)

(** [String(e)] *)
Definition exn_String (e : exn) : string :=
  match e with
  | StreamIdleTimeoutError idle_ms =>
      "StreamIdleTimeoutError: Stream idle timeout after " +:+ seconds_to_string idle_ms +:+ "s"
  | ErrorObject name message =>
      if truthy name then
        if truthy message then name +:+ ": " +:+ message else name
      else message
  | ThrownValue text => text
  end.

(** [e instanceof Error ? e.message : String(e)] *)
Definition exn_message (e : exn) : string :=
  match e with
  | StreamIdleTimeoutError idle_ms =>
      "Stream idle timeout after " +:+ seconds_to_string idle_ms +:+ "s"
  | ErrorObject _ message => message
  | ThrownValue text => text
  end.

(** The [TypeError] of reading property [k] of [null]. *)
Definition null_read (k : string) : exn :=
  ErrorObject "TypeError" ("Cannot read properties of null (reading '" +:+ k +:+ "')").

End JS.

(** ** The tag filter

    [class TagFilter]: suppresses the text between a configured opening tag
    and its closing tag, across token boundaries. *)

Module TagFilter.

Record t : Type := mk {
  tags : list string;
  inFilterTag : bool;
  tagBuffer : string;
  pendingPrefix : string
}.

(** [constructor(filterTags)]: [filterTags.filter(Boolean)] drops the
    empty names. *)
Definition new (filterTags : list string) : t :=
  {| tags := List.filter JS.truthy filterTags;
     inFilterTag := false;
     tagBuffer := EmptyString;
     pendingPrefix := EmptyString |}.

(** The [for (const tag of this.tags)] loop of the pending branch, with
    its [break]: returns [(anyMatch, fullMatch)]. *)
Fixpoint scan_open (ts : list string) (pending : string) (anyMatch : bool)
  : bool * bool :=
  match ts with
  | [] => (anyMatch, false)
  | tag :: rest =>
      let openTag := "<" +:+ tag in
      let anyMatch := if JS.startsWith openTag pending then true else anyMatch in
      if JS.startsWith pending openTag then (anyMatch, true)
      else scan_open rest pending anyMatch
  end.

(** The [for (const tag of this.tags)] loop of the in-tag branch: does the
    buffer contain the closing tag of some configured name? *)
Fixpoint scan_close (ts : list string) (buffer : string) : bool :=
  match ts with
  | [] => false
  | tag :: rest =>
      if JS.includes buffer ("</" +:+ tag +:+ ">") then true
      else scan_close rest buffer
  end.

(** One iteration of [while (i < token.length)]: the new state and the
    text appended to [result]. *)
Definition step (f : t) (char : ascii) : t * string :=
  let c := String char EmptyString in
  if JS.truthy (pendingPrefix f) then
    let pending := pendingPrefix f +:+ c in
    let '(anyMatch, fullMatch) := scan_open (tags f) pending false in
    if fullMatch then
      ({| tags := tags f; inFilterTag := true; tagBuffer := pending;
          pendingPrefix := EmptyString |}, EmptyString)
    else if negb anyMatch then
      ({| tags := tags f; inFilterTag := inFilterTag f; tagBuffer := tagBuffer f;
          pendingPrefix := EmptyString |}, pending)
    else
      ({| tags := tags f; inFilterTag := inFilterTag f; tagBuffer := tagBuffer f;
          pendingPrefix := pending |}, EmptyString)
  else if inFilterTag f then
    let buffer := tagBuffer f +:+ c in
    let leave :=
      if Ascii.eqb char ">" then
        if JS.endsWith buffer "/>" then true else scan_close (tags f) buffer
      else false in
    if leave then
      ({| tags := tags f; inFilterTag := false; tagBuffer := EmptyString;
          pendingPrefix := pendingPrefix f |}, EmptyString)
    else
      ({| tags := tags f; inFilterTag := true; tagBuffer := buffer;
          pendingPrefix := pendingPrefix f |}, EmptyString)
  else if Ascii.eqb char "<" then
    ({| tags := tags f; inFilterTag := inFilterTag f; tagBuffer := tagBuffer f;
        pendingPrefix := "<" |}, EmptyString)
  else (f, c).

(** The [while] loop of [filter], with its accumulator [result]. *)
Fixpoint filter_loop (f : t) (token : string) (result : string) : t * string :=
  match token with
  | EmptyString => (f, result)
  | String char rest =>
      let '(f', out) := step f char in
      filter_loop f' rest (result +:+ out)
  end.

(** [filter(token)] *)
Definition filter (f : t) (token : string) : t * string :=
  match tags f with
  | [] => (f, token)
  | _ => filter_loop f token EmptyString
  end.

(** [reset()] *)
Definition reset (f : t) : t :=
  {| tags := tags f; inFilterTag := false; tagBuffer := EmptyString;
     pendingPrefix := EmptyString |}.

(** [flush()]: the pending prefix, which is cleared. *)
Definition flush (f : t) : t * string :=
  ({| tags := tags f; inFilterTag := inFilterTag f; tagBuffer := tagBuffer f;
      pendingPrefix := EmptyString |}, pendingPrefix f).

(** [filterTagsFromContent(content, filterTags)] *)
Definition filterTagsFromContent (content : string) (filterTags : list string)
  : string :=
  match filterTags with
  | [] => content
  | _ =>
      let '(f1, out) := filter (new filterTags) content in
      let '(_, pending) := flush f1 in
      out +:+ pending
  end.

(** Feeding a sequence of tokens through one filter: the state after the
    last token and the text each call returned. *)
Fixpoint feed (f : t) (tokens : list string) : t * list string :=
  match tokens with
  | [] => (f, [])
  | tok :: rest =>
      let '(f1, out) := filter f tok in
      let '(f2, outs) := feed f1 rest in
      (f2, out :: outs)
  end.

(** What each character of a token makes [filter] append to its result,
    in order (the pieces whose concatenation [filter_loop] returns). *)
Fixpoint emissions (f : t) (token : string) : list string :=
  match token with
  | EmptyString => []
  | String char rest => snd (step f char) :: emissions (fst (step f char)) rest
  end.

(** The pieces one call of [filter] returns, in order: the token itself
    when no tag is configured. *)
Definition token_emissions (f : t) (token : string) : list string :=
  match tags f with
  | [] => [token]
  | _ => emissions f token
  end.

(** The pieces a sequence of calls of [filter] returns, in order. *)
Fixpoint feed_emissions (f : t) (tokens : list string) : list string :=
  match tokens with
  | [] => []
  | tok :: rest => token_emissions f tok ++ feed_emissions (fst (filter f tok)) rest
  end.

(** [p] is a prefix of the opening tag ["<" + tag] of a configured name:
    it may still grow into that tag. *)
Definition open_prefix (ts : list string) (p : string) : bool :=
  existsb (fun tag => JS.startsWith ("<" +:+ tag) p) ts.

(** [p] begins with the opening tag of a configured name. *)
Definition opens_tag (ts : list string) (p : string) : bool :=
  existsb (fun tag => JS.startsWith p ("<" +:+ tag)) ts.

(** No emission is a partial opening tag. *)
Definition clean (ts : list string) (e : string) : Prop :=
  e = EmptyString \/ open_prefix ts e = false.

(** The text a filter holds back is empty or a partial opening tag: a
    prefix of ["<" + tag] that is not yet the whole of it, outside a tag. *)
Definition holds_partial_tag (f : t) : Prop :=
  pendingPrefix f = EmptyString
  \/ (open_prefix (tags f) (pendingPrefix f) = true
      /\ opens_tag (tags f) (pendingPrefix f) = false
      /\ inFilterTag f = false).

(** A non-empty list of non-empty tag names. *)
Definition named (ts : list string) : Prop :=
  ts <> [] /\ Forall (fun tag => JS.truthy tag = true) ts.

End TagFilter.

(** ** Errors ([utils/errors])

    [StreamIdleTimeoutError] is a constructor of [JS.exn]. *)

Module Errors.
Import JS.

(** [isHttp2StreamError(e)] *)
Definition isHttp2StreamError (e : exn) : bool :=
  let errStr := toLowerCase (exn_String e) in
  includes errStr "http/2" || includes errStr "curl: (92)" || includes errStr "stream".

End Errors.

(** ** The transcoder ([createOpenAiStreamFromGrokNdjson])

    One response is a run of the [start] function of the returned stream.
    Its inputs are the results the upstream reader yields, in order, and the
    successive readings of the clock; its output is the sequence of effects
    on the stream controller, the completion callback and the reader.  The
    consumer is taken to keep reading (the controller accepts every chunk)
    and the completion callback to return normally; the exceptions of a run
    are the idle time-out error, a rejected read, and the [TypeError] of
    reading a property of [null] in a frame. *)

Module Transcoder.
Import JS.

(** [GrokSettings] and [GlobalSettings]: the fields the transcoder reads;
    [None] is an absent field.  Time-outs are in seconds. *)
Record GrokSettings : Type := {
  filtered_tags : option string;
  show_thinking : option bool;
  video_poster_preview : option bool;
  stream_first_response_timeout : option Z;
  stream_chunk_timeout : option Z;
  stream_total_timeout : option Z;
  stream_idle_timeout : option Z;
  video_idle_timeout : option Z
}.

Record GlobalSettings : Type := { base_url : option string }.

(** The [opts] argument; [onFinish] tells whether the callback is given. *)
Record Opts : Type := {
  cookie : string;
  settings : GrokSettings;
  global_ : GlobalSettings;
  origin : string;
  onFinish : bool
}.

(** What [new URL(s)] exposes. *)
Record URL : Type := {
  href : string;
  pathname : string;
  search : string;
  hash : string
}.

(** What a stream writes: [data: <JSON.stringify(payload)>\n\n], or the
    sentinel [data: [DONE]\n\n]. *)
Inductive sse : Type :=
| SseData (payload : json)
| SseDone.

Inductive warning : Type :=
| WarnIdle (video : bool) (idle_ms : Z)
| WarnHttp2 (message : string).

(** The effects of a run, in order: [controller.enqueue], the completion
    callback (status; duration in milliseconds, which the code divides by
    1000), [controller.close], [console.warn], [reader.releaseLock]. *)
Inductive action : Type :=
| Enqueue (data : sse)
| OnFinish (status : Z) (duration_ms : Z)
| Close
| Warn (w : warning)
| ReleaseLock.

(** What one [readWithTimeout] yields when the read is started. *)
Inductive read_result : Type :=
| ReadTimeout                       (* the timer wins the race *)
| ReadDone                          (* { done: true } *)
| ReadValue (value : option string) (* { done: false, value }, decoded *)
| ReadError (e : exn).              (* the read rejects *)

(** The world of one response: the random id, the creation time in
    seconds, and the successive readings of [Date.now()]. *)
Record World : Type := {
  uuid : string;
  created : Z;
  clock : nat -> Z
}.

Record state : Type := mkState {
  out : list action;
  ticks : nat;
  startTime : Z;
  finalStatus : Z;
  lastChunkTime : Z;
  firstReceived : bool;
  currentModel : string;
  isImage : bool;
  isVideo : bool;
  isThinking : bool;
  thinkingFinished : bool;
  videoProgressStarted : bool;
  lastVideoProgress : Z;
  buffer : string;
  tagFilter : TagFilter.t
}.

Definition emit (a : action) (st : state) : state :=
  mkState (out st ++ [a]) (ticks st) (startTime st) (finalStatus st)
    (lastChunkTime st) (firstReceived st) (currentModel st) (isImage st) (isVideo st)
    (isThinking st) (thinkingFinished st) (videoProgressStarted st)
    (lastVideoProgress st) (buffer st) (tagFilter st).

Definition tick (st : state) : state :=
  mkState (out st) (S (ticks st)) (startTime st) (finalStatus st)
    (lastChunkTime st) (firstReceived st) (currentModel st) (isImage st) (isVideo st)
    (isThinking st) (thinkingFinished st) (videoProgressStarted st)
    (lastVideoProgress st) (buffer st) (tagFilter st).

Definition set_finalStatus (v : Z) (st : state) : state :=
  mkState (out st) (ticks st) (startTime st) v
    (lastChunkTime st) (firstReceived st) (currentModel st) (isImage st) (isVideo st)
    (isThinking st) (thinkingFinished st) (videoProgressStarted st)
    (lastVideoProgress st) (buffer st) (tagFilter st).

(** [firstReceived = true; lastChunkTime = t] *)
Definition set_received (t : Z) (st : state) : state :=
  mkState (out st) (ticks st) (startTime st) (finalStatus st)
    t true (currentModel st) (isImage st) (isVideo st)
    (isThinking st) (thinkingFinished st) (videoProgressStarted st)
    (lastVideoProgress st) (buffer st) (tagFilter st).

Definition set_currentModel (v : string) (st : state) : state :=
  mkState (out st) (ticks st) (startTime st) (finalStatus st)
    (lastChunkTime st) (firstReceived st) v (isImage st) (isVideo st)
    (isThinking st) (thinkingFinished st) (videoProgressStarted st)
    (lastVideoProgress st) (buffer st) (tagFilter st).

Definition set_isImage (v : bool) (st : state) : state :=
  mkState (out st) (ticks st) (startTime st) (finalStatus st)
    (lastChunkTime st) (firstReceived st) (currentModel st) v (isVideo st)
    (isThinking st) (thinkingFinished st) (videoProgressStarted st)
    (lastVideoProgress st) (buffer st) (tagFilter st).

Definition set_isVideo (v : bool) (st : state) : state :=
  mkState (out st) (ticks st) (startTime st) (finalStatus st)
    (lastChunkTime st) (firstReceived st) (currentModel st) (isImage st) v
    (isThinking st) (thinkingFinished st) (videoProgressStarted st)
    (lastVideoProgress st) (buffer st) (tagFilter st).

Definition set_isThinking (v : bool) (st : state) : state :=
  mkState (out st) (ticks st) (startTime st) (finalStatus st)
    (lastChunkTime st) (firstReceived st) (currentModel st) (isImage st) (isVideo st)
    v (thinkingFinished st) (videoProgressStarted st)
    (lastVideoProgress st) (buffer st) (tagFilter st).

Definition set_thinkingFinished (v : bool) (st : state) : state :=
  mkState (out st) (ticks st) (startTime st) (finalStatus st)
    (lastChunkTime st) (firstReceived st) (currentModel st) (isImage st) (isVideo st)
    (isThinking st) v (videoProgressStarted st)
    (lastVideoProgress st) (buffer st) (tagFilter st).

Definition set_videoProgressStarted (v : bool) (st : state) : state :=
  mkState (out st) (ticks st) (startTime st) (finalStatus st)
    (lastChunkTime st) (firstReceived st) (currentModel st) (isImage st) (isVideo st)
    (isThinking st) (thinkingFinished st) v
    (lastVideoProgress st) (buffer st) (tagFilter st).

Definition set_lastVideoProgress (v : Z) (st : state) : state :=
  mkState (out st) (ticks st) (startTime st) (finalStatus st)
    (lastChunkTime st) (firstReceived st) (currentModel st) (isImage st) (isVideo st)
    (isThinking st) (thinkingFinished st) (videoProgressStarted st)
    v (buffer st) (tagFilter st).

Definition set_buffer (v : string) (st : state) : state :=
  mkState (out st) (ticks st) (startTime st) (finalStatus st)
    (lastChunkTime st) (firstReceived st) (currentModel st) (isImage st) (isVideo st)
    (isThinking st) (thinkingFinished st) (videoProgressStarted st)
    (lastVideoProgress st) v (tagFilter st).

Definition set_tagFilter (v : TagFilter.t) (st : state) : state :=
  mkState (out st) (ticks st) (startTime st) (finalStatus st)
    (lastChunkTime st) (firstReceived st) (currentModel st) (isImage st) (isVideo st)
    (isThinking st) (thinkingFinished st) (videoProgressStarted st)
    (lastVideoProgress st) (buffer st) v.

(** How a block of the [try] body ends. *)
Inductive outcome : Type :=
| Next (st : state)             (* falls through, or [continue] *)
| Return (st : state)           (* [return] *)
| Throw (st : state) (e : exn). (* an exception leaves the block *)

(** [makeChunk(id, created, model, content, finish_reason)], as the payload
    handed to [JSON.stringify]. *)
Definition makeChunk (id : string) (created_ : Z) (model content : string)
  (finish_reason : option string) : sse :=
  SseData (JObj [
    ("id", JStr id);
    ("object", JStr "chat.completion.chunk");
    ("created", JNum created_);
    ("model", JStr model);
    ("choices", JArr [JObj [
       ("index", JNum 0);
       ("delta", if truthy content
                 then JObj [("role", JStr "assistant"); ("content", JStr content)]
                 else JObj []);
       ("finish_reason", match finish_reason with
                         | Some r => JStr r
                         | None => JNull
                         end)]])]).

(** [makeDone()] *)
Definition makeDone : sse := SseDone.

(** [toImgProxyUrl(globalCfg, origin, path)] *)
Definition toImgProxyUrl (globalCfg : GlobalSettings) (origin_ path : string) : string :=
  let trimmed := trim (match base_url globalCfg with Some b => b | None => EmptyString end) in
  let baseUrl := if truthy trimmed then trimmed else origin_ in
  baseUrl +:+ "/images/" +:+ path.

(** An HTML attribute [name="v"]. *)
Definition attr (name v : string) : string := name +:+ "=" +:+ dq +:+ v +:+ dq.

(** [buildVideoTag(src)] *)
Definition buildVideoTag (src : string) : string :=
  "<video " +:+ attr "src" src +:+ " " +:+ attr "controls" "controls" +:+ " "
  +:+ attr "width" "500" +:+ " " +:+ attr "height" "300" +:+ "></video>" +:+ nl.

(** [buildVideoPosterPreview(videoUrl, posterUrl)] *)
Definition buildVideoPosterPreview (videoUrl : string) (posterUrl : option string) : string :=
  let href_ := replaceAll (ascii_of_nat 34) "&quot;" videoUrl in
  let poster := replaceAll (ascii_of_nat 34) "&quot;"
                  (match posterUrl with Some u => u | None => EmptyString end) in
  let anchor := "<a " +:+ attr "href" href_ +:+ " " +:+ attr "target" "_blank" +:+ " "
                +:+ attr "rel" "noopener noreferrer" in
  if negb (truthy href_) then EmptyString
  else if negb (truthy poster) then anchor +:+ ">" +:+ href_ +:+ "</a>" +:+ nl
  else
    anchor +:+ " "
    +:+ attr "style" "display:inline-block;position:relative;max-width:100%;text-decoration:none;"
    +:+ ">" +:+ nl
    +:+ "  <img " +:+ attr "src" poster +:+ " " +:+ attr "alt" "video" +:+ " "
    +:+ attr "style" "max-width:100%;height:auto;border-radius:12px;display:block;"
    +:+ " />" +:+ nl
    +:+ "  <span "
    +:+ attr "style" "position:absolute;inset:0;display:flex;align-items:center;justify-content:center;"
    +:+ ">" +:+ nl
    +:+ "    <span "
    +:+ attr "style" "width:64px;height:64px;border-radius:9999px;background:rgba(0,0,0,.55);display:flex;align-items:center;justify-content:center;"
    +:+ ">" +:+ nl
    +:+ "      <span "
    +:+ attr "style" "width:0;height:0;border-top:12px solid transparent;border-bottom:12px solid transparent;border-left:18px solid #fff;margin-left:4px;"
    +:+ "></span>" +:+ nl
    +:+ "    </span>" +:+ nl
    +:+ "  </span>" +:+ nl
    +:+ "</a>" +:+ nl.

(** [buildVideoHtml({ videoUrl, posterUrl, posterPreview })] *)
Definition buildVideoHtml (videoUrl : string) (posterUrl : option string)
  (posterPreview : bool) : string :=
  if posterPreview then buildVideoPosterPreview videoUrl posterUrl
  else buildVideoTag videoUrl.

(** [s.replace(/=+$/g, "")] *)
Definition strip_trailing_eq (s : string) : string :=
  String.rev ((fix drop (r : string) : string :=
                 match r with
                 | String c r' => if Ascii.eqb c "=" then drop r' else r
                 | EmptyString => EmptyString
                 end) (String.rev s)).

Definition is_onFinish (a : action) : bool :=
  match a with
  | OnFinish _ _ => true
  | _ => false
  end.

(** How many times the completion callback was invoked. *)
Definition onFinish_calls (log : list action) : nat :=
  List.length (List.filter is_onFinish log).

Section WithPlatform.

(** The platform: [JSON.parse] and [new URL] ([None] when they throw) and
    [btoa]; the arguments of the call; the world of the response. *)
Variable JSON_parse : string -> option json.
Variable URL_parse : string -> option URL.
Variable btoa : string -> string.
Variable opts : Opts.
Variable world : World.

(** [base64UrlEncode(input)] *)
Definition base64UrlEncode (input : string) : string :=
  strip_trailing_eq (replaceAll "/" "_" (replaceAll "+" "-" (btoa input))).

(** [encodeAssetPath(raw)] *)
Definition encodeAssetPath (raw : string) : string :=
  match URL_parse raw with
  | Some u => "u_" +:+ base64UrlEncode (href u)
  | None =>
      let p := if startsWith raw "/" then raw else "/" +:+ raw in
      "p_" +:+ base64UrlEncode p
  end.

(** The loop of [normalizeGeneratedAssetUrls] over the array. *)
Fixpoint normalize_items (input : list json) : list string :=
  match input with
  | [] => []
  | v :: rest =>
      match v with
      | JStr v' =>
          let s := trim v' in
          if negb (truthy s) then normalize_items rest
          else if String.eqb s "/" then normalize_items rest
          else
            match URL_parse s with
            | Some u =>
                if String.eqb (pathname u) "/" && negb (truthy (search u))
                   && negb (truthy (hash u))
                then normalize_items rest
                else s :: normalize_items rest
            | None => s :: normalize_items rest
            end
      | _ => normalize_items rest
      end
  end.

(** [normalizeGeneratedAssetUrls(input)] *)
Definition normalizeGeneratedAssetUrls (input : value) : list string :=
  match input with
  | Some (JArr items) => normalize_items items
  | _ => []
  end.

(** The constants computed from [settings] before the stream starts. *)
Definition filteredTags : list string :=
  List.filter truthy
    (List.map trim
       (split "," (match filtered_tags (settings opts) with
                   | Some t => t
                   | None => EmptyString
                   end))).

Definition showThinking : bool :=
  match show_thinking (settings opts) with
  | Some false => false
  | _ => true
  end.

(** [Math.max(0, (field ?? dflt) * 1000)] *)
Definition timeout_ms (field : option Z) (dflt : Z) : Z :=
  Z.max 0 ((match field with Some v => v | None => dflt end) * 1000).

Definition firstTimeoutMs : Z :=
  timeout_ms (stream_first_response_timeout (settings opts)) 30.
Definition chunkTimeoutMs : Z := timeout_ms (stream_chunk_timeout (settings opts)) 120.
Definition totalTimeoutMs : Z := timeout_ms (stream_total_timeout (settings opts)) 600.
Definition idleTimeoutMs : Z := timeout_ms (stream_idle_timeout (settings opts)) 45.
Definition videoIdleTimeoutMs : Z := timeout_ms (video_idle_timeout (settings opts)) 90.

Definition id : string := "chatcmpl-" +:+ uuid world.

Definition defaultModel : string := "grok-4-mini-thinking-tahoe".

(** [Date.now()]: the next reading of the clock. *)
Definition Date_now (st : state) : Z * state := (clock world (ticks st), tick st).

(** [controller.enqueue(encoder.encode(data))], on a stream whose consumer
    has not cancelled: the call does not throw. *)
Definition enqueue (data : sse) (st : state) : state := emit (Enqueue data) st.

(** [controller.enqueue(encoder.encode(makeChunk(id, created, currentModel,
    content, finish_reason)))] *)
Definition chunk (content : string) (finish_reason : option string) (st : state) : state :=
  enqueue (makeChunk id (created world) (currentModel st) content finish_reason) st.

(** [flushStop()] *)
Definition flushStop (st : state) : state :=
  enqueue makeDone (chunk EmptyString (Some "stop") st).

(** [if (opts.onFinish) await opts.onFinish({ status, duration:
    (Date.now() - startTime) / 1000 })], for a callback that resolves.  (A
    callback that rejects inside the [try] block would be caught by the
    [catch] block of the same run; such runs are not modelled.) *)
Definition finish (status : Z) (st : state) : state :=
  if onFinish opts then
    let '(now, st1) := Date_now st in
    emit (OnFinish status (now - startTime st1)) st1
  else st.

(** [controller.close()] *)
Definition close (st : state) : state := emit Close st.

(** [flushStop(); if (opts.onFinish) ...; controller.close(); return;] *)
Definition stop_and_return (st : state) : outcome :=
  let st := flushStop st in
  Return (close (finish (finalStatus st) st)).

(** The frame has a [streamingVideoGenerationResponse]. *)
Definition handle_video (st : state) (videoResp : json) : outcome :=
  let st := set_isVideo true st in
  let progress := match get videoResp "progress" with Some (JNum n) => n | _ => 0 end in
  let videoUrl := string_or EmptyString (get videoResp "videoUrl") in
  let thumbUrl := string_or EmptyString (get videoResp "thumbnailImageUrl") in
  let st :=
    if progress >? lastVideoProgress st then
      let st := set_lastVideoProgress progress st in
      if showThinking then
        if negb (videoProgressStarted st) then
          chunk ("<think>视频已生成" +:+ Z_to_string progress +:+ "%" +:+ nl) None
            (set_videoProgressStarted true st)
        else if progress <? 100 then
          chunk ("视频已生成" +:+ Z_to_string progress +:+ "%" +:+ nl) None st
        else
          chunk ("视频已生成" +:+ Z_to_string progress +:+ "%</think>" +:+ nl) None st
      else st
    else st in
  let st :=
    if truthy videoUrl then
      let src := toImgProxyUrl (global_ opts) (origin opts) (encodeAssetPath videoUrl) in
      let poster :=
        if truthy thumbUrl
        then Some (toImgProxyUrl (global_ opts) (origin opts) (encodeAssetPath thumbUrl))
        else None in
      chunk (buildVideoHtml src poster
               (match video_poster_preview (settings opts) with
                | Some true => true
                | _ => false
                end)) None st
    else st in
  Next st.

(** The stream is in image mode. *)
Definition handle_image (st : state) (grok : json) (rawToken : value) : outcome :=
  let modelResp := get grok "modelResponse" in
  if truthy_value modelResp then
    let urls := normalizeGeneratedAssetUrls (opt_get modelResp "generatedImageUrls") in
    match urls with
    | [] => Next st
    | _ =>
        let linesOut :=
          List.map (fun u => "![Generated Image]("
                             +:+ toImgProxyUrl (global_ opts) (origin opts) (encodeAssetPath u)
                             +:+ ")") urls in
        let st := enqueue makeDone (chunk (join nl linesOut) (Some "stop") st) in
        Return (close (finish (finalStatus st) st))
    end
  else
    match rawToken with
    | Some (JStr raw) => if truthy raw then Next (chunk raw None st) else Next st
    | _ => Next st
    end.

(** The [for (const r of grok.webSearchResults.results)] loop. *)
Fixpoint search_lines (results : list json) (appended : string) : exn + string :=
  match results with
  | [] => inr appended
  | JNull :: _ => inl (null_read "title")
  | r :: rest =>
      let title := string_or EmptyString (get r "title") in
      let url := string_or EmptyString (get r "url") in
      let preview :=
        match get r "preview" with
        | Some (JStr p) => replaceAll (ascii_of_nat 10) EmptyString p
        | _ => EmptyString
        end in
      search_lines rest
        (appended +:+ nl +:+ "- [" +:+ title +:+ "](" +:+ url +:+ " "
         +:+ dq +:+ preview +:+ dq +:+ ")")
  end.

(** The end of the text branch: header wrapping, the thinking brackets, the
    delta chunk, [isThinking = currentIsThinking]. *)
Definition emit_text (st : state) (grok : json) (currentIsThinking : bool)
  (tokenWithSearch : string) : outcome :=
  let content :=
    match get grok "messageTag" with
    | Some (JStr "header") => nl +:+ nl +:+ tokenWithSearch +:+ nl +:+ nl
    | _ => tokenWithSearch
    end in
  let '(content, shouldSkip, st) :=
    if negb (isThinking st) && currentIsThinking then
      if showThinking then ("<think>" +:+ nl +:+ content, false, st)
      else (content, true, st)
    else if isThinking st && negb currentIsThinking then
      (if showThinking then nl +:+ "</think>" +:+ nl +:+ content else content,
       false, set_thinkingFinished true st)
    else if currentIsThinking && negb showThinking then (content, true, st)
    else (content, false, st) in
  let st := if shouldSkip then st else chunk content None st in
  Next (set_isThinking currentIsThinking st).

(** The text chat branch. *)
Definition handle_text (st : state) (grok : json) (rawToken : value) : outcome :=
  match rawToken with
  | Some (JStr raw) =>
      if negb (truthy raw) then Next st
      else
        let '(tf, token) := TagFilter.filter (tagFilter st) raw in
        let st := set_tagFilter tf st in
        if negb (truthy token) then Next st
        else
          let currentIsThinking := truthy_value (get grok "isThinking") in
          if thinkingFinished st && currentIsThinking then Next st
          else
            let results := opt_get (get grok "webSearchResults") "results" in
            match results with
            | Some (JArr items) =>
                if truthy_value (get grok "toolUsageCardId") then
                  if currentIsThinking then
                    if showThinking then
                      match search_lines items EmptyString with
                      | inl e => Throw st e
                      | inr appended =>
                          emit_text st grok currentIsThinking (token +:+ appended +:+ nl)
                      end
                    else Next st
                  else Next st
                else emit_text st grok currentIsThinking token
            | _ => emit_text st grok currentIsThinking token
            end
  | _ => Next st
  end.

(** A frame with a [result.response]. *)
Definition handle_response (st : state) (grok : json) : outcome :=
  let st :=
    match opt_get (get grok "userResponse") "model" with
    | Some (JStr userRespModel) =>
        if truthy (trim userRespModel) then set_currentModel (trim userRespModel) st
        else st
    | _ => st
    end in
  match as_truthy (get grok "streamingVideoGenerationResponse") with
  | Some videoResp => handle_video st videoResp
  | None =>
      let st :=
        if truthy_value (get grok "imageAttachmentInfo") then set_isImage true st
        else st in
      let rawToken := get grok "token" in
      if isImage st then handle_image st grok rawToken
      else handle_text st grok rawToken
  end.

(** The body of the inner [while] for one parsed line: [firstReceived],
    [lastChunkTime], the error frame, then the response. *)
Definition handle_frame (st : state) (data : json) : outcome :=
  let '(now, st) := Date_now st in
  let st := set_received now st in
  match data with
  | JNull => Throw st (null_read "error")
  | _ =>
      match as_truthy (opt_get (get data "error") "message") with
      | Some message =>
          let st := set_finalStatus 500 st in
          let st := enqueue makeDone
                      (chunk ("Error: " +:+ to_String message) (Some "stop") st) in
          Return (close (finish (finalStatus st) st))
      | None =>
          match as_truthy (opt_get (get data "result") "response") with
          | Some grok => handle_response st grok
          | None => Next st
          end
      end
  end.

(** One line of the buffer: trimmed, skipped when blank or when
    [JSON.parse] throws. *)
Definition handle_line (st : state) (line : string) : outcome :=
  let line := trim line in
  if negb (truthy line) then Next st
  else
    match JSON_parse line with
    | None => Next st
    | Some data => handle_frame st data
    end.

(** [while ((idx = buffer.indexOf("\n")) !== -1)]: the text is scanned up to
    each line feed; [line] is the text since the last one, and what follows
    the last line feed stays in [buffer]. *)
Fixpoint lines_loop (st : state) (line : string) (text : string) : outcome :=
  match text with
  | EmptyString => Next (set_buffer line st)
  | String c rest =>
      if Ascii.eqb c (ascii_of_nat 10) then
        match handle_line st line with
        | Next st' => lines_loop st' EmptyString rest
        | o => o
        end
      else lines_loop st (line +:+ String c EmptyString) rest
  end.

(** [Math.min(firstReceived ? chunkTimeoutMs : firstTimeoutMs,
    totalTimeoutMs > 0 ? Math.max(0, totalTimeoutMs - elapsed) : Infinity)] *)
Definition perReadTimeout (st : state) (elapsed : Z) : Z :=
  let own := if firstReceived st then chunkTimeoutMs else firstTimeoutMs in
  if totalTimeoutMs >? 0 then Z.min own (Z.max 0 (totalTimeoutMs - elapsed)) else own.

(** What the loop does with the result of [readWithTimeout]; [None] is a
    read that the upstream never settles, which is lost to the timer.
    [inl] goes round the loop again; [inr] leaves it: [Next] is the
    [break] at the end of the upstream. *)
Definition dispatch (st : state) (res : option read_result) : state + outcome :=
  match res with
  | None => inr (stop_and_return st)
  | Some ReadTimeout => inr (stop_and_return st)
  | Some ReadDone => inr (Next st)
  | Some (ReadValue None) => inl st
  | Some (ReadValue (Some text)) =>
      match lines_loop st EmptyString (buffer st +:+ text) with
      | Next st' => inl st'
      | o => inr o
      end
  | Some (ReadError e) => inr (Throw st e)
  end.

(** One pass of [while (true)]: the deadlines in their order, then
    [readWithTimeout], which yields a time-out at once for a budget that is
    not positive, then the lines of the chunk. *)
Definition iteration (st : state) (res : option read_result) : state + outcome :=
  let '(now, st) := Date_now st in
  let elapsed := now - startTime st in
  if negb (firstReceived st) && (elapsed >? firstTimeoutMs) then inr (stop_and_return st)
  else if (totalTimeoutMs >? 0) && (elapsed >? totalTimeoutMs)
  then inr (stop_and_return st)
  else
    let idle := now - lastChunkTime st in
    let currentIdleTimeoutMs := if isVideo st then videoIdleTimeoutMs else idleTimeoutMs in
    if firstReceived st && (currentIdleTimeoutMs >? 0) && (idle >? currentIdleTimeoutMs)
    then inr (Throw st (StreamIdleTimeoutError idle))
    else if firstReceived st && (idle >? chunkTimeoutMs) then inr (stop_and_return st)
    else if perReadTimeout st elapsed <=? 0 then inr (stop_and_return st)
    else dispatch st res.

(** [while (true)] over the results the reader yields, in order.  When
    they run out the pending read is never settled. *)
Fixpoint loop (st : state) (reads : list read_result) : outcome :=
  match reads with
  | [] =>
      match iteration st None with
      | inl st' => stop_and_return st'
      | inr o => o
      end
  | res :: rest =>
      match iteration st (Some res) with
      | inl st' => loop st' rest
      | inr o => o
      end
  end.

(** The state at the head of the loop once the reader has yielded the
    given results, if the loop is still running. *)
Fixpoint head_state (st : state) (reads : list read_result) : option state :=
  match reads with
  | [] => Some st
  | res :: rest =>
      match iteration st (Some res) with
      | inl st' => head_state st' rest
      | inr _ => None
      end
  end.

(** The [catch (e)] block. *)
Definition catch (st : state) (e : exn) : state :=
  match e with
  | StreamIdleTimeoutError idle_ms =>
      let st := emit (Warn (WarnIdle (isVideo st) idle_ms)) st in
      let st := flushStop st in
      close (finish (finalStatus st) st)
  | _ =>
      if Errors.isHttp2StreamError e then
        let st := emit (Warn (WarnHttp2 (exn_message e))) st in
        let st := flushStop st in
        close (finish 502 st)
      else
        let st := set_finalStatus 500 st in
        let st := enqueue makeDone
                    (chunk ("处理错误: " +:+ exn_message e) (Some "error") st) in
        close (finish (finalStatus st) st)
  end.

(** The state in which the [try] block is entered. *)
Definition initial : state :=
  let startTime_ := clock world 0 in
  mkState [] 1 startTime_ 200 startTime_ false defaultModel false false false false
    false (-1) EmptyString (TagFilter.new filteredTags).

(** How the [try] statement ends, given how its block ends: the code after
    the loop, or the [catch] block, and then [finally]. *)
Definition settle (o : outcome) : state :=
  let st :=
    match o with
    | Next st =>
        let st := enqueue makeDone (chunk EmptyString (Some "stop") st) in
        close (finish (finalStatus st) st)
    | Return st => st
    | Throw st e => catch st e
    end in
  emit ReleaseLock st.

(** The [try] statement: the final state. *)
Definition run (reads : list read_result) : state := settle (loop initial reads).

(** [createOpenAiStreamFromGrokNdjson(grokResp, opts)]: what the [start] of
    the returned stream does, for a response without a body ([None]) or with
    a body whose reader yields the given results. *)
Definition createOpenAiStreamFromGrokNdjson (body : option (list read_result))
  : list action :=
  match body with
  | None =>
      [Enqueue (makeChunk id (created world) defaultModel "Empty response" (Some "error"));
       Enqueue makeDone;
       Close]
  | Some reads => out (run reads)
  end.

(** How many times a run that ends calls [onFinish]. *)
Definition once : nat := if onFinish opts then 1%nat else 0%nat.

(** What holds at the head of the loop: the status is still 200, the
    callback was not called, and a video stream has received a frame. *)
Definition at_head (st : state) : Prop :=
  finalStatus st = 200
  /\ onFinish_calls (out st) = 0%nat
  /\ (isVideo st = true -> firstReceived st = true).

(** The same within the handling of a frame, which has been received. *)
Definition in_frame (st : state) : Prop :=
  finalStatus st = 200 /\ onFinish_calls (out st) = 0%nat /\ firstReceived st = true.

(** A block that goes on keeps [at_head]; one that returns has called the
    callback. *)
Definition sane (o : outcome) : Prop :=
  match o with
  | Next st | Throw st _ => at_head st
  | Return st => onFinish_calls (out st) = once
  end.

Definition sane_in_frame (o : outcome) : Prop :=
  match o with
  | Next st | Throw st _ => in_frame st
  | Return st => onFinish_calls (out st) = once
  end.

(** What a pass of the loop yields: a state at the head of the loop, or
    the end of the block. *)
Definition pass_sane (r : state + outcome) : Prop :=
  match r with
  | inl st => at_head st
  | inr o => sane o
  end.

(** No two readings of the clock are as far apart as a time-out that is
    in force ([0] switches the total and the idle time-outs off): no
    deadline of a text stream fires. *)
Definition patient : Prop :=
  forall i j : nat,
    let d := clock world i - clock world j in
    d < firstTimeoutMs /\ d < chunkTimeoutMs
    /\ (totalTimeoutMs = 0 \/ d < totalTimeoutMs)
    /\ (idleTimeoutMs = 0 \/ d < idleTimeoutMs).

(** A line of the upstream that holds one frame: no line feed inside, not
    blank, and parsed as [data]. *)
Definition carries (line : string) (data : json) : Prop :=
  includes line nl = false
  /\ truthy (trim line) = true
  /\ JSON_parse (trim line) = Some data.

End WithPlatform.

(** The frame [{ result: { response: { isThinking, token } } }] and its
    response. *)
Definition text_response (thinking : bool) (token : string) : json :=
  JObj [("isThinking", JBool thinking); ("token", JStr token)].

Definition text_frame (thinking : bool) (token : string) : json :=
  JObj [("result", JObj [("response", text_response thinking token)])].

(** *** Reading a run *)

(** The [content] of the delta of an enqueued chunk ([None] for a chunk
    with an empty delta, and for the sentinel). *)
Definition delta_content (a : action) : option string :=
  match a with
  | Enqueue (SseData payload) =>
      match get payload "choices" with
      | Some (JArr (choice :: _)) =>
          match opt_get (get choice "delta") "content" with
          | Some (JStr s) => Some s
          | _ => None
          end
      | _ => None
      end
  | _ => None
  end.

(** The [finish_reason] of an enqueued chunk, when it is not [null]. *)
Definition finish_reason_of (a : action) : option string :=
  match a with
  | Enqueue (SseData payload) =>
      match get payload "choices" with
      | Some (JArr (choice :: _)) =>
          match get choice "finish_reason" with
          | Some (JStr s) => Some s
          | _ => None
          end
      | _ => None
      end
  | _ => None
  end.

(** The concatenation of the delta contents of a run. *)
Fixpoint deltas (log : list action) : string :=
  match log with
  | [] => EmptyString
  | a :: rest =>
      match delta_content a with
      | Some s => s +:+ deltas rest
      | None => deltas rest
      end
  end.

End Transcoder.

(** ** The batch task manager ([BatchTask], [createTaskSSEStream]) *)

Module BatchTask.
Import JS.

Inductive BatchTaskStatus : Type := Running | Done | Failed | Cancelled.

(** The [type] of an event: ["progress"], ["done"], ["error"],
    ["cancelled"]. *)
Inductive EventType : Type := Progress | EvDone | EvError | EvCancelled.

(** [BatchTaskEvent]; an optional property that is not set is [None], and
    [warning] may be set to [null] ([Some None]). *)
Record BatchTaskEvent : Type := mkEvent {
  e_type : EventType;
  e_task_id : string;
  e_total : Z;
  e_processed : Z;
  e_ok : Z;
  e_fail : Z;
  e_item : option json;
  e_detail : option json;
  e_error : option string;
  e_warning : option (option string);
  e_result : option json
}.

Record BatchTaskSnapshot : Type := mkSnapshot {
  s_task_id : string;
  s_status : BatchTaskStatus;
  s_total : Z;
  s_processed : Z;
  s_ok : Z;
  s_fail : Z;
  s_warning : option string
}.

(** A subscriber is known by its identity; [_callbacks] is the [Set] in
    insertion order. *)
Record t : Type := mkTask {
  id : string;
  total : Z;
  createdAt : Z;
  _processed : Z;
  _ok : Z;
  _fail : Z;
  _status : BatchTaskStatus;
  _warning : option string;
  _result : option json;
  _error : option string;
  _cancelled : bool;
  _finalEvent : option BatchTaskEvent;
  _callbacks : list nat
}.

(** [constructor(total)], given [crypto.randomUUID()] and [Date.now()]. *)
Definition new (randomUUID : string) (now : Z) (total_ : Z) : t :=
  mkTask (replaceAll "-" EmptyString randomUUID) (Z.max 0 total_) now
    0 0 0 Running None None None false None [].

(** [snapshot()] *)
Definition snapshot (task : t) : BatchTaskSnapshot :=
  mkSnapshot (id task) (_status task) (total task) (_processed task) (_ok task)
    (_fail task) (_warning task).

(** What an SSE stream of the bridge has been handed: each message is
    written as [data: <JSON.stringify(message)>\n\n]. *)
Inductive message : Type :=
| Init (snapshot_ : BatchTaskSnapshot)   (* { type: "init", ...snapshot } *)
| Event (event : BatchTaskEvent).

Record Stream : Type := mkStream {
  written : list message;
  closed : bool
}.

(** A task together with the streams of [createTaskSSEStream] that observe
    it; the subscriber of stream number [n] is the callback [n]. *)
Record System : Type := mkSystem {
  task : t;
  streams : list Stream
}.

Definition with_callbacks (cbs : list nat) (task_ : t) : t :=
  mkTask (id task_) (total task_) (createdAt task_) (_processed task_) (_ok task_)
    (_fail task_) (_status task_) (_warning task_) (_result task_) (_error task_)
    (_cancelled task_) (_finalEvent task_) cbs.

(** [subscribe(callback)]: [Set.add]. *)
Definition subscribe (callback : nat) (task_ : t) : t :=
  if existsb (Nat.eqb callback) (_callbacks task_) then task_
  else with_callbacks (_callbacks task_ ++ [callback]) task_.

(** The function [subscribe] returns: [Set.delete]. *)
Definition unsubscribe (callback : nat) (task_ : t) : t :=
  with_callbacks (List.filter (fun c => negb (Nat.eqb callback c)) (_callbacks task_)) task_.

Definition is_final (ty : EventType) : bool :=
  match ty with
  | Progress => false
  | _ => true
  end.

(** The callback that [createTaskSSEStream] subscribes, for stream [n]:
    [controller.enqueue] throws on a closed stream, and the [catch]
    unsubscribes. *)
Definition bridge_callback (n : nat) (event : BatchTaskEvent) (sys : System) : System :=
  match streams sys !! n with
  | None => sys
  | Some s =>
      if closed s then mkSystem (unsubscribe n (task sys)) (streams sys)
      else if is_final (e_type event) then
        mkSystem (unsubscribe n (task sys))
          (<[n := mkStream (written s ++ [Event event]) true]> (streams sys))
      else
        mkSystem (task sys)
          (<[n := mkStream (written s ++ [Event event]) false]> (streams sys))
  end.

(** [_publish(event)]: every subscriber in turn (a callback only ever
    removes itself from the set). *)
Definition _publish (event : BatchTaskEvent) (sys : System) : System :=
  fold_left (fun acc cb => bridge_callback cb event acc) (_callbacks (task sys)) sys.

(** The argument of [record]. *)
Record RecordArgs : Type := mkArgs {
  a_ok : bool;
  a_item : option json;
  a_detail : option json;
  a_error : option string
}.

(** [record(args)] *)
Definition record (args : RecordArgs) (sys : System) : System :=
  let old := task sys in
  let processed := _processed old + 1 in
  let ok := if a_ok args then _ok old + 1 else _ok old in
  let fail := if a_ok args then _fail old else _fail old + 1 in
  let task_ :=
    mkTask (id old) (total old) (createdAt old) processed ok fail (_status old)
      (_warning old) (_result old) (_error old) (_cancelled old) (_finalEvent old)
      (_callbacks old) in
  let event :=
    mkEvent Progress (id old) (total old) processed ok fail (a_item args) (a_detail args)
      (match a_error args with
       | Some e => if truthy e then Some e else None
       | None => None
       end)
      None None in
  _publish event (mkSystem task_ (streams sys)).

(** [finish(result, warning)] *)
Definition finish (result : json) (warning : option string) (sys : System) : System :=
  let old := task sys in
  let event :=
    mkEvent EvDone (id old) (total old) (_processed old) (_ok old) (_fail old)
      None None None (Some warning) (Some result) in
  let task_ :=
    mkTask (id old) (total old) (createdAt old) (_processed old) (_ok old) (_fail old)
      Done warning (Some result) (_error old) (_cancelled old) (Some event)
      (_callbacks old) in
  _publish event (mkSystem task_ (streams sys)).

(** [failTask(error)] *)
Definition failTask (error : string) (sys : System) : System :=
  let old := task sys in
  let event :=
    mkEvent EvError (id old) (total old) (_processed old) (_ok old) (_fail old)
      None None (Some error) None None in
  let task_ :=
    mkTask (id old) (total old) (createdAt old) (_processed old) (_ok old) (_fail old)
      Failed (_warning old) (_result old) (Some error) (_cancelled old) (Some event)
      (_callbacks old) in
  _publish event (mkSystem task_ (streams sys)).

(** [cancel()] *)
Definition cancel (sys : System) : System :=
  let old := task sys in
  mkSystem
    (mkTask (id old) (total old) (createdAt old) (_processed old) (_ok old) (_fail old)
       (_status old) (_warning old) (_result old) (_error old) true (_finalEvent old)
       (_callbacks old))
    (streams sys).

(** [finishCancelled()] *)
Definition finishCancelled (sys : System) : System :=
  let old := task sys in
  let event :=
    mkEvent EvCancelled (id old) (total old) (_processed old) (_ok old) (_fail old)
      None None None None None in
  let task_ :=
    mkTask (id old) (total old) (createdAt old) (_processed old) (_ok old) (_fail old)
      Cancelled (_warning old) (_result old) (_error old) (_cancelled old) (Some event)
      (_callbacks old) in
  _publish event (mkSystem task_ (streams sys)).

(** [createTaskSSEStream(task)]: the new stream is the last one; its number
    is returned with the system. *)
Definition createTaskSSEStream (sys : System) : System * nat :=
  let n := List.length (streams sys) in
  let init := Init (snapshot (task sys)) in
  match _finalEvent (task sys) with
  | Some finalEvent =>
      (mkSystem (task sys) (streams sys ++ [mkStream [init; Event finalEvent] true]), n)
  | None =>
      (mkSystem (subscribe n (task sys)) (streams sys ++ [mkStream [init] false]), n)
  end.

(** The calls made on a task: those of the producer, and an observer
    opening a stream with [createTaskSSEStream]. *)
Inductive call : Type :=
| CallRecord (args : RecordArgs)
| CallFinish (result : json) (warning : option string)
| CallFailTask (error : string)
| CallCancel
| CallFinishCancelled
| CallCreateStream.

Definition apply (c : call) (sys : System) : System :=
  match c with
  | CallRecord args => record args sys
  | CallFinish result warning => finish result warning sys
  | CallFailTask error => failTask error sys
  | CallCancel => cancel sys
  | CallFinishCancelled => finishCancelled sys
  | CallCreateStream => fst (createTaskSSEStream sys)
  end.

(** A sequence of calls, in order. *)
Definition perform (calls : list call) (sys : System) : System :=
  fold_left (fun acc c => apply c acc) calls sys.

(** The calls that end a task. *)
Definition terminal (c : call) : bool :=
  match c with
  | CallFinish _ _ | CallFailTask _ | CallFinishCancelled => true
  | _ => false
  end.

(** [processed == ok + fail], and [finalEvent] is set exactly when the
    status is not [running]. *)
Definition consistent (task_ : t) : Prop :=
  _processed task_ = _ok task_ + _fail task_
  /\ (_finalEvent task_ <> None <-> _status task_ <> Running).

(** A message a stream was handed carries counters that add up. *)
Definition message_adds_up (m : message) : Prop :=
  match m with
  | Init s => s_processed s = s_ok s + s_fail s
  | Event e => e_processed e = e_ok e + e_fail e
  end.

(** The final event, once set, carries counters that add up. *)
Definition final_adds_up (task_ : t) : Prop :=
  match _finalEvent task_ with
  | Some e => e_processed e = e_ok e + e_fail e
  | None => True
  end.

(** Every message of every stream does. *)
Definition streams_add_up (sys : System) : Prop :=
  Forall (fun s => Forall message_adds_up (written s)) (streams sys).

(** What every call preserves. *)
Definition sound (sys : System) : Prop :=
  consistent (task sys) /\ final_adds_up (task sys) /\ streams_add_up sys.


(** A system on which no call was made yet. *)
Definition fresh (randomUUID : string) (now : Z) (total_ : Z) : System :=
  mkSystem (new randomUUID now total_) [].

End BatchTask.

(** ** The settings store ([src/settings.ts]) *)

Module Settings.
Import JS.

(** A settings section is an object: its properties in insertion order. *)
Definition object : Type := list (string * json).

(** [o[k] = v] on an object literal under construction. *)
Fixpoint set_field (k : string) (v : json) (o : object) : object :=
  match o with
  | [] => [(k, v)]
  | (k', v') :: rest =>
      if String.eqb k k' then (k, v) :: rest else (k', v') :: set_field k v rest
  end.

(** The elements of an array, or the characters of a string, under their
    indices. *)
Fixpoint indexed (i : N) (items : list json) : object :=
  match items with
  | [] => []
  | x :: rest => (N_to_string i, x) :: indexed (i + 1) rest
  end.

Fixpoint characters (s : string) : list json :=
  match s with
  | EmptyString => []
  | String c rest => JStr (String c EmptyString) :: characters rest
  end.

(** The own enumerable properties that [{ ...v }] copies: the properties of
    an object, the elements of an array and the characters of a string under
    their indices; [null], numbers and booleans have none. *)
Definition own_fields (v : json) : object :=
  match v with
  | JObj fields => fields
  | JArr items => indexed 0 items
  | JStr s => indexed 0 (characters s)
  | _ => []
  end.

(** [{ ...a, ...b }]: a key of [b] that [a] has keeps its place, a new one
    goes to the end.  (JavaScript lists the integer-like keys of an object
    first; they only arise here when a stored section is a string or an
    array, and then the values under the keys are as in the code and only
    their order differs.) *)
Definition spread (a b : object) : object :=
  fold_left (fun acc kv => set_field (fst kv) (snd kv) acc) b a.

Record SettingsBundle : Type := mkBundle {
  global_ : object;
  grok : object;
  token : object;
  cache : object;
  performance : object;
  register : object
}.

Definition DEFAULTS : SettingsBundle :=
  mkBundle
    [("base_url", JStr EmptyString); ("log_level", JStr "INFO"); ("image_mode", JStr "url");
     ("admin_username", JStr "admin"); ("admin_password", JStr "admin");
     ("image_cache_max_size_mb", JNum 512); ("video_cache_max_size_mb", JNum 1024)]
    [("api_key", JStr EmptyString); ("proxy_url", JStr EmptyString);
     ("proxy_pool_url", JStr EmptyString); ("proxy_pool_interval", JNum 300);
     ("cache_proxy_url", JStr EmptyString); ("cf_clearance", JStr EmptyString);
     ("x_statsig_id", JStr EmptyString); ("dynamic_statsig", JBool true);
     ("filtered_tags", JStr "xaiartifact,xai:tool_usage_card");
     ("show_thinking", JBool true); ("temporary", JBool false);
     ("video_poster_preview", JBool false);
     ("stream_first_response_timeout", JNum 30); ("stream_chunk_timeout", JNum 120);
     ("stream_total_timeout", JNum 600); ("stream_idle_timeout", JNum 45);
     ("video_idle_timeout", JNum 90);
     ("retry_status_codes", JArr [JNum 401; JNum 429; JNum 403]);
     ("image_generation_method", JStr "legacy")]
    [("auto_refresh", JBool true); ("refresh_interval_hours", JNum 8);
     ("fail_threshold", JNum 5); ("save_delay_ms", JNum 500);
     ("reload_interval_sec", JNum 30)]
    [("enable_auto_clean", JBool true); ("limit_mb", JNum 1024);
     ("keep_base64_cache", JBool true)]
    [("assets_max_concurrent", JNum 25); ("media_max_concurrent", JNum 50);
     ("usage_max_concurrent", JNum 25); ("assets_delete_batch_size", JNum 10);
     ("admin_assets_batch_size", JNum 10)]
    [("worker_domain", JStr EmptyString); ("email_domain", JStr EmptyString);
     ("admin_password", JStr EmptyString); ("yescaptcha_key", JStr EmptyString);
     ("solver_url", JStr "http://127.0.0.1:5072");
     ("solver_browser_type", JStr "camoufox"); ("solver_threads", JNum 5);
     ("register_threads", JNum 10); ("default_count", JNum 100);
     ("auto_start_solver", JBool true); ("solver_debug", JBool false);
     ("max_errors", JNum 0); ("max_runtime_minutes", JNum 0)].

Definition IMAGE_METHOD_LEGACY : string := "legacy".
Definition IMAGE_METHOD_IMAGINE_WS_EXPERIMENTAL : string := "imagine_ws_experimental".

(** [IMAGE_METHOD_ALIASES[candidate]], over the aliases the table lists
    (the table is a plain object: the two lower-case names it inherits,
    ["constructor"] and ["__proto__"], are left out). *)
Definition IMAGE_METHOD_ALIASES (candidate : string) : option string :=
  if String.eqb candidate "imagine_ws" then Some IMAGE_METHOD_IMAGINE_WS_EXPERIMENTAL
  else if String.eqb candidate "experimental" then Some IMAGE_METHOD_IMAGINE_WS_EXPERIMENTAL
  else if String.eqb candidate "new" then Some IMAGE_METHOD_IMAGINE_WS_EXPERIMENTAL
  else if String.eqb candidate "new_method" then Some IMAGE_METHOD_IMAGINE_WS_EXPERIMENTAL
  else None.

Definition cf_prefix : string := "cf_clearance=".

(** [stripCfPrefix(value)] *)
Definition stripCfPrefix (value_ : string) : string :=
  let trimmed := trim value_ in
  if negb (truthy trimmed) then EmptyString
  else if startsWith trimmed cf_prefix
       then String.substring (String.length cf_prefix)
              (String.length trimmed - String.length cf_prefix) trimmed
       else trimmed.

(** [normalizeCfCookie(value)] *)
Definition normalizeCfCookie (value_ : string) : string :=
  let cleaned := stripCfPrefix value_ in
  if truthy cleaned then cf_prefix +:+ cleaned else EmptyString.

(** [normalizeImageGenerationMethod(value)] *)
Definition normalizeImageGenerationMethod (value_ : value) : string :=
  let candidate :=
    toLowerCase (trim (match value_ with
                       | None | Some JNull => EmptyString
                       | Some v => to_String v
                       end)) in
  if String.eqb candidate IMAGE_METHOD_IMAGINE_WS_EXPERIMENTAL
  then IMAGE_METHOD_IMAGINE_WS_EXPERIMENTAL
  else
    match IMAGE_METHOD_ALIASES candidate with
    | Some method => method
    | None => IMAGE_METHOD_LEGACY
    end.

(** The [settings] table: key, value (JSON text) and [updated_at]. *)
Definition DB : Type := gmap string (string * Z).

(** [stripCfPrefix(v ?? "")] on a dynamically typed value: [trim] is only
    there for a string. *)
Definition strip_value (v : value) : exn + string :=
  match v with
  | None | Some JNull => inr (stripCfPrefix EmptyString)
  | Some (JStr s) => inr (stripCfPrefix s)
  | Some _ => inl (ErrorObject "TypeError" "value.trim is not a function")
  end.

Section WithJSON.

(** [JSON.parse] ([None] when it throws) and [JSON.stringify]. *)
Variable JSON_parse : string -> option json.
Variable JSON_stringify : json -> string.

(** [safeParseJson(raw, fallback)] *)
Definition safeParseJson (raw : string) (fallback : json) : json :=
  match JSON_parse raw with
  | Some v => v
  | None => fallback
  end.

(** [value ? safeParseJson(value, dflt) : dflt], for the row of a key. *)
Definition section_of (db : DB) (key : string) (dflt : object) : json :=
  match db !! key with
  | Some (text, _) => if truthy text then safeParseJson text (JObj dflt) else JObj dflt
  | None => JObj dflt
  end.

(** [getSettings(env)]; [inl] is the exception it is rejected with. *)
Definition getSettings (db : DB) : exn + SettingsBundle :=
  let globalCfg := section_of db "global" (global_ DEFAULTS) in
  let grokCfg := section_of db "grok" (grok DEFAULTS) in
  let tokenCfg := section_of db "token" (token DEFAULTS) in
  let cacheCfg := section_of db "cache" (cache DEFAULTS) in
  let performanceCfg := section_of db "performance" (performance DEFAULTS) in
  let registerCfg := section_of db "register" (register DEFAULTS) in
  match grokCfg with
  | JNull => inl (null_read "cf_clearance")
  | _ =>
      match strip_value (get grokCfg "cf_clearance") with
      | inl e => inl e
      | inr cf =>
          let mergedGrok :=
            set_field "cf_clearance" (JStr cf)
              (spread (grok DEFAULTS) (own_fields grokCfg)) in
          let mergedGrok :=
            set_field "image_generation_method"
              (JStr (normalizeImageGenerationMethod
                       (lookup_field "image_generation_method" mergedGrok)))
              mergedGrok in
          inr (mkBundle
                 (spread (global_ DEFAULTS) (own_fields globalCfg))
                 mergedGrok
                 (spread (token DEFAULTS) (own_fields tokenCfg))
                 (spread (cache DEFAULTS) (own_fields cacheCfg))
                 (spread (performance DEFAULTS) (own_fields performanceCfg))
                 (spread (register DEFAULTS) (own_fields registerCfg)))
      end
  end.

(** The [updates] argument of [saveSettings]: each section may be absent. *)
Record Updates : Type := mkUpdates {
  global_config : option object;
  grok_config : option object;
  token_config : option object;
  cache_config : option object;
  performance_config : option object;
  register_config : option object
}.

(** [updates.x_config ?? {}] *)
Definition or_empty (o : option object) : object :=
  match o with
  | Some fields => fields
  | None => []
  end.

(** [updates.grok_config?.cf_clearance ?? current.grok.cf_clearance ?? ""] *)
Definition cf_input (updates : Updates) (current : SettingsBundle) : value :=
  match grok_config updates with
  | Some fields =>
      match lookup_field "cf_clearance" fields with
      | None | Some JNull => lookup_field "cf_clearance" (grok current)
      | Some v => Some v
      end
  | None => lookup_field "cf_clearance" (grok current)
  end.

(** The section [saveSettings] persists under the key ["grok"]. *)
Definition nextGrok (updates : Updates) (current : SettingsBundle) : exn + object :=
  match strip_value (cf_input updates current) with
  | inl e => inl e
  | inr cf =>
      let next :=
        set_field "cf_clearance" (JStr cf)
          (spread (grok current) (or_empty (grok_config updates))) in
      inr (set_field "image_generation_method"
             (JStr (normalizeImageGenerationMethod
                      (lookup_field "image_generation_method" next)))
             next)
  end.

(** One [INSERT ... ON CONFLICT(key) DO UPDATE] of the batch. *)
Definition upsert (key : string) (section : object) (now : Z) (db : DB) : DB :=
  <[key := (JSON_stringify (JObj section), now)]> db.

(** [saveSettings(env, updates)] at time [now = nowMs()]. *)
Definition saveSettings (db : DB) (updates : Updates) (now : Z) : exn + DB :=
  match getSettings db with
  | inl e => inl e
  | inr current =>
      match nextGrok updates current with
      | inl e => inl e
      | inr nextGrok_ =>
          let nextGlobal := spread (global_ current) (or_empty (global_config updates)) in
          let nextToken := spread (token current) (or_empty (token_config updates)) in
          let nextCache := spread (cache current) (or_empty (cache_config updates)) in
          let nextPerformance :=
            spread (performance current) (or_empty (performance_config updates)) in
          let nextRegister :=
            spread (register current) (or_empty (register_config updates)) in
          inr (upsert "register" nextRegister now
                 (upsert "performance" nextPerformance now
                    (upsert "cache" nextCache now
                       (upsert "token" nextToken now
                          (upsert "grok" nextGrok_ now
                             (upsert "global" nextGlobal now db))))))
      end
  end.

End WithJSON.

End Settings.

(** ** JavaScript numbers that are not integers *)

Module Double.

(** The arithmetic of a JavaScript [number], an IEEE 754 binary64 value:
    the result of [/] and [*] is the exact result rounded to 53 significant
    bits, to the nearest such value and to the one with an even last bit when
    half way.  A finite [number] is held as the rational it denotes.  The
    exponent is not bounded: no overflow to [Infinity] and no subnormal
    values, which the quotients of counts do not reach. *)

(** [2^k] for an integer [k] of either sign. *)
Definition pow2 (k : Z) : Q := (2 ^ k)%Q.

(** The integer [e] with [2^e <= x < 2^(e+1)], for a positive [x]. *)
Definition exponent (x : Q) : Z :=
  let k := Z.log2 (Qnum x) - Z.log2 (Zpos (Qden x)) in
  match (x ?= pow2 k)%Q with
  | Lt => k - 1
  | _ => k
  end.

(** The integer nearest to [q], the even one of the two when [q] is half
    way between them. *)
Definition nearest_even (q : Q) : Z :=
  let f := Qfloor q in
  match (q - inject_Z f ?= 1 # 2)%Q with
  | Lt => f
  | Gt => f + 1
  | Eq => if Z.even f then f else f + 1
  end.

(** A positive rational rounded to 53 significant bits. *)
Definition round53 (x : Q) : Q :=
  let e := exponent x in
  (inject_Z (nearest_even (x * pow2 (52 - e))) * pow2 (e - 52))%Q.

(** The [number] nearest to a rational. *)
Definition nearest (x : Q) : Q :=
  match Qnum x with
  | 0 => 0%Q
  | Zpos _ => round53 x
  | Zneg _ => (- round53 (- x))%Q
  end.

(** [Math.round(x)] *)
Definition Math_round (x : Q) : Z := Qfloor (x + (1 # 2)).

End Double.

(** ** Request logs and statistics ([src/repo/logs.ts]) *)

Module Logs.
Import JS.

Record RequestLogRow : Type := mkRow {
  id : string;
  time : string;
  timestamp : Z;
  ip : string;
  model : string;
  duration : Z;
  status : Z;
  key_name : string;
  token_suffix : string;
  error : string
}.

(** A bucket of a statistics map: [{ success, failed }]. *)
Record Bucket : Type := mkBucket {
  success : Z;
  failed : Z
}.

Record Summary : Type := mkSummary {
  total : Z;
  sum_success : Z;
  sum_failed : Z;
  success_rate : Q
}.

Record RequestStats : Type := mkStats {
  hourly : list (string * Bucket);   (* { hour, success, failed } *)
  daily : list (string * Bucket);    (* { date, success, failed } *)
  models : list (string * Z);        (* { model, count } *)
  summary : Summary
}.

(** [isSuccessStatus(status)] *)
Definition isSuccessStatus (status_ : Z) : bool :=
  (status_ >=? 200) && (status_ <? 400).

Definition ms_per_hour : Z := 60 * 60 * 1000.
Definition ms_per_day : Z := 24 * 60 * 60 * 1000.

(** The UTC calendar date of a day number (days since 1970-01-01), in the
    proleptic Gregorian calendar: what [getUTCFullYear], [getUTCMonth() + 1]
    and [getUTCDate] return. *)
Definition civil_from_days (days : Z) : Z * Z * Z :=
  let z := days + 719468 in
  let era := z / 146097 in
  let doe := z - era * 146097 in
  let yoe := (doe - doe / 1460 + doe / 36524 - doe / 146096) / 365 in
  let doy := doe - (365 * yoe + yoe / 4 - yoe / 100) in
  let mp := (5 * doy + 2) / 153 in
  let d := doy - (153 * mp + 2) / 5 + 1 in
  let m := if mp <? 10 then mp + 3 else mp - 9 in
  let y := yoe + era * 400 + (if m <=? 2 then 1 else 0) in
  (y, m, d).

(** [toIsoDateKey(ts)] *)
Definition toIsoDateKey (ts : Z) : string :=
  let '(y, m, day) := civil_from_days (ts / ms_per_day) in
  Z_to_string y +:+ "-" +:+ pad2 m +:+ "-" +:+ pad2 day.

(** [new Date(ts).getUTCHours()] *)
Definition getUTCHours (ts : Z) : Z := (ts / ms_per_hour) mod 24.

(** [toIsoHourKey(ts)] *)
Definition toIsoHourKey (ts : Z) : string :=
  toIsoDateKey ts +:+ " " +:+ pad2 (getUTCHours ts).

(** [ORDER BY timestamp ASC] *)
Fixpoint insert_by_timestamp (r : RequestLogRow) (sorted : list RequestLogRow)
  : list RequestLogRow :=
  match sorted with
  | [] => [r]
  | x :: rest =>
      if timestamp r <? timestamp x then r :: x :: rest
      else x :: insert_by_timestamp r rest
  end.

Fixpoint order_by_timestamp (rows : list RequestLogRow) : list RequestLogRow :=
  match rows with
  | [] => []
  | r :: rest => insert_by_timestamp r (order_by_timestamp rest)
  end.

(** [SELECT timestamp, status FROM request_logs WHERE timestamp >= ?
    ORDER BY timestamp ASC] *)
Definition select_since (table : list RequestLogRow) (since : Z) : list RequestLogRow :=
  order_by_timestamp (List.filter (fun r => timestamp r >=? since) table).

(** The state of the single pass over the rows. *)
Record Scan : Type := mkScan {
  hourlyMap : gmap string Bucket;
  dailyMap : gmap string Bucket;
  n_success : Z;
  n_failed : Z
}.

(** [cur.success += 1] or [cur.failed += 1] *)
Definition count (isSuccess : bool) (cur : Bucket) : Bucket :=
  if isSuccess then mkBucket (success cur + 1) (failed cur)
  else mkBucket (success cur) (failed cur + 1).

(** [map.get(key) ?? { success: 0, failed: 0 }] *)
Definition bucket_of (m : gmap string Bucket) (key : string) : Bucket :=
  match m !! key with
  | Some b => b
  | None => mkBucket 0 0
  end.

(** The body of [for (const r of last14)]. *)
Definition scan_row (since24h : Z) (acc : Scan) (r : RequestLogRow) : Scan :=
  let isSuccess := isSuccessStatus (status r) in
  let dayKey := toIsoDateKey (timestamp r) in
  let dailyMap_ := <[dayKey := count isSuccess (bucket_of (dailyMap acc) dayKey)]> (dailyMap acc) in
  if timestamp r >=? since24h then
    let hourKey := toIsoHourKey (timestamp r) in
    mkScan
      (<[hourKey := count isSuccess (bucket_of (hourlyMap acc) hourKey)]> (hourlyMap acc))
      dailyMap_
      (if isSuccess then n_success acc + 1 else n_success acc)
      (if isSuccess then n_failed acc else n_failed acc + 1)
  else mkScan (hourlyMap acc) dailyMap_ (n_success acc) (n_failed acc).

Definition scan (since24h : Z) (last14 : list RequestLogRow) : Scan :=
  fold_left (scan_row since24h) last14 (mkScan ∅ ∅ 0 0).

(** [total > 0 ? Math.round((success / total) * 1000) / 10 : 0]: the
    quotient, the product and the last quotient are each rounded to a
    [number]; [Math.round] is exact.  (The counts are exact integers, as
    they are in the code below 2^53.) *)
Definition rate (success_ total_ : Z) : Q :=
  if total_ >? 0
  then Double.nearest
         (inject_Z
            (Double.Math_round
               (Double.nearest
                  (Double.nearest (inject_Z success_ / inject_Z total_) * 1000)))
          / 10)
  else 0%Q.

(** [getRequestStats(db)] at time [now = nowMs()], over the table of logs;
    [models] is the result of the grouped query over the last seven days. *)
Definition getRequestStats (now : Z) (table : list RequestLogRow)
  (models_ : list (string * Z)) : RequestStats :=
  let since24h := now - 24 * 60 * 60 * 1000 in
  let since14d := now - 14 * 24 * 60 * 60 * 1000 in
  let last14 := select_since table since14d in
  let s := scan since24h last14 in
  let startHour := now - 23 * 60 * 60 * 1000 in
  let hourly_ :=
    List.map (fun i =>
                let ts := startHour + i * (60 * 60 * 1000) in
                (pad2 (getUTCHours ts) +:+ ":00", bucket_of (hourlyMap s) (toIsoHourKey ts)))
             (List.map Z.of_nat (List.seq 0 24)) in
  let startDay := now - 13 * 24 * 60 * 60 * 1000 in
  let daily_ :=
    List.map (fun i =>
                let ts := startDay + i * (24 * 60 * 60 * 1000) in
                (toIsoDateKey ts, bucket_of (dailyMap s) (toIsoDateKey ts)))
             (List.map Z.of_nat (List.seq 0 14)) in
  let total_ := n_success s + n_failed s in
  mkStats hourly_ daily_ models_
    (mkSummary total_ (n_success s) (n_failed s) (rate (n_success s) total_)).

(** The rows of the last 24 hours. *)
Definition recent (now : Z) (r : RequestLogRow) : bool :=
  timestamp r >=? now - 24 * 60 * 60 * 1000.

(** The rows the scan reads: those of the last 14 days. *)
Definition scanned (now : Z) (r : RequestLogRow) : bool :=
  timestamp r >=? now - 14 * 24 * 60 * 60 * 1000.

(** How many rows of a list satisfy a test. *)
Definition how_many (p : RequestLogRow -> bool) (rows : list RequestLogRow) : Z :=
  Z.of_nat (List.length (List.filter p rows)).

(** The successes and failures among the rows that satisfy a test. *)
Definition tally (p : RequestLogRow -> bool) (rows : list RequestLogRow) : Bucket :=
  mkBucket
    (how_many (fun r => p r && isSuccessStatus (status r)) rows)
    (how_many (fun r => p r && negb (isSuccessStatus (status r))) rows).

(** Adding two buckets. *)
Definition plus (a b : Bucket) : Bucket :=
  mkBucket (success a + success b) (failed a + failed b).

(** The rows of one UTC day, and of one UTC hour. *)
Definition on_day (key : string) (r : RequestLogRow) : bool :=
  String.eqb (toIsoDateKey (timestamp r)) key.

Definition in_hour (key : string) (r : RequestLogRow) : bool :=
  String.eqb (toIsoHourKey (timestamp r)) key.

End Logs.

(** ** Reading the log of a response

    What a client of the stream sees: delta chunks, then one chunk with a
    [finish_reason], the [DONE] sentinel, and the end of the stream. *)

Module Transcript.
Import JS Transcoder.

(** A chunk whose [finish_reason] is [null]: it does not end the
    completion. *)
Definition is_delta (a : action) : bool :=
  match a with
  | Enqueue (SseData _) =>
      match finish_reason_of a with
      | None => true
      | Some _ => false
      end
  | _ => false
  end.

(** What a run does before it ends: delta chunks and warnings. *)
Definition in_progress (a : action) : bool :=
  match a with
  | Warn _ => true
  | _ => is_delta a
  end.

(** A chunk whose [finish_reason] is ["stop"] or ["error"]. *)
Definition is_final_chunk (a : action) : bool :=
  match a with
  | Enqueue (SseData _) =>
      match finish_reason_of a with
      | Some r => String.eqb r "stop" || String.eqb r "error"
      | None => false
      end
  | _ => false
  end.

(** The end of a response: the final chunk, the sentinel, the completion
    callback when it is called, [close], and [releaseLock] when a reader
    was taken. *)
Definition ending (called : bool) (status duration_ms : Z) (last : action)
  (released : bool) : list action :=
  ([last; Enqueue SseDone]
   ++ (if called then [OnFinish status duration_ms] else [])
   ++ [Close]
   ++ (if released then [ReleaseLock] else []))%list.

(** A log that is a run of delta chunks and warnings followed by an
    ending, with one of the three statuses the transcoder reports. *)
Definition ends (called released : bool) (log : list action) : Prop :=
  exists (before : list action) (last : action) (status duration_ms : Z),
    log = (before ++ ending called status duration_ms last released)%list
    /\ forallb in_progress before = true
    /\ is_final_chunk last = true
    /\ (status = 200 \/ status = 500 \/ status = 502).

(** A state in which the response is still going on. *)
Definition going (st : state) : Prop :=
  finalStatus st = 200 /\ forallb in_progress (out st) = true.

(** A block that goes on leaves the response going on; one that returns
    has ended it. *)
Definition orderly (called : bool) (o : outcome) : Prop :=
  match o with
  | Next st | Throw st _ => going st
  | Return st => ends called false (out st)
  end.

Definition pass_orderly (called : bool) (r : state + outcome) : Prop :=
  match r with
  | inl st => going st
  | inr o => orderly called o
  end.

End Transcript.

(** ** The non-streaming path ([parseOpenAiFromGrokNdjson])

    The whole upstream body is read as text; its lines are scanned for the
    first frame that settles the reply. *)

Module Completion.
Import JS.

(** The [opts] argument. *)
Record Opts : Type := {
  cookie : string;
  settings : Transcoder.GrokSettings;
  global_ : Transcoder.GlobalSettings;
  origin : string;
  requestedModel : string
}.

(** How the body of [for (const line of lines)] ends. *)
Inductive verdict : Type :=
| Continue (content model : string)   (* [continue], or the end of the body *)
| Break (content model : string)      (* [break] *)
| Raise (e : exn).                    (* [throw] *)

(** The frames of the properties: a chat reply and an upstream error. *)
Definition reply_frame (model message : string) : json :=
  JObj [("result",
         JObj [("response",
                JObj [("modelResponse",
                       JObj [("model", JStr model); ("message", JStr message)])])])].

Definition error_frame (message : json) : json :=
  JObj [("error", JObj [("message", message)])].

Section WithPlatform.

(** [JSON.parse] and [new URL] ([None] when they throw), [btoa], the
    arguments of the call, [crypto.randomUUID()] and
    [Math.floor(Date.now() / 1000)]. *)
Variable JSON_parse : string -> option json.
Variable URL_parse : string -> option Transcoder.URL.
Variable btoa : string -> string.
Variable opts : Opts.
Variable randomUUID : string.
Variable created : Z.

(** [toImgProxyUrl(global, origin, encodeAssetPath(raw))] *)
Definition proxied (raw : string) : string :=
  Transcoder.toImgProxyUrl (global_ opts) (origin opts)
    (Transcoder.encodeAssetPath URL_parse btoa raw).

(** The [for (const u of urls)] loop that appends the image lines. *)
Definition image_lines (urls : list string) (content : string) : string :=
  fold_left (fun acc u => acc +:+ nl +:+ "![Generated Image](" +:+ proxied u +:+ ")")
    urls content.

(** The part of the loop body that reads a [modelResponse]. *)
Definition read_modelResponse (modelResp : json) (content model : string) : verdict :=
  match get modelResp "error" with
  | Some (JStr (String c e)) => Raise (ErrorObject "Error" (String c e))
  | _ =>
      let model :=
        match get modelResp "model" with
        | Some (JStr (String c m)) => String c m
        | _ => model
        end in
      let content :=
        match get modelResp "message" with
        | Some (JStr message) => message
        | _ => content
        end in
      let rawUrls := get modelResp "generatedImageUrls" in
      match Transcoder.normalizeGeneratedAssetUrls URL_parse rawUrls with
      | [] =>
          match rawUrls with
          | Some (JArr _) => Continue content model
          | _ => Break content model
          end
      | urls => Break (image_lines urls content) model
      end
  end.

(** The body of the loop for one parsed line. *)
Definition read_frame (data : json) (content model : string) : verdict :=
  match data with
  | JNull => Raise (null_read "error")
  | _ =>
      match as_truthy (opt_get (get data "error") "message") with
      | Some message => Raise (ErrorObject "Error" (to_String message))
      | None =>
          match as_truthy (opt_get (get data "result") "response") with
          | None => Continue content model
          | Some grok =>
              let videoResp := get grok "streamingVideoGenerationResponse" in
              match opt_get videoResp "videoUrl" with
              | Some (JStr (String c url)) =>
                  let src := proxied (String c url) in
                  let poster :=
                    match opt_get videoResp "thumbnailImageUrl" with
                    | Some (JStr (String d thumb)) => Some (proxied (String d thumb))
                    | _ => None
                    end in
                  Break
                    (Transcoder.buildVideoHtml src poster
                       (match Transcoder.video_poster_preview (settings opts) with
                        | Some true => true
                        | _ => false
                        end))
                    (requestedModel opts)
              | _ =>
                  match as_truthy (get grok "modelResponse") with
                  | None => Continue content model
                  | Some modelResp => read_modelResponse modelResp content model
                  end
              end
          end
      end
  end.

(** [for (const line of lines)]: the content and the model when the loop
    is left, or the exception. *)
Fixpoint scan (lines : list string) (content model : string) : exn + (string * string) :=
  match lines with
  | [] => inr (content, model)
  | line :: rest =>
      match JSON_parse line with
      | None => scan rest content model
      | Some data =>
          match read_frame data content model with
          | Continue content' model' => scan rest content' model'
          | Break content' model' => inr (content', model')
          | Raise e => inl e
          end
      end
  end.

(** [text.split("\n").map((l) => l.trim()).filter(Boolean)] *)
Definition lines_of (text : string) : list string :=
  List.filter truthy (List.map trim (split (ascii_of_nat 10) text)).

Definition filteredTags : list string :=
  List.filter truthy
    (List.map trim
       (split "," (match Transcoder.filtered_tags (settings opts) with
                   | Some t => t
                   | None => EmptyString
                   end))).

(** The object that is returned. *)
Definition completion (model content : string) : json :=
  JObj [("id", JStr ("chatcmpl-" +:+ randomUUID));
        ("object", JStr "chat.completion");
        ("created", JNum created);
        ("model", JStr model);
        ("choices",
         JArr [JObj [("index", JNum 0);
                     ("message",
                      JObj [("role", JStr "assistant"); ("content", JStr content)]);
                     ("finish_reason", JStr "stop")]]);
        ("usage", JNull)].

(** [parseOpenAiFromGrokNdjson(grokResp, opts)], given the text of the
    body; [inl] is the exception it is rejected with. *)
Definition parseOpenAiFromGrokNdjson (text : string) : exn + json :=
  match scan (lines_of text) EmptyString (requestedModel opts) with
  | inl e => inl e
  | inr (content, model) =>
      inr (completion model (TagFilter.filterTagsFromContent content filteredTags))
  end.

End WithPlatform.

End Completion.

(** ** The streams of a batch task, as their readers see them *)

Module BatchStreams.
Import JS BatchTask.

(** What follows the initial snapshot on a stream: progress events, then
    at most one final event, after which nothing; [closed] tells whether the
    final event was written. *)
Fixpoint progress_then_final (closed_ : bool) (ms : list message) : bool :=
  match ms with
  | [] => negb closed_
  | Event e :: rest =>
      if is_final (e_type e)
      then closed_ && match rest with [] => true | _ => false end
      else progress_then_final closed_ rest
  | Init _ :: _ => false
  end.

(** A stream begins with the snapshot and goes on as above. *)
Definition shaped (s : Stream) : Prop :=
  match written s with
  | Init _ :: ms => progress_then_final (closed s) ms = true
  | _ => False
  end.

(** The subscribers of a task are its open streams. *)
Definition subscribed_are_open (sys : System) : Prop :=
  forall n : nat,
    In n (_callbacks (task sys)) <->
    exists s : Stream, streams sys !! n = Some s /\ closed s = false.

End BatchStreams.

(** ** Running a batch ([runInBatches])

    The workers are the asynchronous closures the function starts.  Each
    runs without interruption from one [await] to the next; which of the
    pending [processor] promises settles next, and when other code calls
    [cancel()] on the task, is the schedule of a run.  The processor is
    taken not to touch the task itself. *)

Module Batches.
Import JS BatchTask.

(** What [processor(item)] resolves to. *)
Record Result : Type := mkResult {
  r_ok : bool;
  r_detail : option json;
  r_error : option string
}.

(** A worker is waiting for the processor of an item, or has left its
    loop. *)
Inductive worker : Type :=
| Awaiting (item : json)
| Finished.

(** The state of a run: the queue, the workers in the order they were
    started, the task with its observers, and the arguments of the calls of
    [task.record] made so far, in order. *)
Record state : Type := mkState {
  queue : list value;
  workers : list worker;
  sys : System;
  recorded : list RecordArgs
}.

(** What happens next: the promise a worker awaits settles, or other code
    calls [cancel()] on the task. *)
Inductive event : Type :=
| Settle (worker_ : nat)
| Cancel.

Definition is_finished (w : worker) : bool :=
  match w with
  | Finished => true
  | Awaiting _ => false
  end.

Section WithProcessor.

(** How the promise [processor(item)] settles: [inl] is a rejection. *)
Variable processor : json -> exn + Result.

(** The head of the worker's loop, up to its [await]: [while (queue.length
    > 0 && !task.cancelled)], [queue.shift()], [if (item === undefined)
    break]. *)
Definition take (queue_ : list value) (cancelled : bool) : worker * list value :=
  match queue_ with
  | [] => (Finished, [])
  | item :: rest =>
      if cancelled then (Finished, queue_)
      else
        match item with
        | None => (Finished, rest)
        | Some item_ => (Awaiting item_, rest)
        end
  end.

(** The argument of [task.record] once the processor has settled. *)
Definition outcome (item : json) : RecordArgs :=
  match processor item with
  | inr result => mkArgs (r_ok result) (Some item) (r_detail result) (r_error result)
  | inl e => mkArgs false (Some item) None (Some (exn_message e))
  end.

(** A worker is started: it runs up to its first [await]. *)
Definition start (st : state) : state :=
  let '(w, q) := take (queue st) (_cancelled (task (sys st))) in
  mkState q (workers st ++ [w]) (sys st) (recorded st).

(** [for (let i = 0; i < n; i++) workers.push(...)] *)
Fixpoint spawn (n : nat) (st : state) : state :=
  match n with
  | O => st
  | S n' => spawn n' (start st)
  end.

(** A worker resumes after its [await]: it records the outcome and goes
    round its loop up to the next [await]. *)
Definition resume (i : nat) (st : state) : state :=
  match workers st !! i with
  | Some (Awaiting item) =>
      let args := outcome item in
      let sys' := record args (sys st) in
      let '(w, q) := take (queue st) (_cancelled (task sys')) in
      mkState q (<[i := w]> (workers st)) sys' (recorded st ++ [args])
  | _ => st
  end.

Definition step (e : event) (st : state) : state :=
  match e with
  | Settle i => resume i st
  | Cancel => mkState (queue st) (workers st) (cancel (sys st)) (recorded st)
  end.

(** [await Promise.all(workers); if (task.cancelled) task.finishCancelled()] *)
Definition conclude (st : state) : state :=
  if _cancelled (task (sys st))
  then mkState (queue st) (workers st) (finishCancelled (sys st)) (recorded st)
  else st.

(** A run under a schedule: it ends as soon as every worker has finished;
    [None] when the schedule runs out while a worker still awaits. *)
Fixpoint run (schedule : list event) (st : state) : option state :=
  if forallb is_finished (workers st) then Some (conclude st)
  else
    match schedule with
    | [] => None
    | e :: rest => run rest (step e st)
    end.

(** [runInBatches(items, task, processor, concurrency)] *)
Definition runInBatches (items : list value) (sys_ : System) (concurrency : Z)
  (schedule : list event) : option state :=
  run schedule
    (spawn (Z.to_nat (Z.min concurrency (Z.of_nat (List.length items))))
       (mkState items [] sys_ [])).

End WithProcessor.

(** The items workers are waiting for. *)
Definition in_flight (ws : list worker) : list value :=
  flat_map (fun w => match w with
                     | Awaiting item => [Some item]
                     | Finished => []
                     end) ws.

Definition is_settle (e : event) : bool :=
  match e with
  | Settle _ => true
  | Cancel => false
  end.

(** The workers that have left their loop. *)
Definition stopped (ws : list worker) : nat := List.length (List.filter is_finished ws).

(** Every item is accounted for, once: recorded, awaited, still in the
    queue, or one of the [skipped] [undefined] items that a worker shifted
    off the queue before it left its loop ([if (item === undefined) break]).
    Each worker skips at most one. *)
Definition accounted (items : list value) (skipped : nat) (st : state) : Prop :=
  Permutation
    (List.map a_item (recorded st) ++ in_flight (workers st) ++ queue st
     ++ List.repeat None skipped)
    items
  /\ (skipped <= stopped (workers st))%nat.

(** What a run does to the task before it concludes: it counts the
    records, and touches neither the status nor the final event. *)
Definition counted (sys0 : System) (st : state) : Prop :=
  _processed (task (sys st))
  = _processed (task sys0) + Z.of_nat (List.length (recorded st))
  /\ _status (task (sys st)) = _status (task sys0)
  /\ _finalEvent (task (sys st)) = _finalEvent (task sys0).

(** A worker has only left its loop because the queue was empty or the
    task cancelled. *)
Definition left_for_cause (st : state) : Prop :=
  Exists (fun w => w = Finished) (workers st) ->
  _cancelled (task (sys st)) = true \/ queue st = [].

(** No item of the queue is [undefined]. *)
Definition defined (q : list value) : Prop := Forall (fun v => v <> None) q.

End Batches.

(** ** The sections of the settings store *)

Module SettingsSections.
Import JS Settings.

(** The five sections that are stored as they are submitted: the key of
    the row, the section of a bundle, the section of an update. *)
Definition plain_sections
  : list (string * (SettingsBundle -> object) * (Updates -> option object)) :=
  [("global", global_, global_config);
   ("token", token, token_config);
   ("cache", cache, cache_config);
   ("performance", performance, performance_config);
   ("register", register, register_config)].

(** All six sections of a bundle. *)
Definition sections : list (SettingsBundle -> object) :=
  [global_; grok; token; cache; performance; register].

End SettingsSections.

(** ** The models ([src/grok/models.ts]) *)

Module Models.
Import JS.

Inductive Tier : Type := Basic | Super.
Inductive Cost : Type := Low | High.

Record ModelInfo : Type := mkInfo {
  grok_model : string * string;
  rate_limit_model : string;
  display_name : string;
  description : string;
  raw_model_path : string;
  default_temperature : Q;
  default_max_output_tokens : Z;
  supported_max_output_tokens : Z;
  default_top_p : Q;
  tier : Tier;
  cost : Cost;
  is_image_model : option bool;
  is_video_model : option bool
}.

(** [MODEL_CONFIG]: the own properties of the object, in their order. *)
Definition MODEL_CONFIG : list (string * ModelInfo) :=
 [
  ("grok-3",
   mkInfo ("grok-3", "MODEL_MODE_GROK_3") "grok-3"
     "grok-3"
     "Grok 3 chat model"
     "xai/grok-3" 1 8192 131072 (95 # 100) Basic Low None None);
  ("grok-3-mini",
   mkInfo ("grok-3", "MODEL_MODE_GROK_3_MINI_THINKING") "grok-3"
     "grok-3-mini"
     "Grok 3 Mini thinking model"
     "xai/grok-3" 1 8192 131072 (95 # 100) Basic Low None None);
  ("grok-3-thinking",
   mkInfo ("grok-3", "MODEL_MODE_GROK_3_THINKING") "grok-3"
     "grok-3-thinking"
     "Grok 3 with thinking mode"
     "xai/grok-3" 1 8192 131072 (95 # 100) Basic Low None None);
  ("grok-4",
   mkInfo ("grok-4", "MODEL_MODE_GROK_4") "grok-4"
     "grok-4"
     "Grok 4 chat model"
     "xai/grok-4" 1 8192 131072 (95 # 100) Basic Low None None);
  ("grok-4-mini",
   mkInfo ("grok-4-mini", "MODEL_MODE_GROK_4_MINI_THINKING") "grok-4-mini"
     "grok-4-mini"
     "Grok 4 mini thinking model"
     "xai/grok-4-mini" 1 8192 131072 (95 # 100) Basic Low None None);
  ("grok-4-thinking",
   mkInfo ("grok-4", "MODEL_MODE_GROK_4_THINKING") "grok-4"
     "grok-4-thinking"
     "Grok 4 with thinking mode"
     "xai/grok-4" 1 8192 131072 (95 # 100) Basic Low None None);
  ("grok-4-heavy",
   mkInfo ("grok-4", "MODEL_MODE_HEAVY") "grok-4-heavy"
     "grok-4-heavy"
     "Most powerful Grok model (Super tokens required)"
     "xai/grok-4" 1 65536 131072 (95 # 100) Super High None None);
  ("grok-4.1-mini",
   mkInfo ("grok-4-1-thinking-1129", "MODEL_MODE_GROK_4_1_MINI_THINKING") "grok-4-1-thinking-1129"
     "grok-4.1-mini"
     "Grok 4.1 mini thinking model"
     "xai/grok-4-1-thinking-1129" 1 8192 131072 (95 # 100) Basic Low None None);
  ("grok-4.1-fast",
   mkInfo ("grok-4-1-thinking-1129", "MODEL_MODE_FAST") "grok-4-1-thinking-1129"
     "grok-4.1-fast"
     "Fast Grok 4.1 chat model"
     "xai/grok-4-1-thinking-1129" 1 8192 131072 (95 # 100) Basic Low None None);
  ("grok-4.1-expert",
   mkInfo ("grok-4-1-thinking-1129", "MODEL_MODE_EXPERT") "grok-4-1-thinking-1129"
     "grok-4.1-expert"
     "Expert Grok 4.1 chat model"
     "xai/grok-4-1-thinking-1129" 1 8192 131072 (95 # 100) Basic High None None);
  ("grok-4.1-thinking",
   mkInfo ("grok-4-1-thinking-1129", "MODEL_MODE_GROK_4_1_THINKING") "grok-4-1-thinking-1129"
     "grok-4.1-thinking"
     "Grok 4.1 with thinking mode"
     "xai/grok-4-1-thinking-1129" 1 32768 131072 (95 # 100) Basic High None None);
  ("grok-imagine-1.0",
   mkInfo ("grok-3", "MODEL_MODE_FAST") "grok-3"
     "grok-imagine-1.0"
     "Image generation model"
     "xai/grok-imagine-1.0" 1 8192 131072 (95 # 100) Basic High (Some true) None);
  ("grok-imagine-1.0-edit",
   mkInfo ("imagine-image-edit", "MODEL_MODE_FAST") "grok-3"
     "Grok Imagine 1.0 Edit"
     "Image edit model"
     "xai/grok-imagine-1.0-edit" 1 8192 131072 (95 # 100) Basic High (Some true) None);
  ("grok-imagine-1.0-video",
   mkInfo ("grok-3", "MODEL_MODE_FAST") "grok-3"
     "grok-imagine-1.0-video"
     "Video generation model"
     "xai/grok-imagine-1.0-video" 1 8192 131072 (95 # 100) Basic High None (Some true))
 ]%Q.

(** The properties every plain object inherits from [Object.prototype]:
    all of them functions or objects, hence truthy, and none with a property
    the functions below read. *)
Definition Object_prototype : list string :=
  ["constructor"; "__defineGetter__"; "__defineSetter__"; "hasOwnProperty";
   "__lookupGetter__"; "__lookupSetter__"; "isPrototypeOf"; "propertyIsEnumerable";
   "toString"; "valueOf"; "__proto__"; "toLocaleString"].

(** What [MODEL_CONFIG[model]] is: an entry of the table, an inherited
    property, or [undefined]. *)
Inductive property : Type :=
| Own (cfg : ModelInfo)
| Inherited
| Absent.

Fixpoint own (model : string) (table : list (string * ModelInfo)) : option ModelInfo :=
  match table with
  | [] => None
  | (name, cfg) :: rest => if String.eqb model name then Some cfg else own model rest
  end.

Definition lookup (model : string) : property :=
  match own model MODEL_CONFIG with
  | Some cfg => Own cfg
  | None => if existsb (String.eqb model) Object_prototype then Inherited else Absent
  end.

(** [isValidModel(model)] *)
Definition isValidModel (model : string) : bool :=
  match lookup model with
  | Own _ | Inherited => true
  | Absent => false
  end.

(** [getModelInfo(model)]: [Absent] stands for [null]. *)
Definition getModelInfo (model : string) : property := lookup model.

Record GrokModel : Type := mkGrokModel {
  grokModel : string;
  mode : string;
  isVideoModel : bool
}.

(** [toGrokModel(model)]; on an inherited property [cfg.grok_model] is
    [undefined], and reading its element [0] throws. *)
Definition toGrokModel (model : string) : exn + GrokModel :=
  match lookup model with
  | Absent => inr (mkGrokModel model "MODEL_MODE_FAST" false)
  | Own cfg =>
      inr (mkGrokModel (fst (grok_model cfg)) (snd (grok_model cfg))
             (match is_video_model cfg with
              | Some b => b
              | None => false
              end))
  | Inherited =>
      inl (ErrorObject "TypeError" "Cannot read properties of undefined (reading '0')")
  end.

(** [toRateLimitModel(model)] *)
Definition toRateLimitModel (model : string) : string :=
  match lookup model with
  | Own cfg => rate_limit_model cfg
  | _ => model
  end.

(** [poolForModel(model)] *)
Definition poolForModel (model : string) : string :=
  match lookup model with
  | Own cfg =>
      match tier cfg with
      | Super => "ssoSuper"
      | Basic => "ssoBasic"
      end
  | _ => "ssoBasic"
  end.

(** [poolCandidatesForModel(model)] *)
Definition poolCandidatesForModel (model : string) : list string :=
  match lookup model with
  | Own cfg =>
      match tier cfg with
      | Super => ["ssoSuper"]
      | Basic => ["ssoBasic"; "ssoSuper"]
      end
  | _ => ["ssoBasic"; "ssoSuper"]
  end.

End Models.

(** ** The progress of a token refresh ([src/repo/refreshProgress.ts])

    The table [token_refresh_progress] is only ever read and written at the
    row with [id = 1]: the table is that row, when it exists. *)

Module RefreshProgress.

(** The columns of the row. *)
Record Row : Type := mkRow {
  r_running : Z;
  r_current : Z;
  r_total : Z;
  r_success : Z;
  r_failed : Z;
  r_updated_at : Z
}.

Definition Table : Type := option Row.

Record RefreshProgress : Type := mkProgress {
  running : bool;
  current : Z;
  total : Z;
  success : Z;
  failed : Z;
  updated_at : Z
}.

(** [Partial<RefreshProgress>]: [None] is an absent ([undefined])
    property. *)
Record Partial : Type := mkPartial {
  p_running : option bool;
  p_current : option Z;
  p_total : option Z;
  p_success : option Z;
  p_failed : option Z;
  p_updated_at : option Z
}.

(** [getRefreshProgress(db)] at time [now = nowMs()]: the progress, and
    the table afterwards (a missing row is inserted). *)
Definition getRefreshProgress (db : Table) (now : Z) : RefreshProgress * Table :=
  match db with
  | None => (mkProgress false 0 0 0 0 now, Some (mkRow 0 0 0 0 0 now))
  | Some row =>
      (mkProgress (r_running row =? 1) (r_current row) (r_total row) (r_success row)
         (r_failed row) (r_updated_at row),
       db)
  end.

(** SQL's [COALESCE(?, fallback)] for a bound parameter that may be
    [null]. *)
Definition COALESCE (parameter : option Z) (fallback : Z) : Z :=
  match parameter with
  | Some v => v
  | None => fallback
  end.

(** [setRefreshProgress(db, p)] at time [now = nowMs()]: the [INSERT ...
    ON CONFLICT(id) DO UPDATE] statement. *)
Definition setRefreshProgress (db : Table) (p : Partial) (now : Z) : Table :=
  let running :=
    match p_running p with
    | Some b => Some (if b then 1 else 0)
    | None => None
    end in
  match db with
  | None =>
      Some (mkRow (COALESCE running 0) (COALESCE (p_current p) 0)
              (COALESCE (p_total p) 0) (COALESCE (p_success p) 0)
              (COALESCE (p_failed p) 0) now)
  | Some row =>
      Some (mkRow (COALESCE running (r_running row))
              (COALESCE (p_current p) (r_current row))
              (COALESCE (p_total p) (r_total row))
              (COALESCE (p_success p) (r_success row))
              (COALESCE (p_failed p) (r_failed row)) now)
  end.

(** A property of an update when it is given, else the one of another
    update. *)
Definition or_else {A : Type} (first second : option A) : option A :=
  match first with
  | Some v => Some v
  | None => second
  end.

(** The update that carries what [later] gives, and else what [earlier]
    gives. *)
Definition after (earlier later : Partial) : Partial :=
  mkPartial (or_else (p_running later) (p_running earlier))
    (or_else (p_current later) (p_current earlier))
    (or_else (p_total later) (p_total earlier))
    (or_else (p_success later) (p_success earlier))
    (or_else (p_failed later) (p_failed earlier))
    (or_else (p_updated_at later) (p_updated_at earlier)).

End RefreshProgress.

(** * Scenarios

    Concrete inputs: the platform, the settings and the streams on which the
    properties below are exercised. *)

Module Scenario.
Import JS.

(** ** Transcoder *)

(** A frame that reports the progress of a video. *)
Definition video_frame (progress : Z) : json :=
  JObj [("result",
         JObj [("response",
                JObj [("streamingVideoGenerationResponse",
                       JObj [("progress", JNum progress)])])])].

(** An image frame with a token, with or without a [modelResponse] whose
    [generatedImageUrls] is empty. *)
Definition image_response (with_modelResponse : bool) : json :=
  JObj ((if with_modelResponse
         then [("modelResponse", JObj [("generatedImageUrls", JArr [])])]
         else [])
        ++ [("imageAttachmentInfo", JObj []); ("token", JStr "pixels")])%list.

Definition image_frame (with_modelResponse : bool) : json :=
  JObj [("result", JObj [("response", image_response with_modelResponse)])].

(** A parser that knows the lines of the scenarios by name. *)
Definition parse (line : string) : option json :=
  if String.eqb line "A" then Some (Transcoder.text_frame true "A")
  else if String.eqb line "B" then Some (Transcoder.text_frame true "B")
  else if String.eqb line "C" then Some (Transcoder.text_frame false "C")
  else if String.eqb line "video 10" then Some (video_frame 10)
  else if String.eqb line "video 60" then Some (video_frame 60)
  else if String.eqb line "image, empty urls" then Some (image_frame true)
  else if String.eqb line "image, token" then Some (image_frame false)
  else None.

Definition no_URL (raw : string) : option Transcoder.URL := None.

Definition plain_btoa (binary : string) : string := binary.

(** The settings: every field absent but [show_thinking], the ordinary
    idle time-out and the video idle time-out. *)
Definition settings (show : option bool) (idle video_idle : option Z)
  : Transcoder.GrokSettings :=
  Transcoder.Build_GrokSettings None show None None None None idle video_idle.

Definition opts (show : option bool) (idle video_idle : option Z) : Transcoder.Opts :=
  Transcoder.Build_Opts EmptyString (settings show idle video_idle)
    (Transcoder.Build_GlobalSettings None) "https://gateway.example" true.

Definition t0 : Z := 1700000000000.

(** A clock that stands still; one that jumps by [gap] milliseconds after
    the reading number [last]; one that advances by a second at each
    reading. *)
Definition still : Transcoder.World :=
  Transcoder.Build_World "uuid" 1700000000 (fun _ => t0).

Definition stalls (last : nat) (gap : Z) : Transcoder.World :=
  Transcoder.Build_World "uuid" 1700000000
    (fun k => if (k <=? last)%nat then t0 else t0 + gap).

Definition ticking : Transcoder.World :=
  Transcoder.Build_World "uuid" 1700000000 (fun k => t0 + 1000 * Z.of_nat k).

Definition chunk_of (line : string) : Transcoder.read_result :=
  Transcoder.ReadValue (Some (line +:+ nl)).

(** The state at the head of the loop after one video frame, on the clock
    that jumps by 100 seconds after the frame, with the default settings. *)
Definition video_head : Transcoder.state :=
  match Transcoder.head_state parse no_URL plain_btoa (opts None None None)
          (stalls 2 100000)
          (Transcoder.initial (opts None None None) (stalls 2 100000))
          [chunk_of "video 10"] with
  | Some st => st
  | None => Transcoder.initial (opts None None None) (stalls 2 100000)
  end.

(** ** Batch tasks *)

(** A task of two items, both recorded as done, then finished. *)
Definition finished_task : BatchTask.System :=
  BatchTask.perform
    [BatchTask.CallRecord (BatchTask.mkArgs true None None None);
     BatchTask.CallRecord (BatchTask.mkArgs true None None None);
     BatchTask.CallFinish (JObj [("n", JNum 2)]) None]
    (BatchTask.fresh "0f8fad5b-d9cb-469f-a165-70867728950e" 1700000000000 2).

(** ** Settings *)

(** A store whose ["grok"] row holds a prefixed cookie, with the parser
    that reads it. *)
Definition stored_text : string := "{cf_clearance: cf_clearance=abc}".

Definition stored_parse (text : string) : option json :=
  if String.eqb text stored_text
  then Some (JObj [("cf_clearance", JStr "cf_clearance=abc")])
  else None.

Definition stored_db : Settings.DB := {[ "grok" := (stored_text, 0) ]}.

(** ** Request logs *)

(** A successful request one hour after the start of the 14-day scan
    window of [t0]: it is among the scanned rows, and its UTC day,
    2023-10-31, is the day before the first day that is returned. *)
Definition edge_row : Logs.RequestLogRow :=
  Logs.mkRow "1" "2023-10-31 23:13:20" (t0 - 14 * 24 * 60 * 60 * 1000 + 60 * 60 * 1000)
    "203.0.113.7" "grok-4" 1200 200 "key" "abcd" EmptyString.


(** ** More settings and upstreams *)

(** Settings with a first-response time-out of [secs] seconds and
    [show_thinking] as given, every other field absent. *)
Definition first_timeout (secs : Z) (show : option bool) : Transcoder.Opts :=
  Transcoder.Build_Opts EmptyString
    (Transcoder.Build_GrokSettings None show None (Some secs) None None None None)
    (Transcoder.Build_GlobalSettings None) "https://gateway.example" true.

(** A parser that rejects every line. *)
Definition no_parse (line : string) : option json := None.

(** A tag filter inside an element that is not closed yet. *)
Definition inside_tag : TagFilter.t :=
  TagFilter.mk ["xaiartifact"] true "<xaiartifact" EmptyString.

(** ** The non-streaming path *)

(** A body whose lines are known by name: a chat reply with a filtered
    element in its message, and an upstream error. *)
Definition reply_message : string := "Hi <xaiartifact>card</xaiartifact>there".

Definition body_parse (line : string) : option json :=
  if String.eqb line "reply" then Some (Completion.reply_frame "grok-4" reply_message)
  else if String.eqb line "error" then Some (Completion.error_frame (JStr "rate limited"))
  else None.

Definition completion_opts : Completion.Opts :=
  Completion.Build_Opts EmptyString
    (Transcoder.Build_GrokSettings (Some "xaiartifact") None None None None None None None)
    (Transcoder.Build_GlobalSettings None) "https://gateway.example" "grok-3".

(** ** Batches *)

(** A processor that rejects the item [2] and accepts every other. *)
Definition processor (item : json) : exn + Batches.Result :=
  match item with
  | JNum 2 => inl (ErrorObject "Error" "boom")
  | _ => inr (Batches.mkResult true None None)
  end.

Definition new_task : BatchTask.System :=
  BatchTask.fresh "0f8fad5b-d9cb-469f-a165-70867728950e" 1700000000000 4.

Definition four_items : list json := [JNum 1; JNum 2; JNum 3; JNum 4].

(** The end of a run of two workers over four items: when nothing is
    cancelled, and when [cancel()] is called while the first two items are
    being processed. *)
Definition state_or (dflt : Batches.state) (r : option Batches.state) : Batches.state :=
  match r with
  | Some st => st
  | None => dflt
  end.

Definition batch_start : Batches.state :=
  Batches.mkState (List.map Some four_items) [] new_task [].

Definition full_schedule : list Batches.event :=
  [Batches.Settle 1; Batches.Settle 0; Batches.Settle 1; Batches.Settle 0].

Definition full_run : Batches.state :=
  state_or batch_start
    (Batches.runInBatches processor (List.map Some four_items) new_task 2 full_schedule).

Definition cancelled_schedule : list Batches.event :=
  [Batches.Cancel; Batches.Settle 1; Batches.Settle 0].

Definition cancelled_run : Batches.state :=
  state_or batch_start
    (Batches.runInBatches processor (List.map Some four_items) new_task 2
       cancelled_schedule).

(** A list with an [undefined] item at its head, and the end of the run of
    one worker over it: the worker shifts the item off the queue and leaves. *)
Definition holey_items : list JS.value := [None; Some (JNum 1); Some (JNum 3)].

Definition holey_run : Batches.state :=
  state_or batch_start (Batches.runInBatches processor holey_items new_task 1 []).

(** The state in which two workers process the first two items and the
    task has just been cancelled. *)
Definition just_cancelled : Batches.state :=
  Batches.step processor Batches.Cancel (Batches.spawn 2 batch_start).

(** ** More settings stores *)

(** The [token] section after [fail_threshold] was set to 9, the text it
    is written as, and the parser that reads that text. *)
Definition saved_token : Settings.object :=
  [("auto_refresh", JBool true); ("refresh_interval_hours", JNum 8);
   ("fail_threshold", JNum 9); ("save_delay_ms", JNum 500);
   ("reload_interval_sec", JNum 30)].

Definition write_text (v : json) : string :=
  match v with
  | JObj ((k, _) :: _) => if String.eqb k "auto_refresh" then "token" else "other"
  | _ => "other"
  end.

Definition read_text (text : string) : option json :=
  if String.eqb text "token" then Some (JObj saved_token) else None.

Definition token_update : Settings.Updates :=
  Settings.mkUpdates None None (Some [("fail_threshold", JNum 9)]) None None None.

Definition bundle_or_defaults (r : exn + Settings.SettingsBundle) : Settings.SettingsBundle :=
  match r with
  | inr bundle => bundle
  | inl _ => Settings.DEFAULTS
  end.

Definition saved_db : Settings.DB :=
  match Settings.saveSettings read_text write_text ∅ token_update 1700000000000 with
  | inr db => db
  | inl _ => ∅
  end.

(** A store whose ["grok"] row holds the JSON text [null]. *)
Definition null_parse (text : string) : option json :=
  if String.eqb text "null" then Some JNull else None.

Definition null_db : Settings.DB := {[ "grok" := ("null", 0) ]}.

End Scenario.

(** * Properties *)

(** ** The tag filter *)

Arguments JS.startsWith : simpl never.
Arguments JS.includes : simpl never.
Arguments JS.endsWith : simpl never.
Arguments JS.trim : simpl never.

Section TagFilterFacts.
Import JS.

Lemma scan_open_full (ts : list string) (p : string) (a : bool) :
  snd (TagFilter.scan_open ts p a) = TagFilter.opens_tag ts p.
Proof.
  revert a. induction ts as [|tag ts IH]; intros a; simpl; [reflexivity|].
  destruct (startsWith p ("<" +:+ tag)); simpl; [reflexivity|apply IH].
Qed.

Lemma scan_open_any (ts : list string) (p : string) (a : bool) :
  TagFilter.opens_tag ts p = false ->
  fst (TagFilter.scan_open ts p a) = a || TagFilter.open_prefix ts p.
Proof.
  revert a. induction ts as [|tag ts IH]; intros a H; simpl in *.
  - now rewrite orb_false_r.
  - apply orb_false_iff in H as [H1 H2]. rewrite H1.
    rewrite (IH _ H2).
    destruct (startsWith ("<" +:+ tag) p), a; reflexivity.
Qed.

Lemma step_tags (f : TagFilter.t) (c : ascii) :
  TagFilter.tags (fst (TagFilter.step f c)) = TagFilter.tags f.
Proof.
  unfold TagFilter.step.
  destruct (truthy (TagFilter.pendingPrefix f)).
  - destruct (TagFilter.scan_open _ _ _) as [any full].
    destruct full; [reflexivity|]. destruct (negb any); reflexivity.
  - destruct (TagFilter.inFilterTag f).
    + match goal with |- context [if ?b then (_, _) else (_, _)] => destruct b end;
        reflexivity.
    + destruct (Ascii.eqb c "<"); reflexivity.
Qed.

(** What a pending prefix becomes when the next character arrives. *)
Lemma step_pending (ts : list string) (inTag : bool) (buf : string)
  (c0 : ascii) (p : string) (c : ascii) :
  let pending := String c0 p +:+ String c EmptyString in
  TagFilter.step (TagFilter.mk ts inTag buf (String c0 p)) c =
    if TagFilter.opens_tag ts pending
    then (TagFilter.mk ts true pending EmptyString, EmptyString)
    else if TagFilter.open_prefix ts pending
         then (TagFilter.mk ts inTag buf pending, EmptyString)
         else (TagFilter.mk ts inTag buf EmptyString, pending).
Proof.
  intros pending. unfold TagFilter.step.
  cbn [TagFilter.pendingPrefix TagFilter.tags TagFilter.inFilterTag
       TagFilter.tagBuffer truthy].
  fold pending.
  pose proof (scan_open_full ts pending false) as Hfull.
  pose proof (scan_open_any ts pending false) as Hany.
  destruct (TagFilter.scan_open ts pending false) as [any full].
  simpl in Hfull, Hany. subst full.
  destruct (TagFilter.opens_tag ts pending); [reflexivity|].
  rewrite (Hany eq_refl). simpl.
  destruct (TagFilter.open_prefix ts pending); reflexivity.
Qed.

(** A single character other than ["<"] begins no opening tag. *)
Lemma open_prefix_char (ts : list string) (c : ascii) :
  Ascii.eqb c "<" = false ->
  TagFilter.open_prefix ts (String c EmptyString) = false.
Proof.
  intros H. unfold TagFilter.open_prefix.
  induction ts as [|tag ts IH]; simpl; [reflexivity|].
  rewrite IH, orb_false_r.
  unfold startsWith. simpl.
  destruct (ascii_dec c "<") as [->|]; [discriminate H|reflexivity].
Qed.

(** What one character makes the filter emit is empty, or is no prefix of
    an opening tag. *)
Lemma step_emission (f : TagFilter.t) (c : ascii) :
  snd (TagFilter.step f c) = EmptyString
  \/ TagFilter.open_prefix (TagFilter.tags f) (snd (TagFilter.step f c)) = false.
Proof.
  destruct f as [ts inTag buf pend]. destruct pend as [|c0 p].
  - unfold TagFilter.step.
    cbn [TagFilter.pendingPrefix TagFilter.tags TagFilter.inFilterTag
         TagFilter.tagBuffer truthy].
    destruct inTag.
    + left.
      match goal with |- context [if ?b then (_, _) else (_, _)] => destruct b end;
        reflexivity.
    + destruct (Ascii.eqb c "<") eqn:E; [left; reflexivity|].
      right. simpl. now apply open_prefix_char.
  - rewrite step_pending. cbn zeta.
    destruct (TagFilter.opens_tag ts _); [left; reflexivity|].
    destruct (TagFilter.open_prefix ts _) eqn:E; [left; reflexivity|].
    right. exact E.
Qed.

Lemma append_nil_r (s : string) : s +:+ EmptyString = s.
Proof.
  induction s as [|c s IH]; [reflexivity|].
  change (String c (s +:+ EmptyString) = String c s). now rewrite IH.
Qed.

Lemma append_assoc (a b c : string) : (a +:+ b) +:+ c = a +:+ (b +:+ c).
Proof.
  induction a as [|x a IH]; [reflexivity|].
  change (String x ((a +:+ b) +:+ c) = String x (a +:+ (b +:+ c))). now rewrite IH.
Qed.

Lemma concat_cons (x : string) (l : list string) :
  String.concat EmptyString (x :: l) = x +:+ String.concat EmptyString l.
Proof.
  destruct l; cbn [String.concat]; [symmetry; apply append_nil_r|reflexivity].
Qed.

(** The loop of [filter] appends its emissions to the accumulator. *)
Lemma filter_loop_emissions (token : string) :
  forall (f : TagFilter.t) (result : string),
    snd (TagFilter.filter_loop f token result)
    = result +:+ String.concat EmptyString (TagFilter.emissions f token).
Proof.
  induction token as [|c token IH]; intros f result.
  - simpl. now rewrite append_nil_r.
  - cbn [TagFilter.filter_loop TagFilter.emissions].
    destruct (TagFilter.step f c) as [f' o] eqn:E. cbn [fst snd].
    rewrite IH, concat_cons. apply append_assoc.
Qed.

Lemma filter_loop_state (token : string) :
  forall (f : TagFilter.t) (r1 r2 : string),
    fst (TagFilter.filter_loop f token r1) = fst (TagFilter.filter_loop f token r2).
Proof.
  induction token as [|c token IH]; intros f r1 r2; [reflexivity|].
  cbn [TagFilter.filter_loop]. destruct (TagFilter.step f c) as [f' o]. apply IH.
Qed.

Lemma filter_loop_tags (token : string) :
  forall (f : TagFilter.t) (r : string),
    TagFilter.tags (fst (TagFilter.filter_loop f token r)) = TagFilter.tags f.
Proof.
  induction token as [|c token IH]; intros f r; [reflexivity|].
  cbn [TagFilter.filter_loop].
  pose proof (step_tags f c) as Ht.
  destruct (TagFilter.step f c) as [f' o]. cbn [fst] in Ht.
  now rewrite IH.
Qed.

Lemma filter_tags (f : TagFilter.t) (token : string) :
  TagFilter.tags (fst (TagFilter.filter f token)) = TagFilter.tags f.
Proof.
  unfold TagFilter.filter. destruct (TagFilter.tags f) eqn:E; [exact E|].
  rewrite filter_loop_tags. exact E.
Qed.

(** What [filter] returns is the concatenation of its emissions. *)
Lemma filter_emissions (f : TagFilter.t) (token : string) :
  snd (TagFilter.filter f token)
  = String.concat EmptyString (TagFilter.token_emissions f token).
Proof.
  unfold TagFilter.filter, TagFilter.token_emissions.
  destruct (TagFilter.tags f); [reflexivity|].
  now rewrite filter_loop_emissions.
Qed.

Lemma emissions_clean (token : string) :
  forall f : TagFilter.t,
    Forall (TagFilter.clean (TagFilter.tags f)) (TagFilter.emissions f token).
Proof.
  induction token as [|c token IH]; intros f; [constructor|].
  cbn [TagFilter.emissions]. constructor.
  - apply step_emission.
  - rewrite <- (step_tags f c). apply IH.
Qed.

Lemma feed_emissions_clean (tokens : list string) :
  forall f : TagFilter.t,
    Forall (TagFilter.clean (TagFilter.tags f)) (TagFilter.feed_emissions f tokens).
Proof.
  induction tokens as [|tok tokens IH]; intros f; [constructor|].
  cbn [TagFilter.feed_emissions]. apply Forall_app. split.
  - unfold TagFilter.token_emissions.
    destruct (TagFilter.tags f) eqn:E.
    + constructor; [|constructor]. right. reflexivity.
    + rewrite <- E. apply emissions_clean.
  - rewrite <- (filter_tags f tok). apply IH.
Qed.

Lemma lone_bracket (ts : list string) :
  TagFilter.named ts ->
  TagFilter.open_prefix ts "<" = true /\ TagFilter.opens_tag ts "<" = false.
Proof.
  intros [Hne Hall]. split.
  - destruct ts as [|[|a tag] ts]; [congruence|reflexivity|reflexivity].
  - clear Hne. induction Hall as [|tag ts Htag _ IH]; [reflexivity|].
    simpl. rewrite IH, orb_false_r.
    destruct tag; [discriminate Htag|reflexivity].
Qed.

Lemma step_holds (f : TagFilter.t) (c : ascii) :
  TagFilter.named (TagFilter.tags f) -> TagFilter.holds_partial_tag f ->
  TagFilter.holds_partial_tag (fst (TagFilter.step f c)).
Proof.
  intros Hn H. destruct f as [ts inTag buf pend]. destruct pend as [|c0 p].
  - unfold TagFilter.step.
    cbn [TagFilter.pendingPrefix TagFilter.tags TagFilter.inFilterTag
         TagFilter.tagBuffer truthy].
    destruct inTag.
    + left.
      match goal with |- context [if ?b then (_, _) else (_, _)] => destruct b end;
        reflexivity.
    + destruct (Ascii.eqb c "<"); [|left; reflexivity].
      right. cbn [fst TagFilter.pendingPrefix TagFilter.tags TagFilter.inFilterTag].
      destruct (lone_bracket ts Hn) as [H1 H2]. auto.
  - destruct H as [H|(_ & _ & Hin)]; [discriminate H|].
    cbn [TagFilter.inFilterTag] in Hin. subst inTag.
    rewrite step_pending. cbn zeta.
    destruct (TagFilter.opens_tag ts _) eqn:E1; [left; reflexivity|].
    destruct (TagFilter.open_prefix ts _) eqn:E2; [|left; reflexivity].
    right. cbn [fst TagFilter.pendingPrefix TagFilter.tags TagFilter.inFilterTag]. auto.
Qed.

Lemma filter_loop_holds (token : string) :
  forall (f : TagFilter.t) (r : string),
    TagFilter.named (TagFilter.tags f) -> TagFilter.holds_partial_tag f ->
    TagFilter.holds_partial_tag (fst (TagFilter.filter_loop f token r)).
Proof.
  induction token as [|c token IH]; intros f r Hn H; [exact H|].
  cbn [TagFilter.filter_loop].
  pose proof (step_holds f c Hn H) as H'. pose proof (step_tags f c) as Ht.
  destruct (TagFilter.step f c) as [f' o]. cbn [fst] in *.
  apply IH; [now rewrite Ht|exact H'].
Qed.

Lemma filter_holds (f : TagFilter.t) (token : string) :
  Forall (fun tag => truthy tag = true) (TagFilter.tags f) ->
  TagFilter.holds_partial_tag f -> TagFilter.holds_partial_tag (fst (TagFilter.filter f token)).
Proof.
  intros Hall H. unfold TagFilter.filter.
  destruct (TagFilter.tags f) eqn:E; [exact H|].
  apply filter_loop_holds; [|exact H]. rewrite E. split; [congruence|exact Hall].
Qed.

Lemma feed_holds (tokens : list string) :
  forall f : TagFilter.t,
    Forall (fun tag => truthy tag = true) (TagFilter.tags f) ->
    TagFilter.holds_partial_tag f -> TagFilter.holds_partial_tag (fst (TagFilter.feed f tokens)).
Proof.
  induction tokens as [|tok tokens IH]; intros f Hall H; [exact H|].
  cbn [TagFilter.feed].
  pose proof (filter_holds f tok Hall H) as H'. pose proof (filter_tags f tok) as Ht.
  destruct (TagFilter.filter f tok) as [f1 o]. cbn [fst] in *.
  specialize (IH f1). destruct (TagFilter.feed f1 tokens) as [f2 os]. cbn [fst] in *.
  apply IH; [now rewrite Ht|exact H'].
Qed.

Lemma new_tags_named (filterTags : list string) :
  Forall (fun tag => truthy tag = true) (TagFilter.tags (TagFilter.new filterTags)).
Proof.
  cbn [TagFilter.new TagFilter.tags]. apply Forall_forall. intros tag Hin.
  apply list_elem_of_In, List.filter_In in Hin. tauto.
Qed.

(** What [filter] returns is made of pieces, each a plain character or a
    pending prefix emitted whole; no piece (when not empty) is itself a
    prefix of a configured opening tag, and the text a filter holds back is
    always empty or such a prefix.  (This says nothing of a ["<"] inside a
    piece: see the next theorem.) *)
Lemma filter_returns_pieces :
  (forall (f : TagFilter.t) (token : string),
      snd (TagFilter.filter f token)
      = String.concat EmptyString (TagFilter.token_emissions f token))
  /\ (forall (filterTags tokens : list string),
         let f0 := TagFilter.new filterTags in
         Forall (fun e => e = EmptyString
                          \/ TagFilter.open_prefix (TagFilter.tags f0) e = false)
                (TagFilter.feed_emissions f0 tokens)
         /\ TagFilter.holds_partial_tag (fst (TagFilter.feed f0 tokens))).
Proof.
  split.
  - apply filter_emissions.
  - intros filterTags tokens f0. split.
    + apply feed_emissions_clean.
    + apply feed_holds; [apply new_tags_named|left; reflexivity].
Qed.

(** C3.  With the filter tags [["xaiartifact"]], the tokens ["Hello <xai"]
    and ["artifact>secret</xaiartifact> World"] yield ["Hello "] and
    [" World"], whose concatenation is ["Hello  World"].  The general half
    fails: a pending prefix that the next character breaks is emitted
    together with that character, which is not looked at again, also when
    it is a ["<"].  So after the tokens ["<"] and ["<xai"] the filter has
    returned ["<<xai"], a partial opening tag emitted as content while the
    configured tag can still begin with it, holds nothing back and is not in a
    tag; the rest of the element, ["artifact>secret</xaiartifact>"], then
    passes whole, with its body.  The same text in one piece goes through
    [filterTagsFromContent] unchanged. *)
Theorem C3_tag_after_broken_prefix_passes_unfiltered :
  (let '(f1, out1) := TagFilter.filter (TagFilter.new ["xaiartifact"]) "Hello <xai" in
   let '(_, out2) := TagFilter.filter f1 "artifact>secret</xaiartifact> World" in
   out1 = "Hello " /\ out2 = " World" /\ out1 +:+ out2 = "Hello  World"
   /\ TagFilter.pendingPrefix f1 = "<xai")
  /\ (forall (ts : list string) (inTag : bool) (buf : string)
        (c0 : ascii) (p : string) (c : ascii),
        let pending := String c0 p +:+ String c EmptyString in
        TagFilter.step (TagFilter.mk ts inTag buf (String c0 p)) c =
          if TagFilter.opens_tag ts pending
          then (TagFilter.mk ts true pending EmptyString, EmptyString)
          else if TagFilter.open_prefix ts pending
               then (TagFilter.mk ts inTag buf pending, EmptyString)
               else (TagFilter.mk ts inTag buf EmptyString, pending))
  /\ (let '(f1, out1) := TagFilter.filter (TagFilter.new ["xaiartifact"]) "<" in
      let '(f2, out2) := TagFilter.filter f1 "<xai" in
      let '(f3, out3) := TagFilter.filter f2 "artifact>secret</xaiartifact>" in
      out1 = EmptyString /\ TagFilter.pendingPrefix f1 = "<"
      /\ out2 = "<<xai"
      /\ TagFilter.open_prefix ["xaiartifact"] "<xai" = true
      /\ TagFilter.pendingPrefix f2 = EmptyString /\ TagFilter.inFilterTag f2 = false
      /\ out3 = "artifact>secret</xaiartifact>"
      /\ TagFilter.flush f3 = (TagFilter.mk ["xaiartifact"] false EmptyString EmptyString,
                               EmptyString))
  /\ TagFilter.filterTagsFromContent "a<<xaiartifact>secret</xaiartifact>b"
       ["xaiartifact"]
     = "a<<xaiartifact>secret</xaiartifact>b".
Proof.
  split; [|split; [|split]].
  - vm_compute. repeat split.
  - intros. apply step_pending.
  - vm_compute. repeat split.
  - vm_compute. reflexivity.
Qed.
End TagFilterFacts.

(** ** The batch task manager *)

Section BatchTaskFacts.
Import JS BatchTask.

Lemma with_callbacks_id (task_ : BatchTask.t) :
  with_callbacks (_callbacks task_) task_ = task_.
Proof. now destruct task_. Qed.

Lemma with_callbacks_twice (c1 c2 : list nat) (task_ : BatchTask.t) :
  with_callbacks c1 (with_callbacks c2 task_) = with_callbacks c1 task_.
Proof. reflexivity. Qed.

(** Publishing touches the subscriber set of the task and nothing else. *)
Lemma bridge_callback_task (n : nat) (event : BatchTaskEvent) (sys : System) :
  exists cbs, task (bridge_callback n event sys) = with_callbacks cbs (task sys).
Proof.
  unfold bridge_callback.
  destruct (streams sys !! n) as [s|].
  - destruct (closed s); [|destruct (is_final (e_type event))]; cbn [task];
      try (eexists; reflexivity).
    exists (_callbacks (task sys)). now rewrite with_callbacks_id.
  - exists (_callbacks (task sys)). now rewrite with_callbacks_id.
Qed.

Lemma fold_callbacks_task (event : BatchTaskEvent) (cbs : list nat) :
  forall sys : System,
    exists cbs',
      task (fold_left (fun acc cb => bridge_callback cb event acc) cbs sys)
      = with_callbacks cbs' (task sys).
Proof.
  induction cbs as [|cb cbs IH]; intros sys.
  - exists (_callbacks (task sys)). cbn [fold_left]. now rewrite with_callbacks_id.
  - cbn [fold_left]. destruct (IH (bridge_callback cb event sys)) as [c1 H1].
    destruct (bridge_callback_task cb event sys) as [c2 H2].
    exists c1. rewrite H1, H2. reflexivity.
Qed.

Lemma publish_task (event : BatchTaskEvent) (sys : System) :
  exists cbs, task (_publish event sys) = with_callbacks cbs (task sys).
Proof. apply fold_callbacks_task. Qed.

Lemma bridge_callback_streams (n : nat) (event : BatchTaskEvent) (sys : System) :
  message_adds_up (Event event) -> streams_add_up sys ->
  streams_add_up (bridge_callback n event sys).
Proof.
  intros He Hs. unfold bridge_callback.
  destruct (streams sys !! n) as [s|] eqn:E; [|exact Hs].
  assert (Forall message_adds_up (written s ++ [Event event])) as Hw.
  { apply Forall_app. split; [|now constructor].
    exact (Forall_lookup_1 _ _ _ _ Hs E). }
  destruct (closed s); [exact Hs|].
  destruct (is_final (e_type event)); unfold streams_add_up; cbn [streams];
    apply Forall_insert; assumption.
Qed.

Lemma publish_streams (event : BatchTaskEvent) (sys : System) :
  message_adds_up (Event event) -> streams_add_up sys ->
  streams_add_up (_publish event sys).
Proof.
  intros He. unfold _publish. generalize (_callbacks (task sys)) as cbs.
  intros cbs. revert sys. induction cbs as [|cb cbs IH]; intros sys Hs; [exact Hs|].
  cbn [fold_left]. apply IH. now apply bridge_callback_streams.
Qed.

Lemma consistent_with_callbacks (cbs : list nat) (task_ : BatchTask.t) :
  consistent (with_callbacks cbs task_) <-> consistent task_.
Proof. unfold consistent. destruct task_; reflexivity. Qed.

Lemma final_with_callbacks (cbs : list nat) (task_ : BatchTask.t) :
  final_adds_up (with_callbacks cbs task_) <-> final_adds_up task_.
Proof. unfold final_adds_up. destruct task_; reflexivity. Qed.

Ltac published :=
  match goal with
  | |- context [_publish ?e ?s] =>
      unfold sound; destruct (publish_task e s) as [cbs ->]; split; [|split];
      [apply consistent_with_callbacks
      |apply final_with_callbacks
      |apply publish_streams]
  end.

(** One call keeps the counters, the final event and the status together,
    and hands every stream messages whose counters add up. *)
Lemma apply_sound (c : call) (sys : System) : sound sys -> sound (apply c sys).
Proof.
  intros ([Hsum Hfin] & Hfe & Hs).
  destruct c as [args|result warning|error| | |]; cbn [apply].
  - unfold record. published.
    + split; cbn; [destruct (a_ok args); lia|exact Hfin].
    + exact Hfe.
    + cbn. destruct (a_ok args); lia.
    + exact Hs.
  - unfold finish. published.
    + split; cbn; [exact Hsum|split; congruence].
    + exact Hsum.
    + exact Hsum.
    + exact Hs.
  - unfold failTask. published.
    + split; cbn; [exact Hsum|split; congruence].
    + exact Hsum.
    + exact Hsum.
    + exact Hs.
  - split; [|split]; [split; cbn; assumption|exact Hfe|exact Hs].
  - unfold finishCancelled. published.
    + split; cbn; [exact Hsum|split; congruence].
    + exact Hsum.
    + exact Hsum.
    + exact Hs.
  - assert (consistent (task sys)) as Hc by (split; assumption).
    unfold createTaskSSEStream.
    destruct (_finalEvent (task sys)) as [fe|] eqn:Efe; cbn [fst].
    + split; [|split]; cbn [task streams]; [exact Hc|exact Hfe|].
      apply Forall_app. split; [exact Hs|].
      constructor; [|constructor]. cbn [written].
      constructor; [exact Hsum|]. constructor; [|constructor].
      unfold final_adds_up in Hfe. now rewrite Efe in Hfe.
    + split; [|split]; cbn [task streams].
      * unfold subscribe. destruct (existsb _ _); [exact Hc|].
        now apply consistent_with_callbacks.
      * unfold subscribe. destruct (existsb _ _); [exact Hfe|].
        now apply final_with_callbacks.
      * apply Forall_app. split; [exact Hs|].
        constructor; [|constructor]. cbn [written].
        constructor; [exact Hsum|constructor].
Qed.

Lemma perform_sound (calls : list call) :
  forall sys : System, sound sys -> sound (perform calls sys).
Proof.
  induction calls as [|c calls IH]; intros sys H; [exact H|].
  unfold perform. cbn [fold_left]. apply IH. now apply apply_sound.
Qed.

Lemma fresh_sound (randomUUID : string) (now total_ : Z) :
  sound (fresh randomUUID now total_).
Proof.
  split; [|split].
  - split; cbn; [reflexivity|]. split; congruence.
  - exact I.
  - constructor.
Qed.

(** C5.  For any batch task and any sequence of [record], [finish],
    [failTask], [cancel] and [finishCancelled] calls (with observers opening
    streams at any moment in between), [processed == ok + fail] holds after
    every call, [finalEvent] is non-null if and only if the status is not
    ["running"], and every message any observer was handed (the snapshot of
    [init], each progress event, the final event) carries counters that add
    up. *)
Theorem C5_processed_is_ok_plus_fail
  (randomUUID : string) (now total_ : Z) (calls : list call) :
  let sys := perform calls (fresh randomUUID now total_) in
  _processed (task sys) = _ok (task sys) + _fail (task sys)
  /\ (_finalEvent (task sys) <> None <-> _status (task sys) <> Running)
  /\ streams_add_up sys.
Proof.
  intros sys.
  destruct (perform_sound calls _ (fresh_sound randomUUID now total_))
    as ([H1 H2] & _ & H3).
  auto.
Qed.

(** C6.  For a task whose [finalEvent] is already set when
    [createTaskSSEStream] is called, the returned stream is handed exactly
    two messages, the [init] message carrying the snapshot of the task and
    then the final event, and is closed; the task gets no subscriber, so no
    progress event is ever written to that stream. *)
Theorem C6_late_subscriber_init_then_final
  (sys : System) (finalEvent : BatchTaskEvent) :
  _finalEvent (task sys) = Some finalEvent ->
  createTaskSSEStream sys
  = (mkSystem (task sys)
       (streams sys ++ [mkStream [Init (snapshot (task sys)); Event finalEvent] true]),
     List.length (streams sys)).
Proof. intros H. unfold createTaskSSEStream. now rewrite H. Qed.




End BatchTaskFacts.

(** C6 on the finished task of the late-subscriber scenario. *)
Lemma C6_witness :
  BatchTask.createTaskSSEStream Scenario.finished_task
  = (BatchTask.mkSystem (BatchTask.task Scenario.finished_task)
       [BatchTask.mkStream
          [BatchTask.Init
             (BatchTask.mkSnapshot "0f8fad5bd9cb469fa16570867728950e" BatchTask.Done
                2 2 2 0 None);
           BatchTask.Event
             (BatchTask.mkEvent BatchTask.EvDone "0f8fad5bd9cb469fa16570867728950e"
                2 2 2 0 None None None (Some None) (Some (JS.JObj [("n", JS.JNum 2)])))]
          true],
     0%nat).
Proof.
  exact (C6_late_subscriber_init_then_final Scenario.finished_task _ eq_refl).
Defined.



(** ** Request statistics *)

Section LogsFacts.
Import Logs.

Lemma how_many_cons (p : RequestLogRow -> bool) (r : RequestLogRow)
  (rows : list RequestLogRow) :
  how_many p (r :: rows) = (if p r then 1 else 0) + how_many p rows.
Proof.
  unfold how_many. cbn [List.filter]. destruct (p r); cbn [List.length]; lia.
Qed.

Lemma how_many_nil (p : RequestLogRow -> bool) : how_many p [] = 0.
Proof. reflexivity. Qed.

Lemma how_many_ext (p q : RequestLogRow -> bool) (rows : list RequestLogRow) :
  (forall r, p r = q r) -> how_many p rows = how_many q rows.
Proof.
  intros H. induction rows as [|r rows IH]; [reflexivity|].
  rewrite !how_many_cons, IH, H. reflexivity.
Qed.

(** [ORDER BY] changes no count. *)
Lemma how_many_insert (p : RequestLogRow -> bool) (r : RequestLogRow)
  (rows : list RequestLogRow) :
  how_many p (insert_by_timestamp r rows) = how_many p (r :: rows).
Proof.
  induction rows as [|x rows IH]; [reflexivity|].
  cbn [insert_by_timestamp]. destruct (timestamp r <? timestamp x); [reflexivity|].
  rewrite how_many_cons, IH, !how_many_cons. lia.
Qed.

Lemma how_many_order (p : RequestLogRow -> bool) (rows : list RequestLogRow) :
  how_many p (order_by_timestamp rows) = how_many p rows.
Proof.
  induction rows as [|r rows IH]; [reflexivity|].
  cbn [order_by_timestamp]. rewrite how_many_insert, !how_many_cons, IH. reflexivity.
Qed.

(** [WHERE] keeps the rows that pass its test. *)
Lemma how_many_filter (p q : RequestLogRow -> bool) (rows : list RequestLogRow) :
  how_many p (List.filter q rows) = how_many (fun r => q r && p r) rows.
Proof.
  induction rows as [|r rows IH]; [reflexivity|].
  cbn [List.filter]. rewrite how_many_cons. destruct (q r); cbn [andb].
  - now rewrite how_many_cons, IH.
  - now rewrite IH.
Qed.

Lemma how_many_select (p : RequestLogRow -> bool) (table : list RequestLogRow)
  (now : Z) :
  how_many p (select_since table (now - 14 * 24 * 60 * 60 * 1000))
  = how_many (fun r => scanned now r && p r) table.
Proof. unfold select_since. now rewrite how_many_order, how_many_filter. Qed.

Lemma recent_scanned (now : Z) (r : RequestLogRow) :
  recent now r = true -> scanned now r = true.
Proof. unfold recent, scanned. lia. Qed.

Lemma tally_select (p : RequestLogRow -> bool) (table : list RequestLogRow) (now : Z) :
  tally p (select_since table (now - 14 * 24 * 60 * 60 * 1000))
  = tally (fun r => scanned now r && p r) table.
Proof.
  unfold tally. rewrite !how_many_select. f_equal; apply how_many_ext; intros r;
    now rewrite andb_assoc.
Qed.

Lemma tally_ext (p q : RequestLogRow -> bool) (rows : list RequestLogRow) :
  (forall r, p r = q r) -> tally p rows = tally q rows.
Proof.
  intros H. unfold tally. f_equal; apply how_many_ext; intros r; now rewrite H.
Qed.

Lemma bucket_of_insert (m : gmap string Bucket) (k key : string) (b : Bucket) :
  bucket_of (<[k := b]> m) key = if String.eqb k key then b else bucket_of m key.
Proof.
  unfold bucket_of. destruct (String.eqb_spec k key) as [->|Hne].
  - now rewrite lookup_insert_eq.
  - now rewrite lookup_insert_ne.
Qed.

Lemma tally_cons (p : RequestLogRow -> bool) (r : RequestLogRow)
  (rows : list RequestLogRow) :
  tally p (r :: rows)
  = plus (if p r then count (isSuccessStatus (status r)) (mkBucket 0 0)
          else mkBucket 0 0)
         (tally p rows).
Proof.
  unfold tally, plus. rewrite !how_many_cons.
  destruct (p r), (isSuccessStatus (status r)); reflexivity.
Qed.

Lemma plus_zero (b : Bucket) : plus b (mkBucket 0 0) = b.
Proof. destruct b. unfold plus. cbn. f_equal; lia. Qed.

(** The single pass: each map holds, per key, the tally of the rows read so
    far, and the counters tally the rows of the last 24 hours. *)
Lemma scan_fold (since24h : Z) (rows : list RequestLogRow) :
  forall acc : Scan,
    let s := fold_left (scan_row since24h) rows acc in
    (forall key, bucket_of (dailyMap s) key
                 = plus (bucket_of (dailyMap acc) key) (tally (on_day key) rows))
    /\ (forall key, bucket_of (hourlyMap s) key
                    = plus (bucket_of (hourlyMap acc) key)
                        (tally (fun r => (timestamp r >=? since24h) && in_hour key r) rows))
    /\ mkBucket (n_success s) (n_failed s)
       = plus (mkBucket (n_success acc) (n_failed acc))
           (tally (fun r => timestamp r >=? since24h) rows).
Proof.
  induction rows as [|r rows IH]; intros acc s.
  - subst s. cbn [fold_left].
    repeat split; intros; change (tally _ []) with (mkBucket 0 0);
      now rewrite plus_zero.
  - subst s. cbn [fold_left].
    destruct (IH (scan_row since24h acc r)) as (Hd & Hh & Hn).
    split; [|split].
    + intros key. rewrite Hd, tally_cons. unfold scan_row.
      destruct (timestamp r >=? since24h); cbn [dailyMap];
        rewrite bucket_of_insert; unfold on_day;
        destruct (String.eqb_spec (toIsoDateKey (timestamp r)) key) as [->|];
        unfold plus, count; destruct (isSuccessStatus (status r)); cbn; f_equal; lia.
    + intros key. rewrite Hh, tally_cons. unfold scan_row.
      destruct (timestamp r >=? since24h); cbn [hourlyMap andb].
      * rewrite bucket_of_insert. unfold in_hour.
        destruct (String.eqb_spec (toIsoHourKey (timestamp r)) key) as [->|];
          unfold plus, count; destruct (isSuccessStatus (status r)); cbn; f_equal; lia.
      * unfold plus. cbn. f_equal; lia.
    + rewrite Hn, tally_cons. unfold scan_row.
      destruct (timestamp r >=? since24h); cbn [n_success n_failed];
        unfold plus, count; destruct (isSuccessStatus (status r)); cbn; f_equal; lia.
Qed.

Lemma plus_zero_l (b : Bucket) : plus (mkBucket 0 0) b = b.
Proof. destruct b. reflexivity. Qed.

Lemma tally_total (p : RequestLogRow -> bool) (rows : list RequestLogRow) :
  success (tally p rows) + failed (tally p rows) = how_many p rows.
Proof.
  induction rows as [|r rows IH]; [reflexivity|].
  rewrite tally_cons, how_many_cons. unfold plus, count. cbn [success failed].
  destruct (p r), (isSuccessStatus (status r)); cbn [success failed]; lia.
Qed.

Lemma tally_recent (now : Z) (table : list RequestLogRow) :
  tally (fun r => scanned now r && recent now r) table = tally (recent now) table.
Proof.
  apply tally_ext. intros r. destruct (recent now r) eqn:E.
  - now rewrite (recent_scanned _ _ E).
  - apply andb_false_r.
Qed.

(** The counters of the summary are the tally of the last 24 hours. *)
Lemma summary_recent (now : Z) (table : list RequestLogRow)
  (models_ : list (string * Z)) :
  summary (getRequestStats now table models_)
  = mkSummary (how_many (recent now) table)
      (success (tally (recent now) table)) (failed (tally (recent now) table))
      (rate (success (tally (recent now) table)) (how_many (recent now) table)).
Proof.
  unfold getRequestStats. cbn [summary].
  destruct (scan_fold (now - 24 * 60 * 60 * 1000)
              (select_since table (now - 14 * 24 * 60 * 60 * 1000))
              (mkScan ∅ ∅ 0 0)) as (_ & _ & Hn).
  cbn zeta in Hn. cbn [n_success n_failed] in Hn.
  rewrite plus_zero_l, tally_select in Hn.
  change (fun r => scanned now r && (timestamp r >=? now - 24 * 60 * 60 * 1000))
    with (fun r => scanned now r && recent now r) in Hn.
  rewrite tally_recent in Hn. unfold scan.
  pose proof (f_equal success Hn) as Hs. pose proof (f_equal failed Hn) as Hf.
  cbn [success failed] in Hs, Hf. rewrite Hs, Hf, tally_total. reflexivity.
Qed.

(** Every daily bucket is the tally of the scanned rows of its day. *)
Lemma daily_tally (now : Z) (table : list RequestLogRow) (models_ : list (string * Z)) :
  daily (getRequestStats now table models_)
  = List.map
      (fun i =>
         let key := toIsoDateKey
                      (now - 13 * 24 * 60 * 60 * 1000 + i * (24 * 60 * 60 * 1000)) in
         (key, tally (fun r => scanned now r && on_day key r) table))
      (List.map Z.of_nat (List.seq 0 14)).
Proof.
  unfold getRequestStats. cbn [daily].
  apply List.map_ext. intros i. cbn zeta. f_equal.
  destruct (scan_fold (now - 24 * 60 * 60 * 1000)
              (select_since table (now - 14 * 24 * 60 * 60 * 1000))
              (mkScan ∅ ∅ 0 0)) as (Hd & _ & _).
  cbn zeta in Hd. unfold scan. rewrite Hd. cbn [dailyMap].
  unfold bucket_of at 1. rewrite lookup_empty, plus_zero_l.
  apply tally_select.
Qed.

Lemma plus_count (isSuccess : bool) (b : Bucket) :
  plus (count isSuccess (mkBucket 0 0)) b = count isSuccess b.
Proof. destruct b, isSuccess; unfold plus, count; cbn; f_equal; lia. Qed.

(** C10.  In [getRequestStats] the summary counts only the rows of the
    last 24 hours: [total], [success], [failed] are the numbers of such
    rows (all, successful, failed) and [success_rate] is computed from them;
    every returned daily bucket is the tally of all the scanned rows (the
    last 14 days) of its day.  A row older than 24 hours within the scan
    window leaves the summary as it is; in the returned [daily] list it adds
    one (a success or a failure, by its status) to the bucket of its own UTC
    day and changes no other bucket, so that it changes nothing at all when
    its day is not one of the fourteen returned days. *)
Theorem C10_summary_counts_last_24_hours
  (now : Z) (table : list RequestLogRow) (models_ : list (string * Z)) :
  let stats := getRequestStats now table models_ in
  let last24 := tally (recent now) table in
  summary stats
  = mkSummary (how_many (recent now) table) (success last24) (failed last24)
      (rate (success last24) (how_many (recent now) table))
  /\ daily stats
     = List.map
         (fun i =>
            let key := toIsoDateKey
                         (now - 13 * 24 * 60 * 60 * 1000 + i * (24 * 60 * 60 * 1000)) in
            (key, tally (fun r => scanned now r && on_day key r) table))
         (List.map Z.of_nat (List.seq 0 14))
  /\ (forall old : RequestLogRow,
        scanned now old = true -> recent now old = false ->
        let stats' := getRequestStats now (old :: table) models_ in
        summary stats' = summary stats
        /\ daily stats'
           = List.map
               (fun slot =>
                  (fst slot,
                   if on_day (fst slot) old
                   then count (isSuccessStatus (status old)) (snd slot)
                   else snd slot))
               (daily stats)).
Proof.
  intros stats last24. split; [apply summary_recent|]. split; [apply daily_tally|].
  intros old Hscan Hold stats'. split.
  - subst stats stats'. rewrite !summary_recent.
    unfold tally. rewrite !how_many_cons. cbn [success failed].
    rewrite Hold. cbn [andb]. reflexivity.
  - subst stats stats'. rewrite !daily_tally.
    generalize (List.map Z.of_nat (List.seq 0 14)). intros keys.
    rewrite List.map_map. apply List.map_ext. intros i. cbn zeta. cbn [fst snd]. f_equal.
    rewrite tally_cons, Hscan. cbn [andb].
    destruct (on_day _ old); [apply plus_count|apply plus_zero_l].
Qed.

End LogsFacts.

(** ** The settings store *)

Section SettingsFacts.
Import JS Settings.

Variable JSON_parse : string -> option json.
Variable JSON_stringify : json -> string.

Lemma lookup_field_absent (k : string) (o : object) :
  k ∉ List.map fst o -> lookup_field k o = None.
Proof.
  induction o as [|[k' v'] o IH]; intros H; [reflexivity|].
  cbn [lookup_field]. cbn [List.map fst] in H.
  apply not_elem_of_cons in H as [Hne Hin]. rewrite (IH Hin).
  destruct (String.eqb_spec k k'); [contradiction|reflexivity].
Qed.

Lemma set_field_keys (k : string) (v : json) (o : object) :
  List.map fst (set_field k v o)
  = if bool_decide (k ∈ List.map fst o) then List.map fst o
    else (List.map fst o ++ [k])%list.
Proof.
  induction o as [|[k' v'] o IH]; [reflexivity|].
  cbn [set_field List.map fst].
  destruct (String.eqb_spec k k') as [->|Hne].
  - cbn [List.map fst]. rewrite bool_decide_eq_true_2; [reflexivity|left].
  - cbn [List.map fst]. rewrite IH.
    destruct (bool_decide (k ∈ List.map fst o)) eqn:E.
    + apply bool_decide_eq_true_1 in E.
      rewrite bool_decide_eq_true_2; [reflexivity|now right].
    + apply bool_decide_eq_false_1 in E.
      rewrite bool_decide_eq_false_2; [reflexivity|].
      intros H. apply elem_of_cons in H as [H|H]; contradiction.
Qed.

Lemma set_field_NoDup (k : string) (v : json) (o : object) :
  NoDup (List.map fst o) -> NoDup (List.map fst (set_field k v o)).
Proof.
  intros H. rewrite set_field_keys.
  destruct (bool_decide (k ∈ List.map fst o)) eqn:E; [exact H|].
  apply bool_decide_eq_false_1 in E.
  apply NoDup_app. split; [exact H|]. split.
  - intros x Hx Hk. apply list_elem_of_singleton in Hk. now subst.
  - apply NoDup_singleton.
Qed.

Lemma spread_NoDup (b a : object) :
  NoDup (List.map fst a) -> NoDup (List.map fst (spread a b)).
Proof.
  unfold spread. revert a. induction b as [|[k v] b IH]; intros a H; [exact H|].
  cbn [fold_left fst snd]. apply IH. now apply set_field_NoDup.
Qed.

Lemma lookup_set_field (k : string) (v : json) (o : object) :
  NoDup (List.map fst o) -> lookup_field k (set_field k v o) = Some v.
Proof.
  induction o as [|[k' v'] o IH]; intros H.
  - cbn. now rewrite String.eqb_refl.
  - cbn [List.map fst] in H. apply NoDup_cons in H as [Hk' Ho].
    cbn [set_field]. destruct (String.eqb_spec k k') as [->|Hne].
    + cbn [lookup_field]. rewrite (lookup_field_absent _ _ Hk').
      now rewrite String.eqb_refl.
    + cbn [lookup_field]. now rewrite (IH Ho).
Qed.

Lemma lookup_set_field_other (k k2 : string) (v : json) (o : object) :
  k <> k2 -> lookup_field k2 (set_field k v o) = lookup_field k2 o.
Proof.
  intros Hne. induction o as [|[k' v'] o IH].
  - cbn. destruct (String.eqb_spec k2 k); [congruence|reflexivity].
  - cbn [set_field]. destruct (String.eqb_spec k k') as [->|Hkk'].
    + cbn [lookup_field]. destruct (lookup_field k2 o); [reflexivity|].
      destruct (String.eqb_spec k2 k'); [congruence|reflexivity].
    + cbn [lookup_field]. now rewrite IH.
Qed.

Lemma DEFAULTS_grok_NoDup : NoDup (List.map fst (grok DEFAULTS)).
Proof. apply (bool_decide_unpack _). vm_compute. exact I. Qed.

(** The section read or written carries the stripped value under
    [cf_clearance]. *)
Lemma merged_cf (cf method : string) (base : object) :
  NoDup (List.map fst base) ->
  lookup_field "cf_clearance"
    (set_field "image_generation_method" (JStr method)
       (set_field "cf_clearance" (JStr cf) base))
  = Some (JStr cf).
Proof.
  intros H. rewrite lookup_set_field_other by discriminate.
  now apply lookup_set_field.
Qed.

Lemma strip_value_string (v : value) (cf : string) :
  strip_value v = inr cf -> cf = stripCfPrefix (string_or EmptyString v).
Proof.
  destruct v as [[| | |s| |]|]; cbn; intros H; congruence.
Qed.

Lemma getSettings_merged (db : DB) (bundle : SettingsBundle) :
  getSettings JSON_parse db = inr bundle ->
  let grokCfg := section_of JSON_parse db "grok" (grok DEFAULTS) in
  let base := spread (grok DEFAULTS) (own_fields grokCfg) in
  exists cf method,
    strip_value (get grokCfg "cf_clearance") = inr cf
    /\ grok bundle
       = set_field "image_generation_method" (JStr method)
           (set_field "cf_clearance" (JStr cf) base).
Proof.
  unfold getSettings. cbv zeta.
  destruct (section_of JSON_parse db "grok" (grok DEFAULTS)) eqn:Eg;
    try discriminate;
    (destruct (strip_value _) as [e|cf] eqn:Ecf; [discriminate|]);
    intros H; injection H as <-; cbn [grok];
    eexists; eexists; (split; [reflexivity|reflexivity]).
Qed.

Lemma getSettings_grok (db : DB) (bundle : SettingsBundle) :
  getSettings JSON_parse db = inr bundle ->
  NoDup (List.map fst (grok bundle))
  /\ lookup_field "cf_clearance" (grok bundle)
     = Some (JStr (stripCfPrefix
                     (string_or EmptyString
                        (get (section_of JSON_parse db "grok" (grok DEFAULTS))
                           "cf_clearance")))).
Proof.
  intros H. destruct (getSettings_merged _ _ H) as (cf & method & Hcf & ->).
  pose proof (spread_NoDup
                (own_fields (section_of JSON_parse db "grok" (grok DEFAULTS)))
                _ DEFAULTS_grok_NoDup) as Hnd.
  split.
  - now apply set_field_NoDup, set_field_NoDup.
  - rewrite merged_cf by exact Hnd. now rewrite (strip_value_string _ _ Hcf).
Qed.

Lemma nextGrok_cf (updates : Updates) (current : SettingsBundle) (g : object) :
  NoDup (List.map fst (grok current)) ->
  nextGrok updates current = inr g ->
  lookup_field "cf_clearance" g
  = Some (JStr (stripCfPrefix (string_or EmptyString (cf_input updates current)))).
Proof.
  intros Hnd. unfold nextGrok.
  destruct (strip_value (cf_input updates current)) as [e|cf] eqn:Ecf; [discriminate|].
  intros H. injection H as <-.
  rewrite merged_cf by now apply spread_NoDup.
  now rewrite (strip_value_string _ _ Ecf).
Qed.

(** What [saveSettings] persists under ["grok"]. *)
Lemma saveSettings_grok (db db' : DB) (updates : Updates) (now : Z) :
  saveSettings JSON_parse JSON_stringify db updates now = inr db' ->
  exists current g,
    getSettings JSON_parse db = inr current
    /\ db' !! "grok" = Some (JSON_stringify (JObj g), now)
    /\ lookup_field "cf_clearance" g
       = Some (JStr (stripCfPrefix
                       (string_or EmptyString (cf_input updates current)))).
Proof.
  unfold saveSettings.
  destruct (getSettings JSON_parse db) as [e|current] eqn:Eget; [discriminate|].
  destruct (nextGrok updates current) as [e|g] eqn:Enext; [discriminate|].
  intros H. injection H as <-. exists current, g.
  split; [reflexivity|]. split.
  - unfold upsert, DB in *. rewrite !lookup_insert_ne by discriminate.
    apply lookup_insert_eq.
  - apply nextGrok_cf; [|exact Enext]. exact (proj1 (getSettings_grok _ _ Eget)).
Qed.

Lemma substring_all (s : string) : String.substring 0 (String.length s) s = s.
Proof. induction s as [|c s IH]; [reflexivity|]. cbn. now rewrite IH. Qed.

Lemma prefix_empty (s : string) : String.prefix EmptyString s = true.
Proof. now destruct s. Qed.

Lemma prefix_split (p : string) :
  forall s : string,
    String.prefix p s = true ->
    s = p +:+ String.substring (String.length p) (String.length s - String.length p) s.
Proof.
  induction p as [|a p IH]; intros s H.
  - cbn. rewrite Nat.sub_0_r. symmetry. apply substring_all.
  - destruct s as [|b s]; [discriminate H|].
    cbn [String.prefix] in H. destruct (ascii_dec a b) as [->|]; [|discriminate H].
    change (String b s = String b (p +:+ String.substring (String.length p)
                                     (String.length s - String.length p) s)).
    f_equal. now apply IH.
Qed.

(** [stripCfPrefix] trims, then removes one leading ["cf_clearance="]. *)
Lemma stripCfPrefix_spec (v : string) :
  (startsWith (trim v) cf_prefix = true /\ trim v = cf_prefix +:+ stripCfPrefix v)
  \/ (startsWith (trim v) cf_prefix = false /\ stripCfPrefix v = trim v).
Proof.
  unfold stripCfPrefix. destruct (trim v) as [|c t] eqn:E.
  - right. split; reflexivity.
  - cbn [truthy negb]. destruct (startsWith (String c t) cf_prefix) eqn:Ep.
    + left. split; [reflexivity|]. now apply prefix_split.
    + right. split; reflexivity.
Qed.

(** [normalizeCfCookie] is where the prefix is put back. *)
Lemma normalizeCfCookie_spec (v : string) :
  normalizeCfCookie v
  = (if truthy (stripCfPrefix v) then cf_prefix +:+ stripCfPrefix v else EmptyString)
  /\ startsWith (normalizeCfCookie v) cf_prefix = truthy (stripCfPrefix v).
Proof.
  split; [reflexivity|]. unfold normalizeCfCookie.
  destruct (stripCfPrefix v) as [|c s]; [reflexivity|].
  reflexivity.
Qed.

(** C8 (as amended).  [grok.cf_clearance] is stored without the
    ["cf_clearance="] prefix: the value [saveSettings] persists is
    [stripCfPrefix] of the submitted (else the current) value, and
    [stripCfPrefix] trims its argument and removes one leading
    ["cf_clearance="].  The read path [getSettings] returns the value
    stripped in the same way, without the prefix; the prefix is put back by
    [normalizeCfCookie], whose result is ["cf_clearance=" + stripped] when
    the stripped value is not empty, and empty otherwise. *)
Theorem C8_cf_clearance_stored_and_read_stripped
  (db : DB) (updates : Updates) (now : Z) :
  (forall db' : DB,
     saveSettings JSON_parse JSON_stringify db updates now = inr db' ->
     exists current g,
       getSettings JSON_parse db = inr current
       /\ db' !! "grok" = Some (JSON_stringify (JObj g), now)
       /\ lookup_field "cf_clearance" g
          = Some (JStr (stripCfPrefix
                          (string_or EmptyString (cf_input updates current)))))
  /\ (forall bundle : SettingsBundle,
        getSettings JSON_parse db = inr bundle ->
        lookup_field "cf_clearance" (grok bundle)
        = Some (JStr (stripCfPrefix
                        (string_or EmptyString
                           (get (section_of JSON_parse db "grok" (grok DEFAULTS))
                              "cf_clearance")))))
  /\ (forall v : string,
        (startsWith (trim v) cf_prefix = true
         /\ trim v = cf_prefix +:+ stripCfPrefix v)
        \/ (startsWith (trim v) cf_prefix = false /\ stripCfPrefix v = trim v))
  /\ (forall v : string,
        normalizeCfCookie v
        = (if truthy (stripCfPrefix v) then cf_prefix +:+ stripCfPrefix v
           else EmptyString)
        /\ startsWith (normalizeCfCookie v) cf_prefix = truthy (stripCfPrefix v)).
Proof.
  split; [|split; [|split]].
  - intros db'. apply saveSettings_grok.
  - intros bundle H. exact (proj2 (getSettings_grok _ _ H)).
  - apply stripCfPrefix_spec.
  - apply normalizeCfCookie_spec.
Qed.

End SettingsFacts.

(** C8, as stated, fails on the read path: for a stored section whose
    [cf_clearance] is ["cf_clearance=abc"], [getSettings] returns ["abc"],
    which does not carry the prefix; only [normalizeCfCookie] gives
    ["cf_clearance=abc"]. *)
Lemma C8_counterexample :
  option_map (fun bundle => JS.lookup_field "cf_clearance" (Settings.grok bundle))
    (match Settings.getSettings Scenario.stored_parse Scenario.stored_db with
     | inr bundle => Some bundle
     | inl _ => None
     end)
  = Some (Some (JS.JStr "abc"))
  /\ JS.startsWith "abc" Settings.cf_prefix = false
  /\ Settings.normalizeCfCookie "abc" = "cf_clearance=abc".
Proof. vm_compute. repeat split. Qed.

(** Saving ["cf_clearance=abc"] into an empty store persists ["abc"]. *)
Example saveSettings_strips :
  match Settings.saveSettings Scenario.stored_parse (fun _ => "json") ∅
          (Settings.mkUpdates None
             (Some [("cf_clearance", JS.JStr " cf_clearance=abc ")])
             None None None None) 1 with
  | inr db' => db' !! "grok" = Some ("json", 1)
  | inl _ => False
  end
  /\ Settings.stripCfPrefix " cf_clearance=abc " = "abc".
Proof. vm_compute. repeat split. Qed.

(** ** The transcoder *)

Section TranscoderFacts.
Import JS Transcoder.

Variable JSON_parse : string -> option json.
Variable URL_parse : string -> option URL.
Variable btoa : string -> string.
Variable opts : Opts.
Variable world : World.

Lemma onFinish_calls_app (l : list action) (a : action) :
  onFinish_calls (l ++ [a]) = (onFinish_calls l + (if is_onFinish a then 1 else 0))%nat.
Proof.
  unfold onFinish_calls. rewrite List.filter_app, List.length_app.
  cbn [List.filter]. destruct (is_onFinish a); reflexivity.
Qed.

(** [finish] calls the callback when there is one, and keeps the status
    and what was received. *)
Lemma finish_calls (status : Z) (st : state) :
  onFinish_calls (out (finish opts world status st))
  = (onFinish_calls (out st) + once opts)%nat.
Proof.
  unfold finish, once. destruct (onFinish opts); [|lia].
  cbn [Date_now out emit tick]. now rewrite onFinish_calls_app.
Qed.

Ltac calls :=
  repeat
    (progress
       (cbn [out emit tick enqueue chunk flushStop close set_finalStatus set_received
             set_currentModel set_isImage set_isVideo set_isThinking
             set_thinkingFinished set_videoProgressStarted set_lastVideoProgress
             set_buffer set_tagFilter finalStatus firstReceived isVideo is_onFinish];
        rewrite ?onFinish_calls_app, ?finish_calls)).

(** Within a frame: a state that differs from a good one in neither the
    status, nor the calls, nor [firstReceived], is good. *)
Lemma in_frame_like (st st' : state) :
  in_frame st ->
  finalStatus st' = finalStatus st ->
  onFinish_calls (out st') = onFinish_calls (out st) ->
  firstReceived st' = firstReceived st ->
  in_frame st'.
Proof. unfold in_frame. intros (H1 & H2 & H3) -> -> ->. auto. Qed.

Ltac like st :=
  apply (in_frame_like st); [assumption|..]; calls; try reflexivity; try lia.

Lemma handle_video_sane (st : state) (videoResp : json) :
  in_frame st -> sane_in_frame opts (handle_video URL_parse btoa opts world st videoResp).
Proof.
  intros H. unfold handle_video. cbn [sane_in_frame].
  repeat match goal with
         | |- context [if ?b then _ else _] => destruct b
         end; like st.
Qed.

Lemma handle_image_sane (st : state) (grok : json) (rawToken : value) :
  in_frame st ->
  sane_in_frame opts (handle_image URL_parse btoa opts world st grok rawToken).
Proof.
  intros H. unfold handle_image.
  destruct (truthy_value (get grok "modelResponse")).
  - destruct (normalizeGeneratedAssetUrls _ _) as [|u urls]; cbn [sane_in_frame].
    + exact H.
    + calls. destruct H as (_ & -> & _). lia.
  - destruct rawToken as [[| | |raw| |]|]; cbn [sane_in_frame]; try exact H.
    destruct (truthy raw); cbn [sane_in_frame]; [like st|exact H].
Qed.

Lemma emit_text_sane (st : state) (grok : json) (thinking : bool) (token : string) :
  in_frame st -> sane_in_frame opts (emit_text opts world st grok thinking token).
Proof.
  intros H. unfold emit_text.
  generalize (match get grok "messageTag" with
              | Some (JStr "header") => nl +:+ nl +:+ token +:+ nl +:+ nl
              | _ => token
              end) as content.
  intros content.
  destruct (isThinking st), thinking, (showThinking opts); cbn [negb andb sane_in_frame];
    like st.
Qed.

Lemma handle_text_sane (st : state) (grok : json) (rawToken : value) :
  in_frame st -> sane_in_frame opts (handle_text opts world st grok rawToken).
Proof.
  intros H. unfold handle_text.
  destruct rawToken as [[| | |raw| |]|]; cbn [sane_in_frame]; try exact H.
  destruct (truthy raw); cbn [negb sane_in_frame]; [|exact H].
  destruct (TagFilter.filter (tagFilter st) raw) as [tf token].
  assert (in_frame (set_tagFilter tf st)) as H' by like st.
  destruct (truthy token); cbn [negb sane_in_frame]; [|exact H'].
  destruct (thinkingFinished (set_tagFilter tf st) && _); cbn [sane_in_frame];
    [exact H'|].
  destruct (opt_get (get grok "webSearchResults") "results") as [[| | | |items|]|];
    try now apply emit_text_sane.
  destruct (truthy_value (get grok "toolUsageCardId")); [|now apply emit_text_sane].
  destruct (truthy_value (get grok "isThinking")); cbn [sane_in_frame]; [|exact H'].
  destruct (showThinking opts); cbn [sane_in_frame]; [|exact H'].
  destruct (search_lines items EmptyString); cbn [sane_in_frame];
    [exact H'|now apply emit_text_sane].
Qed.

Lemma handle_response_sane (st : state) (grok : json) :
  in_frame st -> sane_in_frame opts (handle_response URL_parse btoa opts world st grok).
Proof.
  intros H. unfold handle_response.
  match goal with
  | |- context [handle_video _ _ _ _ ?s _] =>
      assert (in_frame s) as H1
  end.
  { destruct (opt_get (get grok "userResponse") "model") as [[| | |m| |]|];
      try exact H.
    destruct (truthy (trim m)); [like st|exact H]. }
  destruct (as_truthy (get grok "streamingVideoGenerationResponse"));
    [now apply handle_video_sane|].
  match goal with
  | |- context [handle_image _ _ _ _ ?s _ _] =>
      assert (in_frame s) as H2
  end.
  { destruct (truthy_value (get grok "imageAttachmentInfo")); [|exact H1].
    match goal with H1 : in_frame ?s |- _ => like s end. }
  match goal with
  | |- context [if ?b then _ else _] => destruct b
  end; [now apply handle_image_sane|now apply handle_text_sane].
Qed.

Lemma in_frame_at_head (o : outcome) : sane_in_frame opts o -> sane opts o.
Proof.
  destruct o as [st|st|st e]; cbn; unfold in_frame, at_head; intuition.
Qed.

Lemma handle_frame_sane (st : state) (data : json) :
  at_head st -> sane opts (handle_frame URL_parse btoa opts world st data).
Proof.
  intros (H1 & H2 & _). unfold handle_frame. cbn [Date_now].
  set (st1 := set_received (clock world (ticks st)) (tick st)).
  assert (in_frame st1) as Hin by (split; [|split]; [exact H1|exact H2|reflexivity]).
  destruct data; try (apply in_frame_at_head; exact Hin);
    (destruct (as_truthy (opt_get _ "message"));
     [cbn [sane]; calls; subst st1; cbn [out tick set_received]; now rewrite H2|];
     destruct (as_truthy (opt_get _ "response"));
     [apply in_frame_at_head; now apply handle_response_sane
     |apply in_frame_at_head; exact Hin]).
Qed.

Lemma handle_line_sane (st : state) (line : string) :
  at_head st ->
  sane opts (handle_line JSON_parse URL_parse btoa opts world st line).
Proof.
  intros H. unfold handle_line.
  destruct (truthy (trim line)); cbn [negb]; [|exact H].
  destruct (JSON_parse (trim line)); [now apply handle_frame_sane|exact H].
Qed.

Lemma lines_loop_sane (text : string) :
  forall (st : state) (line : string),
    at_head st ->
    sane opts (lines_loop JSON_parse URL_parse btoa opts world st line text).
Proof.
  induction text as [|c text IH]; intros st line H; cbn [lines_loop].
  - exact H.
  - destruct (Ascii.eqb c (ascii_of_nat 10)); [|now apply IH].
    pose proof (handle_line_sane st line H) as Hl.
    destruct (handle_line _ _ _ _ _ st line) as [st'|st'|st' e]; [|exact Hl|exact Hl].
    now apply IH.
Qed.

Lemma stop_and_return_sane (st : state) :
  at_head st -> sane opts (stop_and_return opts world st).
Proof.
  intros (_ & H & _). unfold stop_and_return. cbn [sane]. calls. rewrite H. lia.
Qed.

Lemma dispatch_sane (st : state) (res : option read_result) :
  at_head st -> pass_sane opts (dispatch JSON_parse URL_parse btoa opts world st res).
Proof.
  intros H. unfold dispatch.
  destruct res as [[| |[text|]|e]|]; cbn [pass_sane sane];
    try exact H; try now apply stop_and_return_sane.
  pose proof (lines_loop_sane (buffer st +:+ text) st EmptyString H) as Hl.
  destruct (lines_loop _ _ _ _ _ st EmptyString _); exact Hl.
Qed.

Lemma iteration_sane (st : state) (res : option read_result) :
  at_head st -> pass_sane opts (iteration JSON_parse URL_parse btoa opts world st res).
Proof.
  intros H. unfold iteration. cbn [Date_now].
  assert (at_head (tick st)) as Ht by exact H.
  repeat match goal with
         | |- context [if ?b then _ else _] => destruct b
         end;
    try (now apply dispatch_sane);
    try (cbn [pass_sane]; now apply stop_and_return_sane);
    exact Ht.
Qed.

Lemma loop_sane (reads : list read_result) :
  forall st : state,
    at_head st -> sane opts (loop JSON_parse URL_parse btoa opts world st reads).
Proof.
  induction reads as [|res reads IH]; intros st H; cbn [loop].
  - pose proof (iteration_sane st None H) as Hi.
    destruct (iteration _ _ _ _ _ st None); [now apply stop_and_return_sane|exact Hi].
  - pose proof (iteration_sane st (Some res) H) as Hi.
    destruct (iteration _ _ _ _ _ st (Some res)); [now apply IH|exact Hi].
Qed.

Lemma head_state_sane (reads : list read_result) :
  forall st st' : state,
    at_head st ->
    head_state JSON_parse URL_parse btoa opts world st reads = Some st' ->
    at_head st'.
Proof.
  induction reads as [|res reads IH]; intros st st' H; cbn [head_state].
  - intros E. injection E as <-. exact H.
  - pose proof (iteration_sane st (Some res) H) as Hi.
    destruct (iteration _ _ _ _ _ st (Some res)); [|discriminate].
    now apply IH.
Qed.

Lemma initial_at_head : at_head (initial opts world).
Proof. split; [reflexivity|]. split; [reflexivity|discriminate]. Qed.

Lemma catch_calls (st : state) (e : exn) :
  onFinish_calls (out (catch opts world st e))
  = (onFinish_calls (out st) + once opts)%nat.
Proof.
  unfold catch. destruct e; try destruct (Errors.isHttp2StreamError _); calls; lia.
Qed.

(** A [try] statement whose block is sane calls the callback once. *)
Lemma settle_calls (o : outcome) :
  sane opts o -> onFinish_calls (out (settle opts world o)) = once opts.
Proof.
  unfold settle. destruct o as [st|st|st e]; cbn [sane].
  - intros (_ & H & _). calls. rewrite H. lia.
  - intros H. calls. rewrite H. lia.
  - intros (_ & H & _). calls. rewrite catch_calls, H. lia.
Qed.

(** Every run over a body calls the callback exactly once when there is
    one. *)
Lemma body_calls_onFinish_once (reads : list read_result) :
  onFinish_calls
    (createOpenAiStreamFromGrokNdjson JSON_parse URL_parse btoa opts world (Some reads))
  = once opts.
Proof.
  cbn [createOpenAiStreamFromGrokNdjson]. unfold run.
  apply settle_calls, loop_sane, initial_at_head.
Qed.

Lemma loop_app (reads more : list read_result) :
  forall st st' : state,
    head_state JSON_parse URL_parse btoa opts world st reads = Some st' ->
    loop JSON_parse URL_parse btoa opts world st (reads ++ more)
    = loop JSON_parse URL_parse btoa opts world st' more.
Proof.
  induction reads as [|res reads IH]; intros st st'; cbn [head_state].
  - intros E. injection E as <-. reflexivity.
  - cbn [app loop]. destruct (iteration _ _ _ _ _ st (Some res)); [|discriminate].
    apply IH.
Qed.

(** At the head of the loop of a video stream whose idle time-out is in
    force and exceeded, whatever the reader would yield, the pass ends the
    block: by the total time-out when that fires first, else by the idle
    time-out error. *)
Lemma iteration_video_idle (st : state) (res : option read_result) :
  firstReceived st = true -> isVideo st = true ->
  0 < videoIdleTimeoutMs opts ->
  clock world (ticks st) - lastChunkTime st > videoIdleTimeoutMs opts ->
  iteration JSON_parse URL_parse btoa opts world st res
  = if (totalTimeoutMs opts >? 0)
       && (clock world (ticks st) - startTime st >? totalTimeoutMs opts)
    then inr (stop_and_return opts world (tick st))
    else inr (Throw (tick st)
                (StreamIdleTimeoutError (clock world (ticks st) - lastChunkTime st))).
Proof.
  intros Hf Hv Hpos Hidle. unfold iteration. cbn [Date_now].
  cbn [tick firstReceived startTime lastChunkTime isVideo]. rewrite Hf, Hv.
  cbn [negb andb].
  destruct ((totalTimeoutMs opts >? 0) && _); [reflexivity|].
  replace (videoIdleTimeoutMs opts >? 0) with true by lia.
  replace (clock world (ticks st) - lastChunkTime st >? videoIdleTimeoutMs opts)
    with true by lia.
  reflexivity.
Qed.

Lemma loop_video_idle (st : state) (more : list read_result) :
  firstReceived st = true -> isVideo st = true ->
  0 < videoIdleTimeoutMs opts ->
  clock world (ticks st) - lastChunkTime st > videoIdleTimeoutMs opts ->
  loop JSON_parse URL_parse btoa opts world st more
  = if (totalTimeoutMs opts >? 0)
       && (clock world (ticks st) - startTime st >? totalTimeoutMs opts)
    then stop_and_return opts world (tick st)
    else Throw (tick st)
           (StreamIdleTimeoutError (clock world (ticks st) - lastChunkTime st)).
Proof.
  intros Hf Hv Hpos Hidle.
  destruct more as [|res more]; cbn [loop];
    rewrite iteration_video_idle by assumption;
    destruct ((totalTimeoutMs opts >? 0) && _); reflexivity.
Qed.

(** C4 (as amended).  When a stream is in video mode, the video idle
    time-out is in force (its value is positive: zero switches the idle
    check off) and, at a deadline check of the loop, the time since the last
    received frame exceeds it, the transcoder ends the stream cleanly,
    whatever the ordinary idle time-out and whatever the reader would still
    yield: after what was already written it writes the empty chunk with
    [finish_reason] ["stop"] and the [DONE] sentinel, no error chunk, reports
    the status 200 to [onFinish] (no state at the head of the loop has
    another status) and closes. *)
Theorem C4_video_idle_timeout_ends_cleanly
  (reads more : list read_result) (st : state) :
  head_state JSON_parse URL_parse btoa opts world (initial opts world) reads = Some st ->
  isVideo st = true ->
  0 < videoIdleTimeoutMs opts ->
  clock world (ticks st) - lastChunkTime st > videoIdleTimeoutMs opts ->
  let now := clock world (ticks st) in
  createOpenAiStreamFromGrokNdjson JSON_parse URL_parse btoa opts world
    (Some (reads ++ more)%list)
  = (out st
     ++ (if (totalTimeoutMs opts >? 0) && (now - startTime st >? totalTimeoutMs opts)
         then []
         else [Warn (WarnIdle true (now - lastChunkTime st))])
     ++ [Enqueue (makeChunk (id world) (created world) (currentModel st) EmptyString
                    (Some "stop"));
         Enqueue makeDone]
     ++ (if onFinish opts
         then [OnFinish 200 (clock world (S (ticks st)) - startTime st)]
         else [])
     ++ [Close; ReleaseLock])%list.
Proof.
  intros Hhead Hv Hpos Hidle now.
  destruct (head_state_sane _ _ _ initial_at_head Hhead) as (Hstatus & _ & Hrecv).
  specialize (Hrecv Hv).
  cbn [createOpenAiStreamFromGrokNdjson]. unfold run.
  rewrite (loop_app _ _ _ _ Hhead), loop_video_idle by assumption.
  subst now.
  destruct ((totalTimeoutMs opts >? 0) && _).
  - unfold stop_and_return, settle, flushStop, finish, chunk, enqueue, close.
    cbn [Date_now]. destruct (onFinish opts);
      cbn [out emit tick finalStatus currentModel ticks startTime];
      rewrite ?Hstatus, <- ?app_assoc; reflexivity.
  - unfold settle, catch, flushStop, finish, chunk, enqueue, close.
    cbn [Date_now]. destruct (onFinish opts);
      cbn [out emit tick finalStatus currentModel ticks startTime isVideo];
      rewrite ?Hstatus, ?Hv, <- ?app_assoc; reflexivity.
Qed.



(** *** A text stream on which no deadline fires *)

Lemma iteration_patient (st : state) (res : option read_result) :
  patient opts world ->
  startTime st = clock world 0 ->
  (exists k, lastChunkTime st = clock world k) ->
  isVideo st = false ->
  iteration JSON_parse URL_parse btoa opts world st res
  = dispatch JSON_parse URL_parse btoa opts world (tick st) res.
Proof.
  intros Hp Hs [k Hk] Hv. unfold iteration. cbn [Date_now].
  cbn [tick firstReceived startTime lastChunkTime isVideo]. rewrite Hs, Hk, Hv.
  destruct (Hp (ticks st) 0%nat) as (H1 & H2 & H3 & _).
  destruct (Hp (ticks st) k) as (_ & H5 & _ & H6).
  destruct (Hp 0%nat 0%nat) as (H7 & H8 & _). cbn zeta in *.
  assert ((negb (firstReceived st)
           && (clock world (ticks st) - clock world 0 >? firstTimeoutMs opts)) = false)
    as -> by (apply andb_false_iff; right; lia).
  assert (((totalTimeoutMs opts >? 0)
           && (clock world (ticks st) - clock world 0 >? totalTimeoutMs opts)) = false)
    as -> by (apply andb_false_iff; destruct H3; [left|right]; lia).
  assert ((firstReceived st && (idleTimeoutMs opts >? 0)
           && (clock world (ticks st) - clock world k >? idleTimeoutMs opts)) = false)
    as -> by (rewrite <- andb_assoc; apply andb_false_iff; right;
              apply andb_false_iff; destruct H6; [left|right]; lia).
  assert ((firstReceived st
           && (clock world (ticks st) - clock world k >? chunkTimeoutMs opts)) = false)
    as -> by (apply andb_false_iff; right; lia).
  match goal with
  | |- context [perReadTimeout opts ?s ?e <=? 0] =>
      assert ((perReadTimeout opts s e <=? 0) = false) as ->;
      [|reflexivity]
  end.
  unfold perReadTimeout. cbn [firstReceived tick].
  destruct (firstReceived st), (totalTimeoutMs opts >? 0) eqn:E; cbv beta iota; lia.
Qed.

(** A line that ends a chunk is handled when its line feed is read. *)
Lemma lines_loop_line (line rest : string) :
  includes line nl = false ->
  forall (st : state) (acc : string),
    lines_loop JSON_parse URL_parse btoa opts world st acc (line +:+ nl +:+ rest)
    = match handle_line JSON_parse URL_parse btoa opts world st (acc +:+ line) with
      | Next st' => lines_loop JSON_parse URL_parse btoa opts world st' EmptyString rest
      | o => o
      end.
Proof.
  induction line as [|c line IH]; intros H st acc.
  - rewrite append_nil_r. reflexivity.
  - unfold includes in H. fold includes in H. apply orb_false_iff in H as [Hc Hl].
    change (String c line +:+ nl +:+ rest) with (String c (line +:+ nl +:+ rest)).
    cbn [lines_loop].
    replace (Ascii.eqb c (ascii_of_nat 10)) with false.
    + rewrite (IH Hl). now rewrite append_assoc.
    + symmetry. apply Ascii.eqb_neq. intros ->. destruct line; discriminate Hc.
Qed.

Lemma handle_line_carries (st : state) (line : string) (data : json) :
  carries JSON_parse line data ->
  handle_line JSON_parse URL_parse btoa opts world st line
  = handle_frame URL_parse btoa opts world st data.
Proof. intros (_ & Ht & Hp). unfold handle_line. now rewrite Ht, Hp. Qed.

(** A chunk that is one whole line. *)
Lemma dispatch_line (st : state) (line : string) (data : json) :
  carries JSON_parse line data ->
  buffer st = EmptyString ->
  dispatch JSON_parse URL_parse btoa opts world st (Some (ReadValue (Some (line +:+ nl))))
  = match handle_frame URL_parse btoa opts world st data with
    | Next st' => inl (set_buffer EmptyString st')
    | o => inr o
    end.
Proof.
  intros Hc Hb. cbn [dispatch]. rewrite Hb.
  change (EmptyString +:+ (line +:+ nl)) with (line +:+ nl).
  rewrite <- (append_nil_r (line +:+ nl)), append_assoc.
  rewrite lines_loop_line by apply Hc.
  change (EmptyString +:+ line) with line. rewrite (handle_line_carries _ _ _ Hc).
  destruct (handle_frame _ _ _ _ st data); reflexivity.
Qed.

Lemma filter_plain (f : TagFilter.t) (c : ascii) :
  TagFilter.pendingPrefix f = EmptyString ->
  TagFilter.inFilterTag f = false ->
  Ascii.eqb c "<" = false ->
  TagFilter.filter f (String c EmptyString) = (f, String c EmptyString).
Proof.
  intros Hp Hi Hc. unfold TagFilter.filter.
  destruct (TagFilter.tags f); [reflexivity|].
  cbn [TagFilter.filter_loop]. unfold TagFilter.step. rewrite Hp, Hi, Hc. reflexivity.
Qed.

(** A text frame of one plain character, outside image mode, reaches the
    end of the text branch with the filter untouched. *)
Lemma handle_frame_text (st : state) (thinking : bool) (c : ascii) :
  let token := String c EmptyString in
  let st1 := set_received (clock world (ticks st)) (tick st) in
  isImage st = false ->
  TagFilter.pendingPrefix (tagFilter st) = EmptyString ->
  TagFilter.inFilterTag (tagFilter st) = false ->
  Ascii.eqb c "<" = false ->
  thinkingFinished st && thinking = false ->
  handle_frame URL_parse btoa opts world st (text_frame thinking token)
  = emit_text opts world (set_tagFilter (tagFilter st) st1)
      (text_response thinking token) thinking token.
Proof.
  intros token st1 Hi Hp Hn Hc Hf. subst token st1.
  unfold handle_frame. cbn [Date_now].
  unfold text_frame. cbn [get lookup_field opt_get as_truthy truthy_value String.eqb
                          Ascii.eqb Bool.eqb].
  unfold handle_response, text_response.
  cbn [get lookup_field opt_get as_truthy truthy_value String.eqb
       Ascii.eqb Bool.eqb].
  cbn [isImage set_received tick]. rewrite Hi.
  unfold handle_text. cbn [truthy negb tagFilter set_received tick].
  rewrite (filter_plain _ _ Hp Hn Hc). cbn [truthy negb].
  cbn [thinkingFinished set_tagFilter set_received tick].
  cbn [get lookup_field opt_get as_truthy truthy_value String.eqb
       Ascii.eqb Bool.eqb].
  destruct thinking; rewrite Hf; reflexivity.
Qed.

(** The end of the text branch for a frame without a [messageTag]. *)
Lemma emit_text_plain (st : state) (thinking : bool) (token : string) :
  emit_text opts world st (text_response thinking token) thinking token
  = Next (set_isThinking thinking
            (if negb (isThinking st) && thinking then
               if showThinking opts then chunk world ("<think>" +:+ nl +:+ token) None st
               else st
             else if isThinking st && negb thinking then
               chunk world
                 (if showThinking opts then nl +:+ "</think>" +:+ nl +:+ token
                  else token)
                 None (set_thinkingFinished true st)
             else if thinking && negb (showThinking opts) then st
             else chunk world token None st)).
Proof.
  unfold emit_text, text_response.
  cbn [get lookup_field String.eqb Ascii.eqb Bool.eqb].
  destruct (isThinking st), thinking, (showThinking opts); reflexivity.
Qed.

(** A pass of the loop that reads one text frame of one plain character. *)
Lemma iteration_text (st : state) (line : string) (thinking : bool) (c : ascii) :
  let token := String c EmptyString in
  let st1 := set_tagFilter (tagFilter st)
               (set_received (clock world (S (ticks st))) (tick (tick st))) in
  patient opts world ->
  carries JSON_parse line (text_frame thinking token) ->
  startTime st = clock world 0 ->
  (exists k, lastChunkTime st = clock world k) ->
  isVideo st = false -> isImage st = false -> buffer st = EmptyString ->
  TagFilter.pendingPrefix (tagFilter st) = EmptyString ->
  TagFilter.inFilterTag (tagFilter st) = false ->
  Ascii.eqb c "<" = false ->
  thinkingFinished st && thinking = false ->
  iteration JSON_parse URL_parse btoa opts world st
    (Some (ReadValue (Some (line +:+ nl))))
  = match emit_text opts world st1 (text_response thinking token) thinking token with
    | Next st' => inl (set_buffer EmptyString st')
    | o => inr o
    end.
Proof.
  intros token st1 Hp Hc Hs Hk Hv Hi Hb Hpp Hin Hlt Hf. subst token st1.
  rewrite iteration_patient by assumption.
  rewrite (dispatch_line _ _ _ Hc) by exact Hb.
  rewrite handle_frame_text by assumption.
  reflexivity.
Qed.

(** A line of a chunk that holds one text frame of one plain character. *)
Lemma lines_loop_text (st : state) (line rest : string) (thinking : bool) (c : ascii) :
  let token := String c EmptyString in
  let st1 := set_tagFilter (tagFilter st)
               (set_received (clock world (ticks st)) (tick st)) in
  carries JSON_parse line (text_frame thinking token) ->
  isImage st = false ->
  TagFilter.pendingPrefix (tagFilter st) = EmptyString ->
  TagFilter.inFilterTag (tagFilter st) = false ->
  Ascii.eqb c "<" = false ->
  thinkingFinished st && thinking = false ->
  lines_loop JSON_parse URL_parse btoa opts world st EmptyString (line +:+ nl +:+ rest)
  = match emit_text opts world st1 (text_response thinking token) thinking token with
    | Next st' => lines_loop JSON_parse URL_parse btoa opts world st' EmptyString rest
    | o => o
    end.
Proof.
  intros token st1 Hc Hi Hpp Hin Hlt Hf. subst token st1.
  rewrite lines_loop_line by apply Hc.
  change (EmptyString +:+ line) with line. rewrite (handle_line_carries _ _ _ Hc).
  rewrite handle_frame_text by assumption. reflexivity.
Qed.

Ltac text_pass line thinking c :=
  rewrite (iteration_text _ line thinking c)
    by (try assumption; try reflexivity; try (eexists; reflexivity));
  rewrite emit_text_plain;
  cbn [loop set_isThinking set_buffer set_tagFilter set_received set_thinkingFinished
       tick chunk enqueue emit isThinking negb andb initial tagFilter ticks
       TagFilter.new].

Ltac text_line line rest thinking c :=
  rewrite (lines_loop_text _ line rest thinking c)
    by (try assumption; try reflexivity);
  rewrite emit_text_plain;
  cbn [set_isThinking set_buffer set_tagFilter set_received set_thinkingFinished
       tick chunk enqueue emit isThinking negb andb initial tagFilter ticks
       TagFilter.new].

Ltac end_of_upstream :=
  rewrite iteration_patient
    by (try assumption; try reflexivity; try (eexists; reflexivity));
  cbn [dispatch]; unfold settle, finish;
  destruct (onFinish opts); reflexivity.

(** C2.  On a stream on which no deadline fires, for the frames
    [{isThinking: true, token: "A"}], [{isThinking: true, token: "B"}],
    [{isThinking: false, token: "C"}] (each under [result.response])
    followed by the end of the upstream, the delta contents of the chunks
    written concatenate to ["<think>\nAB\n</think>\nC"] when [show_thinking]
    is not [false], and to ["C"] when it is [false]; this whether the three
    lines come one per chunk or all in one chunk. *)
Theorem C2_thinking_then_answer (lineA lineB lineC : string) :
  patient opts world ->
  carries JSON_parse lineA (text_frame true "A") ->
  carries JSON_parse lineB (text_frame true "B") ->
  carries JSON_parse lineC (text_frame false "C") ->
  let expected :=
    if showThinking opts
    then "<think>" +:+ nl +:+ "AB" +:+ nl +:+ "</think>" +:+ nl +:+ "C"
    else "C" in
  deltas
    (createOpenAiStreamFromGrokNdjson JSON_parse URL_parse btoa opts world
       (Some [ReadValue (Some (lineA +:+ nl));
              ReadValue (Some (lineB +:+ nl));
              ReadValue (Some (lineC +:+ nl));
              ReadDone]))
  = expected
  /\ deltas
       (createOpenAiStreamFromGrokNdjson JSON_parse URL_parse btoa opts world
          (Some [ReadValue (Some (lineA +:+ nl +:+ lineB +:+ nl +:+ lineC +:+ nl));
                 ReadDone]))
     = expected.
Proof.
  intros Hp HA HB HC expected. subst expected.
  cbn [createOpenAiStreamFromGrokNdjson]. unfold run. cbn [loop].
  split.
  - destruct (showThinking opts) eqn:Hshow.
    + text_pass lineA true "A"%char. rewrite Hshow.
      text_pass lineB true "B"%char. rewrite Hshow.
      text_pass lineC false "C"%char. rewrite Hshow.
      end_of_upstream.
    + text_pass lineA true "A"%char. rewrite Hshow.
      text_pass lineB true "B"%char. rewrite Hshow.
      text_pass lineC false "C"%char. rewrite Hshow.
      end_of_upstream.
  - rewrite iteration_patient
      by (try assumption; try reflexivity; try (eexists; reflexivity)).
    cbn [dispatch buffer tick initial].
    change (EmptyString +:+ (lineA +:+ nl +:+ lineB +:+ nl +:+ lineC +:+ nl))
      with (lineA +:+ nl +:+ (lineB +:+ nl +:+ (lineC +:+ nl +:+ EmptyString))).
    destruct (showThinking opts) eqn:Hshow.
    + text_line lineA (lineB +:+ nl +:+ (lineC +:+ nl +:+ EmptyString)) true "A"%char.
      rewrite Hshow.
      text_line lineB (lineC +:+ nl +:+ EmptyString) true "B"%char. rewrite Hshow.
      text_line lineC EmptyString false "C"%char. rewrite Hshow.
      cbn [lines_loop loop]. end_of_upstream.
    + text_line lineA (lineB +:+ nl +:+ (lineC +:+ nl +:+ EmptyString)) true "A"%char.
      rewrite Hshow.
      text_line lineB (lineC +:+ nl +:+ EmptyString) true "B"%char. rewrite Hshow.
      text_line lineC EmptyString false "C"%char. rewrite Hshow.
      cbn [lines_loop loop]. end_of_upstream.
Qed.

End TranscoderFacts.

(** C1.  With an [onFinish] callback supplied, a response without a body
    ends the stream (error chunk, [DONE], close) without invoking the
    callback, although every run over a body invokes it exactly once, however
    the run ends: the claim fails on the missing body alone. *)
Theorem C1_onFinish_skipped_without_body
  (JSON_parse : string -> option JS.json)
  (URL_parse : string -> option Transcoder.URL) (btoa : string -> string)
  (cookie : string) (settings : Transcoder.GrokSettings)
  (global : Transcoder.GlobalSettings) (origin : string) (world : Transcoder.World) :
  let opts := Transcoder.Build_Opts cookie settings global origin true in
  let stream := Transcoder.createOpenAiStreamFromGrokNdjson JSON_parse URL_parse btoa
                  opts world in
  stream None
  = [Transcoder.Enqueue
       (Transcoder.makeChunk (Transcoder.id world) (Transcoder.created world)
          Transcoder.defaultModel "Empty response" (Some "error"));
     Transcoder.Enqueue Transcoder.makeDone;
     Transcoder.Close]
  /\ Transcoder.onFinish_calls (stream None) = 0%nat
  /\ (forall reads : list Transcoder.read_result,
        Transcoder.onFinish_calls (stream (Some reads)) = 1%nat).
Proof.
  intros opts stream. split; [reflexivity|]. split; [reflexivity|].
  intros reads. subst stream. now rewrite body_calls_onFinish_once.
Qed.

(** ** The transcoder on the scenarios *)

Lemma still_patient (show : option bool) :
  Transcoder.patient (Scenario.opts show None None) Scenario.still.
Proof. intros i j. vm_compute. repeat split; right; reflexivity. Qed.

Lemma carries_A :
  Transcoder.carries Scenario.parse "A" (Transcoder.text_frame true "A").
Proof. repeat split. Qed.

Lemma carries_B :
  Transcoder.carries Scenario.parse "B" (Transcoder.text_frame true "B").
Proof. repeat split. Qed.

Lemma carries_C :
  Transcoder.carries Scenario.parse "C" (Transcoder.text_frame false "C").
Proof. repeat split. Qed.

(** C2 on a clock that stands still, with [show_thinking] true and false. *)
Lemma C2_witness :
  let reads := [Scenario.chunk_of "A"; Scenario.chunk_of "B"; Scenario.chunk_of "C";
                Transcoder.ReadDone] in
  Transcoder.deltas
    (Transcoder.createOpenAiStreamFromGrokNdjson Scenario.parse Scenario.no_URL
       Scenario.plain_btoa (Scenario.opts (Some true) None None) Scenario.still
       (Some reads))
  = "<think>" +:+ JS.nl +:+ "AB" +:+ JS.nl +:+ "</think>" +:+ JS.nl +:+ "C"
  /\ Transcoder.deltas
       (Transcoder.createOpenAiStreamFromGrokNdjson Scenario.parse Scenario.no_URL
          Scenario.plain_btoa (Scenario.opts (Some false) None None) Scenario.still
          (Some reads))
     = "C".
Proof.
  split.
  - exact (proj1
             (C2_thinking_then_answer Scenario.parse Scenario.no_URL
                Scenario.plain_btoa (Scenario.opts (Some true) None None)
                Scenario.still "A" "B" "C"
                (still_patient (Some true)) carries_A carries_B carries_C)).
  - exact (proj1
             (C2_thinking_then_answer Scenario.parse Scenario.no_URL
                Scenario.plain_btoa (Scenario.opts (Some false) None None)
                Scenario.still "A" "B" "C"
                (still_patient (Some false)) carries_A carries_B carries_C)).
Defined.

(** C4 with the default settings (video idle time-out 90 seconds): after a
    video frame the upstream is silent for 100 seconds. *)
Lemma C4_witness :
  Transcoder.createOpenAiStreamFromGrokNdjson Scenario.parse Scenario.no_URL
    Scenario.plain_btoa (Scenario.opts None None None) (Scenario.stalls 2 100000)
    (Some ([Scenario.chunk_of "video 10"] ++ [Transcoder.ReadDone])%list)
  = (Transcoder.out Scenario.video_head
     ++ [Transcoder.Warn (Transcoder.WarnIdle true 100000);
         Transcoder.Enqueue
           (Transcoder.makeChunk "chatcmpl-uuid" 1700000000 Transcoder.defaultModel
              EmptyString (Some "stop"));
         Transcoder.Enqueue Transcoder.makeDone;
         Transcoder.OnFinish 200 100000;
         Transcoder.Close;
         Transcoder.ReleaseLock])%list.
Proof.
  exact (C4_video_idle_timeout_ends_cleanly Scenario.parse Scenario.no_URL
           Scenario.plain_btoa (Scenario.opts None None None) (Scenario.stalls 2 100000)
           [Scenario.chunk_of "video 10"] [Transcoder.ReadDone] Scenario.video_head
           eq_refl eq_refl eq_refl eq_refl).
Defined.

(** C4, as stated, fails in two ways.  When the video idle time-out is
    configured as zero, the time since the last frame (one second) exceeds
    it at the next deadline check, and the stream goes on, writing the
    progress of the next frame.  And with the default settings (video idle
    time-out 90 seconds), when the upstream is silent for 100 seconds while a
    read is pending and then sends a frame, no deadline check sees the
    silence: the last frame time moves on by 100 seconds and the stream goes
    on to its end. *)
Lemma C4_counterexample :
  (let opts := Scenario.opts None None (Some 0) in
   let head :=
     Transcoder.head_state Scenario.parse Scenario.no_URL Scenario.plain_btoa opts
       Scenario.ticking (Transcoder.initial opts Scenario.ticking)
       [Scenario.chunk_of "video 10"] in
   option_map Transcoder.isVideo head = Some true
   /\ option_map
        (fun st =>
           Transcoder.clock Scenario.ticking (Transcoder.ticks st)
           - Transcoder.lastChunkTime st >? Transcoder.videoIdleTimeoutMs opts)
        head
      = Some true
   /\ Transcoder.deltas
        (Transcoder.createOpenAiStreamFromGrokNdjson Scenario.parse Scenario.no_URL
           Scenario.plain_btoa opts Scenario.ticking
           (Some [Scenario.chunk_of "video 10"; Scenario.chunk_of "video 60";
                  Transcoder.ReadDone]))
      = "<think>视频已生成10%" +:+ JS.nl +:+ "视频已生成60%" +:+ JS.nl)
  /\ (let opts := Scenario.opts None None None in
      let world := Scenario.stalls 3 100000 in
      let head reads :=
        Transcoder.head_state Scenario.parse Scenario.no_URL Scenario.plain_btoa opts
          world (Transcoder.initial opts world) reads in
      Transcoder.videoIdleTimeoutMs opts = 90000
      /\ option_map Transcoder.lastChunkTime (head [Scenario.chunk_of "video 10"])
         = Some Scenario.t0
      /\ option_map Transcoder.lastChunkTime
           (head [Scenario.chunk_of "video 10"; Scenario.chunk_of "video 60"])
         = Some (Scenario.t0 + 100000)
      /\ Transcoder.createOpenAiStreamFromGrokNdjson Scenario.parse Scenario.no_URL
           Scenario.plain_btoa opts world
           (Some [Scenario.chunk_of "video 10"; Scenario.chunk_of "video 60";
                  Transcoder.ReadDone])
         = [Transcoder.Enqueue
              (Transcoder.makeChunk "chatcmpl-uuid" 1700000000 Transcoder.defaultModel
                 ("<think>视频已生成10%" +:+ JS.nl) None);
            Transcoder.Enqueue
              (Transcoder.makeChunk "chatcmpl-uuid" 1700000000 Transcoder.defaultModel
                 ("视频已生成60%" +:+ JS.nl) None);
            Transcoder.Enqueue
              (Transcoder.makeChunk "chatcmpl-uuid" 1700000000 Transcoder.defaultModel
                 EmptyString (Some "stop"));
            Transcoder.Enqueue Transcoder.makeDone;
            Transcoder.OnFinish 200 100000;
            Transcoder.Close;
            Transcoder.ReleaseLock]).
Proof. vm_compute. repeat split. Qed.

(** The fourth scenario of the specification: with an idle time-out of 5
    seconds and a video idle time-out of 60, a video stream that is silent
    for 30 seconds is not cut by the ordinary idle time-out; it ends with
    the upstream, cleanly and with status 200. *)
Example video_stream_outlives_idle_timeout :
  Transcoder.createOpenAiStreamFromGrokNdjson Scenario.parse Scenario.no_URL
    Scenario.plain_btoa (Scenario.opts None (Some 5) (Some 60)) (Scenario.stalls 2 30000)
    (Some [Scenario.chunk_of "video 10"; Transcoder.ReadDone])
  = [Transcoder.Enqueue
       (Transcoder.makeChunk "chatcmpl-uuid" 1700000000 Transcoder.defaultModel
          ("<think>视频已生成10%" +:+ JS.nl) None);
     Transcoder.Enqueue
       (Transcoder.makeChunk "chatcmpl-uuid" 1700000000 Transcoder.defaultModel
          EmptyString (Some "stop"));
     Transcoder.Enqueue Transcoder.makeDone;
     Transcoder.OnFinish 200 30000;
     Transcoder.Close;
     Transcoder.ReleaseLock].
Proof. vm_compute. reflexivity. Qed.



(** The tag filter does not look again at the character that ends a pending
    prefix: after ["<<"] is emitted, the tag that the second ["<"] opens
    goes through with its body. *)
Example pending_prefix_is_not_rescanned :
  snd (TagFilter.feed (TagFilter.new ["xaiartifact"])
         ["<<xaiartifact>secret</xaiartifact>"])
  = ["<<xaiartifact>secret</xaiartifact>"].
Proof. vm_compute. reflexivity. Qed.

(** C10, as stated, fails for the rows of the first, partial day of the
    scan window.  At [t0] (2023-11-14 22:13:20 UTC) the row of 2023-10-31
    23:13:20 is scanned and older than 24 hours, and the first day returned
    is 2023-11-01: the row is in no returned daily bucket, and the
    statistics are the same with it and without it. *)
Lemma C10_counterexample :
  Logs.scanned Scenario.t0 Scenario.edge_row = true
  /\ Logs.recent Scenario.t0 Scenario.edge_row = false
  /\ Logs.toIsoDateKey (Logs.timestamp Scenario.edge_row) = "2023-10-31"
  /\ List.map fst (Logs.daily (Logs.getRequestStats Scenario.t0 [] []))
     = ["2023-11-01"; "2023-11-02"; "2023-11-03"; "2023-11-04"; "2023-11-05";
        "2023-11-06"; "2023-11-07"; "2023-11-08"; "2023-11-09"; "2023-11-10";
        "2023-11-11"; "2023-11-12"; "2023-11-13"; "2023-11-14"]
  /\ Logs.daily (Logs.getRequestStats Scenario.t0 [Scenario.edge_row] [])
     = Logs.daily (Logs.getRequestStats Scenario.t0 [] [])
  /\ Forall (fun slot => snd slot = Logs.mkBucket 0 0)
       (Logs.daily (Logs.getRequestStats Scenario.t0 [Scenario.edge_row] [])).
Proof. vm_compute. repeat split; repeat constructor. Qed.


(** * Further properties

    ** Strings *)

Section StringFacts.
Import JS.

Lemma rev_app_list (s1 s2 : string) :
  list_ascii_of_string (String.rev_app s1 s2)
  = (List.rev (list_ascii_of_string s1) ++ list_ascii_of_string s2)%list.
Proof.
  revert s2. induction s1 as [|c s1 IH]; intros s2; cbn [String.rev_app]; [reflexivity|].
  rewrite IH. cbn [list_ascii_of_string List.rev]. now rewrite <- app_assoc.
Qed.

Lemma rev_list (s : string) :
  list_ascii_of_string (String.rev s) = List.rev (list_ascii_of_string s).
Proof. unfold String.rev. rewrite rev_app_list. apply app_nil_r. Qed.

Lemma list_ascii_inj (s1 s2 : string) :
  list_ascii_of_string s1 = list_ascii_of_string s2 -> s1 = s2.
Proof.
  intros H. rewrite <- (string_of_list_ascii_of_string s1),
    <- (string_of_list_ascii_of_string s2). now rewrite H.
Qed.

Lemma rev_involutive (s : string) : String.rev (String.rev s) = s.
Proof. apply list_ascii_inj. rewrite !rev_list. apply List.rev_involutive. Qed.

Lemma list_ascii_app (s1 s2 : string) :
  list_ascii_of_string (s1 +:+ s2)
  = (list_ascii_of_string s1 ++ list_ascii_of_string s2)%list.
Proof.
  induction s1 as [|c s1 IH]; [reflexivity|].
  change (String c s1 +:+ s2) with (String c (s1 +:+ s2)).
  cbn [list_ascii_of_string app]. now rewrite IH.
Qed.

Lemma rev_append (s1 s2 : string) :
  String.rev (s1 +:+ s2) = String.rev s2 +:+ String.rev s1.
Proof.
  apply list_ascii_inj. rewrite list_ascii_app, !rev_list, list_ascii_app.
  apply List.rev_app_distr.
Qed.

(** The characters of a string. *)
Lemma includes_char (c : ascii) (s : string) :
  includes s (String c EmptyString) = true <-> In c (list_ascii_of_string s).
Proof.
  induction s as [|d s IH]; unfold includes; fold includes.
  - cbn. split; [discriminate|tauto].
  - cbn [String.prefix list_ascii_of_string In].
    rewrite orb_true_iff, IH. split.
    + intros [H|H]; [left|now right].
      destruct (ascii_dec c d) as [->|n]; [reflexivity|discriminate].
    + intros [E|H]; [left; subst d|now right].
      destruct (ascii_dec c c) as [_|n]; [now destruct s|congruence].
Qed.

Lemma includes_char_false (c : ascii) (s : string) :
  includes s (String c EmptyString) = false <-> ~ In c (list_ascii_of_string s).
Proof.
  rewrite <- includes_char. destruct (includes s _); split; congruence.
Qed.

End StringFacts.

(** ** The transcoder: the shape of every response *)

Section TranscoderProtocol.
Import JS Transcoder Transcript.

Variable JSON_parse : string -> option json.
Variable URL_parse : string -> option URL.
Variable btoa : string -> string.
Variable opts : Opts.
Variable world : World.

Lemma finish_reason_makeChunk (id_ : string) (created_ : Z) (model content : string)
  (r : option string) :
  finish_reason_of (Enqueue (makeChunk id_ created_ model content r)) = r.
Proof. destruct r; reflexivity. Qed.

Lemma delta_in_progress (id_ : string) (created_ : Z) (model content : string) :
  in_progress (Enqueue (makeChunk id_ created_ model content None)) = true.
Proof. reflexivity. Qed.

Lemma going_chunk (content : string) (st : state) :
  going st -> going (chunk world content None st).
Proof.
  intros (H1 & H2). split; [exact H1|].
  cbn [chunk enqueue emit out]. rewrite forallb_app, H2.
  cbn [forallb]. now rewrite delta_in_progress.
Qed.

(** A state that differs from one that is going on in neither the status
    nor the log is going on. *)
Lemma going_like (st st' : state) :
  going st -> finalStatus st' = finalStatus st -> out st' = out st -> going st'.
Proof. unfold going. intros (H1 & H2) -> ->. auto. Qed.

Ltac same st := apply (going_like st); [assumption|reflexivity|reflexivity].

(** The four statements that end a response: the final chunk, the
    sentinel, the callback, [close]. *)
Lemma final_statements (st : state) (content reason : string) (status : Z) :
  forallb in_progress (out st) = true ->
  (reason = "stop" \/ reason = "error") ->
  (status = 200 \/ status = 500 \/ status = 502) ->
  ends (onFinish opts) false
    (out (close (finish opts world status
                   (enqueue makeDone (chunk world content (Some reason) st))))).
Proof.
  intros Hq Hr Hs.
  exists (out st),
    (Enqueue (makeChunk (id world) (created world) (currentModel st) content (Some reason))),
    status,
    (clock world (ticks st) - startTime st).
  split; [|split; [exact Hq|split; [|exact Hs]]].
  - unfold finish, ending.
    destruct (onFinish opts);
      cbn [Date_now close enqueue chunk emit tick out startTime ticks makeDone];
      rewrite <- ?app_assoc; reflexivity.
  - unfold is_final_chunk. cbn [makeChunk]. fold (makeChunk (id world) (created world)
      (currentModel st) content (Some reason)).
    rewrite finish_reason_makeChunk. destruct Hr as [-> | ->]; reflexivity.
Qed.

Lemma stop_and_return_orderly (st : state) :
  going st -> orderly (onFinish opts) (stop_and_return opts world st).
Proof.
  intros (H1 & H2). unfold stop_and_return, flushStop. cbn [orderly].
  apply final_statements; [exact H2|now left|].
  left. cbn [chunk enqueue emit finalStatus]. exact H1.
Qed.

Lemma handle_video_orderly (st : state) (videoResp : json) :
  going st -> orderly (onFinish opts) (handle_video URL_parse btoa opts world st videoResp).
Proof.
  intros H. unfold handle_video. cbn [orderly].
  assert (going (set_isVideo true st)) as H0 by same st.
  repeat match goal with
         | |- context [if ?b then _ else _] => destruct b
         end;
    repeat first
      [ exact H0
      | apply going_chunk
      | match goal with
        | |- going (set_videoProgressStarted _ ?s) =>
            apply (going_like s); [|reflexivity|reflexivity]
        | |- going (set_lastVideoProgress _ ?s) =>
            apply (going_like s); [|reflexivity|reflexivity]
        end ].
Qed.

Lemma handle_image_orderly (st : state) (grok : json) (rawToken : value) :
  going st ->
  orderly (onFinish opts) (handle_image URL_parse btoa opts world st grok rawToken).
Proof.
  intros H. unfold handle_image.
  destruct (truthy_value (get grok "modelResponse")).
  - destruct (normalizeGeneratedAssetUrls _ _) as [|u urls]; cbn [orderly].
    + exact H.
    + destruct H as (H1 & H2).
      apply final_statements; [exact H2|now left|].
      left. cbn [chunk enqueue emit finalStatus]. exact H1.
  - destruct rawToken as [[| | |raw| |]|]; cbn [orderly]; try exact H.
    destruct (truthy raw); cbn [orderly]; [now apply going_chunk|exact H].
Qed.

Lemma emit_text_orderly (st : state) (grok : json) (thinking : bool) (token : string) :
  going st -> orderly (onFinish opts) (emit_text opts world st grok thinking token).
Proof.
  intros H. unfold emit_text.
  generalize (match get grok "messageTag" with
              | Some (JStr "header") => nl +:+ nl +:+ token +:+ nl +:+ nl
              | _ => token
              end) as content.
  intros content.
  destruct (isThinking st), thinking, (showThinking opts); cbn [negb andb orderly];
    match goal with
    | |- going (set_isThinking _ ?s) => apply (going_like s); [|reflexivity|reflexivity]
    end;
    try apply going_chunk;
    try exact H; same st.
Qed.

Lemma handle_text_orderly (st : state) (grok : json) (rawToken : value) :
  going st -> orderly (onFinish opts) (handle_text opts world st grok rawToken).
Proof.
  intros H. unfold handle_text.
  destruct rawToken as [[| | |raw| |]|]; cbn [orderly]; try exact H.
  destruct (truthy raw); cbn [negb orderly]; [|exact H].
  destruct (TagFilter.filter (tagFilter st) raw) as [tf token].
  assert (going (set_tagFilter tf st)) as H' by same st.
  destruct (truthy token); cbn [negb orderly]; [|exact H'].
  destruct (thinkingFinished (set_tagFilter tf st) && _); cbn [orderly];
    [exact H'|].
  destruct (opt_get (get grok "webSearchResults") "results") as [[| | | |items|]|];
    try now apply emit_text_orderly.
  destruct (truthy_value (get grok "toolUsageCardId")); [|now apply emit_text_orderly].
  destruct (truthy_value (get grok "isThinking")); cbn [orderly]; [|exact H'].
  destruct (showThinking opts); cbn [orderly]; [|exact H'].
  destruct (search_lines items EmptyString); cbn [orderly];
    [exact H'|now apply emit_text_orderly].
Qed.

Lemma handle_response_orderly (st : state) (grok : json) :
  going st -> orderly (onFinish opts) (handle_response URL_parse btoa opts world st grok).
Proof.
  intros H. unfold handle_response.
  match goal with
  | |- context [handle_video _ _ _ _ ?s _] => assert (going s) as H1
  end.
  { destruct (opt_get (get grok "userResponse") "model") as [[| | |m| |]|];
      try exact H.
    destruct (truthy (trim m)); [same st|exact H]. }
  destruct (as_truthy (get grok "streamingVideoGenerationResponse"));
    [now apply handle_video_orderly|].
  match goal with
  | |- context [handle_image _ _ _ _ ?s _ _] => assert (going s) as H2
  end.
  { destruct (truthy_value (get grok "imageAttachmentInfo")); [|exact H1].
    match goal with H1 : going ?s |- _ => same s end. }
  match goal with
  | |- context [if ?b then _ else _] => destruct b
  end; [now apply handle_image_orderly|now apply handle_text_orderly].
Qed.

Lemma handle_frame_orderly (st : state) (data : json) :
  going st -> orderly (onFinish opts) (handle_frame URL_parse btoa opts world st data).
Proof.
  intros H. unfold handle_frame. cbn [Date_now].
  set (st1 := set_received (clock world (ticks st)) (tick st)).
  assert (going st1) as Hin by same st.
  destruct data; try exact Hin;
    (destruct (as_truthy (opt_get _ "message"));
     [cbn [orderly]; apply final_statements;
      [exact (proj2 Hin)|now left|right; left; reflexivity]|];
     destruct (as_truthy (opt_get _ "response"));
     [now apply handle_response_orderly|exact Hin]).
Qed.

Lemma handle_line_orderly (st : state) (line : string) :
  going st ->
  orderly (onFinish opts) (handle_line JSON_parse URL_parse btoa opts world st line).
Proof.
  intros H. unfold handle_line.
  destruct (truthy (trim line)); cbn [negb]; [|exact H].
  destruct (JSON_parse (trim line)); [now apply handle_frame_orderly|exact H].
Qed.

Lemma lines_loop_orderly (text : string) :
  forall (st : state) (line : string),
    going st ->
    orderly (onFinish opts) (lines_loop JSON_parse URL_parse btoa opts world st line text).
Proof.
  induction text as [|c text IH]; intros st line H; cbn [lines_loop].
  - same st.
  - destruct (Ascii.eqb c (ascii_of_nat 10)); [|now apply IH].
    pose proof (handle_line_orderly st line H) as Hl.
    destruct (handle_line _ _ _ _ _ st line) as [st'|st'|st' e]; [|exact Hl|exact Hl].
    now apply IH.
Qed.

Lemma dispatch_orderly (st : state) (res : option read_result) :
  going st ->
  pass_orderly (onFinish opts) (dispatch JSON_parse URL_parse btoa opts world st res).
Proof.
  intros H. unfold dispatch.
  destruct res as [[| |[text|]|e]|]; cbn [pass_orderly orderly];
    try exact H; try now apply stop_and_return_orderly.
  pose proof (lines_loop_orderly (buffer st +:+ text) st EmptyString H) as Hl.
  destruct (lines_loop _ _ _ _ _ st EmptyString _); exact Hl.
Qed.

Lemma iteration_orderly (st : state) (res : option read_result) :
  going st ->
  pass_orderly (onFinish opts) (iteration JSON_parse URL_parse btoa opts world st res).
Proof.
  intros H. unfold iteration. cbn [Date_now].
  assert (going (tick st)) as Ht by same st.
  repeat match goal with
         | |- context [if ?b then _ else _] => destruct b
         end;
    try (now apply dispatch_orderly);
    try (cbn [pass_orderly]; now apply stop_and_return_orderly);
    exact Ht.
Qed.

Lemma loop_orderly (reads : list read_result) :
  forall st : state,
    going st ->
    orderly (onFinish opts) (loop JSON_parse URL_parse btoa opts world st reads).
Proof.
  induction reads as [|res reads IH]; intros st H; cbn [loop].
  - pose proof (iteration_orderly st None H) as Hi.
    destruct (iteration _ _ _ _ _ st None); [now apply stop_and_return_orderly|exact Hi].
  - pose proof (iteration_orderly st (Some res) H) as Hi.
    destruct (iteration _ _ _ _ _ st (Some res)); [now apply IH|exact Hi].
Qed.

Lemma catch_ends (st : state) (e : exn) :
  going st -> ends (onFinish opts) false (out (catch opts world st e)).
Proof.
  intros (H1 & H2).
  assert (forall w, forallb in_progress (out (emit (Warn w) st)) = true) as Hw.
  { intros w. cbn [emit out]. rewrite forallb_app, H2. reflexivity. }
  unfold catch. destruct e as [idle_ms|name message|text];
    [|destruct (Errors.isHttp2StreamError _)..]; unfold flushStop;
    apply final_statements; auto.
Qed.

Lemma released (called : bool) (log : list action) :
  ends called false log -> ends called true (log ++ [ReleaseLock])%list.
Proof.
  intros (before & last & status & d & -> & H).
  exists before, last, status, d. split; [|exact H].
  unfold ending. rewrite <- !app_assoc. cbn [app].
  destruct called; reflexivity.
Qed.

Lemma settle_ends (o : outcome) :
  orderly (onFinish opts) o -> ends (onFinish opts) true (out (settle opts world o)).
Proof.
  unfold settle. destruct o as [st|st|st e]; cbn [orderly emit out]; intros H;
    apply released.
  - destruct H as (H1 & H2). apply final_statements; [exact H2|now left|].
    left. exact H1.
  - exact H.
  - now apply catch_ends.
Qed.

(** X1.  Every response ends the same way, as long as the completion
    callback resolves and the consumer has not cancelled the stream (so that
    neither [await opts.onFinish(...)] nor [controller.enqueue] throws: the
    runs this model covers).  Whatever the upstream yields (frames,
    garbage, the end of the body, a time-out or a rejected read), whatever
    the settings and the clock, the transcoder then writes delta chunks
    (chunks whose [finish_reason] is [null]) and warnings only, then exactly
    one chunk whose [finish_reason] is ["stop"] or ["error"], then the [DONE]
    sentinel, then calls [onFinish] when it is given, with status 200, 500 or
    502, then closes the stream, and last releases the reader's lock.  For a
    response without a body the same holds without the callback and without
    the release.  (A callback that rejects inside the [try] block is caught
    by the [catch] block, which writes a second final chunk and calls the
    callback again: that run is outside the statement.) *)
Theorem response_always_ends_with_final_chunk_done_close
  (body : option (list read_result)) :
  ends (match body with
        | Some _ => onFinish opts
        | None => false
        end)
       (match body with
        | Some _ => true
        | None => false
        end)
       (createOpenAiStreamFromGrokNdjson JSON_parse URL_parse btoa opts world body).
Proof.
  destruct body as [reads|]; cbn [createOpenAiStreamFromGrokNdjson].
  - unfold run. apply settle_ends, loop_orderly.
    split; reflexivity.
  - exists [], (Enqueue (makeChunk (id world) (created world) defaultModel
                           "Empty response" (Some "error"))), 200, 0.
    repeat split. now left.
Qed.

End TranscoderProtocol.

(** ** The transcoder: streams that say nothing *)

Section TranscoderSilence.
Import JS Transcoder Transcript.

Variable JSON_parse : string -> option json.
Variable URL_parse : string -> option URL.
Variable btoa : string -> string.
Variable opts : Opts.
Variable world : World.

(** The log of a response that ends before anything was written: the
    empty chunk with [finish_reason] ["stop"], the sentinel, the callback
    with status 200, [close] and [releaseLock]. *)
Lemma iteration_first_zero (st : state) (res : option read_result) :
  firstReceived st = false ->
  firstTimeoutMs opts = 0 ->
  iteration JSON_parse URL_parse btoa opts world st res
  = inr (stop_and_return opts world (tick st)).
Proof.
  intros Hf H0. unfold iteration. cbn [Date_now].
  cbn [tick firstReceived startTime lastChunkTime isVideo]. rewrite Hf. cbn [negb andb].
  destruct (_ >? firstTimeoutMs opts); [reflexivity|].
  destruct ((totalTimeoutMs opts >? 0) && _); [reflexivity|].
  match goal with
  | |- context [perReadTimeout opts ?s ?e <=? 0] =>
      assert ((perReadTimeout opts s e <=? 0) = true) as ->; [|reflexivity]
  end.
  unfold perReadTimeout. cbn [firstReceived tick]. rewrite Hf, H0.
  destruct (totalTimeoutMs opts >? 0); lia.
Qed.

(** X2.  A first-response time-out that is zero or negative does not
    switch the time-out off (as zero does for the total and the idle
    time-outs): it ends every response at once.  Whatever the upstream
    would yield, the response is the empty chunk with [finish_reason]
    ["stop"], the [DONE] sentinel, the callback with status 200, [close]
    and [releaseLock]; nothing is read. *)
Theorem first_timeout_zero_ends_at_once (secs : Z) (reads : list read_result) :
  stream_first_response_timeout (settings opts) = Some secs ->
  secs <= 0 ->
  createOpenAiStreamFromGrokNdjson JSON_parse URL_parse btoa opts world (Some reads)
  = ([Enqueue (makeChunk (id world) (created world) defaultModel EmptyString (Some "stop"));
      Enqueue SseDone]
     ++ (if onFinish opts then [OnFinish 200 (clock world 2 - clock world 0)] else [])
     ++ [Close; ReleaseLock])%list.
Proof.
  intros Hs Hle.
  assert (firstTimeoutMs opts = 0) as H0.
  { unfold firstTimeoutMs, timeout_ms. rewrite Hs. lia. }
  cbn [createOpenAiStreamFromGrokNdjson]. unfold run.
  assert (loop JSON_parse URL_parse btoa opts world (initial opts world) reads
          = stop_and_return opts world (tick (initial opts world))) as ->.
  { destruct reads; cbn [loop]; now rewrite iteration_first_zero. }
  unfold settle, stop_and_return, flushStop, finish.
  destruct (onFinish opts); reflexivity.
Qed.

(** A buffer of text none of whose lines parses is consumed without a
    trace: only [buffer] changes. *)
Lemma lines_loop_unparsed (text : string) :
  (forall line, JSON_parse line = None) ->
  forall (st : state) (line : string),
    exists rest : string,
      lines_loop JSON_parse URL_parse btoa opts world st line text
      = Next (set_buffer rest st).
Proof.
  intros Hn. induction text as [|c text IH]; intros st line; cbn [lines_loop].
  - now exists line.
  - destruct (Ascii.eqb c (ascii_of_nat 10)); [|apply IH].
    unfold handle_line. rewrite Hn.
    destruct (negb (truthy (trim line))); apply IH.
Qed.

Lemma loop_unparsed (texts : list string) :
  patient opts world ->
  (forall line, JSON_parse line = None) ->
  forall (k : nat) (b : string),
    exists b' : string,
      loop JSON_parse URL_parse btoa opts world
        (mkState [] k (clock world 0) 200 (clock world 0) false
           defaultModel false false false false false (-1) b
           (TagFilter.new (filteredTags opts)))
        (List.map (fun t => ReadValue (Some t)) texts ++ [ReadDone])
      = Next (mkState [] (List.length texts + S k) (clock world 0) 200 (clock world 0)
                false defaultModel false false false false false (-1) b'
                (TagFilter.new (filteredTags opts))).
Proof.
  intros Hp Hn. induction texts as [|t texts IH]; intros k b; cbn [List.map app loop].
  - rewrite iteration_patient
      by (try assumption; try reflexivity; try (exists 0%nat; reflexivity)).
    cbn [dispatch]. now exists b.
  - rewrite iteration_patient
      by (try assumption; try reflexivity; try (exists 0%nat; reflexivity)).
    cbn [dispatch].
    match goal with
    | |- context [lines_loop _ _ _ _ _ ?s ?l ?x] =>
        destruct (lines_loop_unparsed x Hn s l) as [rest ->]
    end.
    destruct (IH (S k) rest) as [b' E]. exists b'.
    replace (List.length (t :: texts) + S k)%nat
      with (List.length texts + S (S k))%nat by (cbn [List.length]; lia).
    rewrite <- E. reflexivity.
Qed.

(** X3.  An upstream none of whose lines parses as JSON (an HTML error
    page, say) is dropped without a trace: when no deadline fires and the
    body then ends, the response is the empty chunk with [finish_reason]
    ["stop"], the [DONE] sentinel, the callback with status 200 (not an
    error status), [close] and [releaseLock], however the text was cut into
    reads. *)
Theorem unparsable_upstream_gives_empty_completion (texts : list string) :
  patient opts world ->
  (forall line, JSON_parse line = None) ->
  createOpenAiStreamFromGrokNdjson JSON_parse URL_parse btoa opts world
    (Some (List.map (fun t => ReadValue (Some t)) texts ++ [ReadDone])%list)
  = ([Enqueue (makeChunk (id world) (created world) defaultModel EmptyString (Some "stop"));
      Enqueue SseDone]
     ++ (if onFinish opts
         then [OnFinish 200 (clock world (List.length texts + 2) - clock world 0)]
         else [])
     ++ [Close; ReleaseLock])%list.
Proof.
  intros Hp Hn. cbn [createOpenAiStreamFromGrokNdjson]. unfold run.
  destruct (loop_unparsed texts Hp Hn 1 EmptyString) as [b E].
  change (mkState [] 1 _ _ _ _ _ _ _ _ _ _ _ _ _) with (initial opts world) in E.
  rewrite E. unfold settle, finish.
  destruct (onFinish opts); reflexivity.
Qed.

End TranscoderSilence.

(** ** The transcoder: errors and hidden thinking *)

Section TranscoderErrors.
Import JS Transcoder Transcript.

Variable JSON_parse : string -> option json.
Variable URL_parse : string -> option URL.
Variable btoa : string -> string.
Variable opts : Opts.
Variable world : World.

(** X4.  The idle time-out error passes the test for an HTTP/2 stream
    error too (its text begins with its name, [StreamIdleTimeoutError], which
    contains "stream"), whatever the idle time: it is only because the
    [catch] block tests [instanceof StreamIdleTimeoutError] first that an idle
    time-out is reported with the status of the response and not as a 502. *)
Theorem idle_timeout_error_passes_the_http2_test (idle_ms : Z) :
  Errors.isHttp2StreamError (StreamIdleTimeoutError idle_ms) = true.
Proof.
  unfold Errors.isHttp2StreamError. apply orb_true_iff. right.
  cbn [exn_String].
  change ("StreamIdleTimeoutError: Stream idle timeout after "
          +:+ seconds_to_string idle_ms +:+ "s")
    with (String "S" ("treamIdleTimeoutError: Stream idle timeout after "
                      +:+ seconds_to_string idle_ms +:+ "s")).
  reflexivity.
Qed.

(** X5.  A read that is rejected before anything was received, while no
    deadline has passed: when the text of the error passes the HTTP/2 test,
    the response is a warning, the empty chunk with [finish_reason] ["stop"]
    and the callback with status 502; otherwise it is one chunk that carries
    the message, with [finish_reason] ["error"], and the callback with status
    500.  Both end with the sentinel, [close] and [releaseLock], and what the
    reader would have yielded next is never read. *)
Theorem rejected_read_gives_502_or_500 (name message : string)
  (rest : list read_result) :
  patient opts world ->
  let e := ErrorObject name message in
  createOpenAiStreamFromGrokNdjson JSON_parse URL_parse btoa opts world
    (Some (ReadError e :: rest))
  = ((if Errors.isHttp2StreamError e
      then [Warn (WarnHttp2 message);
            Enqueue (makeChunk (id world) (created world) defaultModel EmptyString
                       (Some "stop"))]
      else [Enqueue (makeChunk (id world) (created world) defaultModel
                       ("处理错误: " +:+ message) (Some "error"))])
     ++ [Enqueue SseDone]
     ++ (if onFinish opts
         then [OnFinish (if Errors.isHttp2StreamError e then 502 else 500)
                 (clock world 2 - clock world 0)]
         else [])
     ++ [Close; ReleaseLock])%list.
Proof.
  intros Hp e. subst e. cbn [createOpenAiStreamFromGrokNdjson]. unfold run. cbn [loop].
  rewrite iteration_patient
    by (try assumption; try reflexivity; try (exists 0%nat; reflexivity)).
  cbn [dispatch]. unfold settle, catch.
  destruct (Errors.isHttp2StreamError (ErrorObject name message));
    unfold flushStop, finish; destruct (onFinish opts); reflexivity.
Qed.

(** X6.  With [show_thinking] switched off, a thinking frame of a text
    stream writes nothing, in whatever state the stream is and whatever else
    the frame carries (a header tag, search results); nor can it throw. *)
Theorem hidden_thinking_writes_nothing (st : state) (grok : json) (rawToken : value) :
  show_thinking (settings opts) = Some false ->
  truthy_value (get grok "isThinking") = true ->
  exists st' : state,
    handle_text opts world st grok rawToken = Next st' /\ out st' = out st.
Proof.
  intros Hs Ht.
  assert (showThinking opts = false) as Hshow by (unfold showThinking; now rewrite Hs).
  unfold handle_text.
  destruct rawToken as [[| | |raw| |]|]; try (now exists st).
  destruct (truthy raw); cbn [negb]; [|now exists st].
  destruct (TagFilter.filter (tagFilter st) raw) as [tf token].
  destruct (truthy token); cbn [negb]; [|now eexists].
  rewrite Ht.
  destruct (thinkingFinished (set_tagFilter tf st) && true); [now eexists|].
  assert (exists st',
             emit_text opts world (set_tagFilter tf st) grok true token = Next st'
             /\ out st' = out st) as He.
  { unfold emit_text. rewrite Hshow.
    destruct (isThinking (set_tagFilter tf st)); cbn [negb andb]; now eexists. }
  destruct (opt_get (get grok "webSearchResults") "results") as [[| | | |items|]|];
    try exact He.
  destruct (truthy_value (get grok "toolUsageCardId")); [|exact He].
  rewrite Hshow. now eexists.
Qed.

End TranscoderErrors.

(** ** The transcoder: asset paths *)

Section ReplaceFacts.
Import JS Transcoder.

Lemma replaceAll_list (c : ascii) (by_ s : string) :
  list_ascii_of_string (replaceAll c by_ s)
  = flat_map (fun d => if Ascii.eqb c d then list_ascii_of_string by_ else [d])
      (list_ascii_of_string s).
Proof.
  induction s as [|d s IH]; [reflexivity|].
  cbn [replaceAll list_ascii_of_string flat_map].
  rewrite list_ascii_app, IH. now destruct (Ascii.eqb c d).
Qed.

(** What [replaceAll] leaves of a character: none of the replaced one
    (when the replacement has none), and no new one. *)
Lemma replaceAll_removes (c : ascii) (by_ s : string) :
  ~ In c (list_ascii_of_string by_) ->
  ~ In c (list_ascii_of_string (replaceAll c by_ s)).
Proof.
  intros Hby. rewrite replaceAll_list, in_flat_map. intros (d & _ & Hd).
  destruct (Ascii.eqb c d) eqn:E; [now apply Hby|].
  destruct Hd as [->|[]]. now rewrite Ascii.eqb_refl in E.
Qed.

Lemma replaceAll_keeps_out (x c : ascii) (by_ s : string) :
  ~ In x (list_ascii_of_string by_) ->
  ~ In x (list_ascii_of_string s) ->
  ~ In x (list_ascii_of_string (replaceAll c by_ s)).
Proof.
  intros Hby Hs. rewrite replaceAll_list, in_flat_map. intros (d & Hd & Hx).
  destruct (Ascii.eqb c d); [now apply Hby|].
  destruct Hx as [->|[]]. now apply Hs.
Qed.

Lemma strip_trailing_eq_chars (x : ascii) (s : string) :
  In x (list_ascii_of_string (strip_trailing_eq s)) -> In x (list_ascii_of_string s).
Proof.
  unfold strip_trailing_eq.
  set (drop := fix drop (r : string) : string :=
                 match r with
                 | String c r' => if Ascii.eqb c "=" then drop r' else r
                 | EmptyString => EmptyString
                 end).
  rewrite rev_list. rewrite <- List.in_rev.
  assert (forall r, In x (list_ascii_of_string (drop r)) -> In x (list_ascii_of_string r))
    as H.
  { induction r as [|c r IH]; cbn [drop]; [tauto|].
    destruct (Ascii.eqb c "="); [|tauto].
    intros Hin. right. now apply IH. }
  intros Hin. apply H in Hin. rewrite rev_list in Hin. now apply List.in_rev.
Qed.

Lemma strip_trailing_eq_end (s : string) : endsWith (strip_trailing_eq s) "=" = false.
Proof.
  unfold endsWith, strip_trailing_eq.
  set (drop := fix drop (r : string) : string :=
                 match r with
                 | String c r' => if Ascii.eqb c "=" then drop r' else r
                 | EmptyString => EmptyString
                 end).
  rewrite rev_involutive. change (String.rev "=") with "=".
  induction (String.rev s) as [|c r IH]; cbn [drop]; [reflexivity|].
  destruct (Ascii.eqb c "=") eqn:E; [exact IH|].
  cbn [String.prefix]. destruct (ascii_dec "=" c) as [<-|n]; [discriminate|reflexivity].
Qed.

End ReplaceFacts.

Section AssetFacts.
Import JS Transcoder.

Variable URL_parse : string -> option URL.
Variable btoa : string -> string.

(** X7.  [base64UrlEncode] is safe in the path of a URL whatever [btoa]
    returns: the result has no [+] and no [/], and does not end with the
    padding character [=]. *)
Theorem base64UrlEncode_is_url_safe (input : string) :
  includes (base64UrlEncode btoa input) "+" = false
  /\ includes (base64UrlEncode btoa input) "/" = false
  /\ endsWith (base64UrlEncode btoa input) "=" = false.
Proof.
  unfold base64UrlEncode. split; [|split].
  - apply includes_char_false. intros H. apply strip_trailing_eq_chars in H.
    revert H. apply replaceAll_keeps_out.
    + cbn. intros [H|[]]. discriminate.
    + apply replaceAll_removes. cbn. intros [H|[]]. discriminate.
  - apply includes_char_false. intros H. apply strip_trailing_eq_chars in H.
    revert H. apply replaceAll_removes. cbn. intros [H|[]]. discriminate.
  - apply strip_trailing_eq_end.
Qed.

(** X8.  What [normalizeGeneratedAssetUrls] returns: the trimmed string
    elements of the array, in their order, without the blank ones, without
    ["/"], and without the URLs that are a bare origin (path ["/"], no query,
    no fragment).  Anything that is not an array gives the empty list. *)
Theorem normalized_asset_urls_are_usable (input : value) :
  Forall
    (fun s =>
       truthy s = true
       /\ s <> "/"
       /\ (exists (items : list json) (v : string),
              input = Some (JArr items) /\ In (JStr v) items /\ s = trim v)
       /\ (forall u : URL,
              URL_parse s = Some u ->
              pathname u = "/" -> search u = EmptyString -> hash u = EmptyString -> False))
    (normalizeGeneratedAssetUrls URL_parse input).
Proof.
  destruct input as [[| | | |items|]|]; cbn [normalizeGeneratedAssetUrls]; try constructor.
  assert (forall l,
             Forall
               (fun s =>
                  truthy s = true /\ s <> "/"
                  /\ (exists v, In (JStr v) l /\ s = trim v)
                  /\ (forall u : URL,
                         URL_parse s = Some u ->
                         pathname u = "/" -> search u = EmptyString ->
                         hash u = EmptyString -> False))
               (normalize_items URL_parse l)) as H.
  { induction l as [|x l IH]; cbn [normalize_items]; [constructor|].
    assert (Forall
              (fun s =>
                 truthy s = true /\ s <> "/"
                 /\ (exists v, In (JStr v) (x :: l) /\ s = trim v)
                 /\ (forall u : URL,
                        URL_parse s = Some u ->
                        pathname u = "/" -> search u = EmptyString ->
                        hash u = EmptyString -> False))
              (normalize_items URL_parse l)) as IH'.
    { eapply List.Forall_impl; [|exact IH].
      intros s (H1 & H2 & (v & Hv & Hs) & H4). repeat split; auto.
      exists v. split; [now right|exact Hs]. }
    destruct x as [| | |v| |]; try exact IH'.
    destruct (truthy (trim v)) eqn:Et; cbn [negb]; [|exact IH'].
    destruct (String.eqb (trim v) "/") eqn:Es; [exact IH'|].
    assert ((exists v0, In (JStr v0) (JStr v :: l) /\ trim v = trim v0)) as Hex
        by (exists v; split; [now left|reflexivity]).
    apply String.eqb_neq in Es.
    destruct (URL_parse (trim v)) as [u|] eqn:Eu.
    - destruct (String.eqb (pathname u) "/" && negb (truthy (search u))
                && negb (truthy (hash u))) eqn:Eb; [exact IH'|].
      constructor; [|exact IH']. repeat split; auto.
      intros u' Hu' Hp Hq Hh. rewrite Eu in Hu'. injection Hu' as <-.
      rewrite Hp, Hq, Hh in Eb. discriminate.
    - constructor; [|exact IH']. repeat split; auto.
      intros u' Hu'. rewrite Eu in Hu'. discriminate. }
  eapply List.Forall_impl; [|apply H].
  intros s (H1 & H2 & (v & Hv & Hs) & H4). repeat split; auto.
  exists items, v. auto.
Qed.

End AssetFacts.


(** ** The tag filter: what is cut out and what is kept *)

Section TagFilterCuts.
Import JS.

(** *** Prefixes and substrings *)

Lemma prefix_app (p s x : string) :
  String.prefix p s = true -> String.prefix p (s +:+ x) = true.
Proof.
  revert s. induction p as [|a p IH]; intros s H; [apply prefix_empty|].
  destruct s as [|b s]; [discriminate H|].
  change (String b s +:+ x) with (String b (s +:+ x)).
  cbn [String.prefix] in *. destruct (ascii_dec a b); [now apply IH|discriminate H].
Qed.

Lemma prefix_self_app (p x : string) : String.prefix p (p +:+ x) = true.
Proof.
  induction p as [|a p IH]; [apply prefix_empty|].
  change (String a p +:+ x) with (String a (p +:+ x)).
  cbn [String.prefix]. destruct (ascii_dec a a); [exact IH|congruence].
Qed.

Lemma includes_app_l (s x sub : string) :
  includes s sub = true -> includes (s +:+ x) sub = true.
Proof.
  induction s as [|c s IH]; unfold includes; fold includes.
  - intros H. destruct sub as [|a sub]; [|discriminate H].
    change (EmptyString +:+ x) with x.
    destruct x; unfold includes; fold includes; cbn [String.prefix]; reflexivity.
  - change (String c s +:+ x) with (String c (s +:+ x)).
    unfold includes; fold includes.
    intros H. apply orb_true_iff in H as [H|H]; apply orb_true_iff.
    + left. exact (prefix_app sub (String c s) x H).
    + right. now apply IH.
Qed.

Lemma includes_app_r (s x sub : string) :
  includes x sub = true -> includes (s +:+ x) sub = true.
Proof.
  intros H. induction s as [|c s IH]; [exact H|].
  change (String c s +:+ x) with (String c (s +:+ x)).
  unfold includes; fold includes. rewrite IH. apply orb_true_r.
Qed.

Lemma includes_prefix (s sub : string) :
  String.prefix sub s = true -> includes s sub = true.
Proof.
  destruct s as [|c s]; unfold includes; fold includes; intros H; [exact H|].
  rewrite H. reflexivity.
Qed.

Lemma includes_not_app_l (s x sub : string) :
  includes (s +:+ x) sub = false -> includes s sub = false.
Proof.
  intros H. destruct (includes s sub) eqn:E; [|reflexivity].
  now rewrite (includes_app_l s x sub E) in H.
Qed.

Lemma prefix_exists (p s : string) :
  String.prefix p s = true -> exists r, s = p +:+ r.
Proof. intros H. eexists. now apply prefix_split. Qed.

Lemma endsWith_includes (s suf : string) :
  endsWith s suf = true -> includes s suf = true.
Proof.
  unfold endsWith. intros H. apply prefix_exists in H as [r Hr].
  assert (s = String.rev r +:+ suf) as ->.
  { rewrite <- (rev_involutive s), Hr, rev_append. now rewrite rev_involutive. }
  apply includes_app_r, includes_prefix.
  rewrite <- (append_nil_r suf) at 2. apply prefix_self_app.
Qed.

(** *** The filter, state by state *)

Lemma filter_loop_app (x y : string) :
  forall (f : TagFilter.t) (acc : string),
    TagFilter.filter_loop f (x +:+ y) acc
    = let '(f', acc') := TagFilter.filter_loop f x acc in
      TagFilter.filter_loop f' y acc'.
Proof.
  induction x as [|c x IH]; intros f acc; [reflexivity|].
  change (String c x +:+ y) with (String c (x +:+ y)).
  cbn [TagFilter.filter_loop]. destruct (TagFilter.step f c) as [f' o]. apply IH.
Qed.

(** Outside a tag, with nothing pending, text without ["<"] goes through
    and leaves the filter as it was. *)
Lemma filter_loop_plain (ts : list string) (buf : string) (x : string) :
  includes x "<" = false ->
  forall acc : string,
    TagFilter.filter_loop (TagFilter.mk ts false buf EmptyString) x acc
    = (TagFilter.mk ts false buf EmptyString, acc +:+ x).
Proof.
  induction x as [|c x IH]; intros H acc.
  - cbn [TagFilter.filter_loop]. now rewrite append_nil_r.
  - unfold includes in H; fold includes in H. apply orb_false_iff in H as [Hc Hx].
    assert (Ascii.eqb c "<" = false) as Hlt.
    { apply Ascii.eqb_neq. intros ->. destruct x; discriminate Hc. }
    cbn [TagFilter.filter_loop]. unfold TagFilter.step.
    cbn [TagFilter.pendingPrefix TagFilter.inFilterTag truthy]. rewrite Hlt.
    rewrite (IH Hx). now rewrite append_assoc.
Qed.

Lemma scan_close_exists (ts : list string) (buffer : string) :
  TagFilter.scan_close ts buffer
  = existsb (fun tag => includes buffer ("</" +:+ tag +:+ ">")) ts.
Proof.
  induction ts as [|tag ts IH]; [reflexivity|].
  cbn [TagFilter.scan_close existsb]. rewrite IH.
  now destruct (includes buffer _).
Qed.

Lemma step_in_tag (ts : list string) (buf : string) (c : ascii) :
  TagFilter.step (TagFilter.mk ts true buf EmptyString) c
  = if Ascii.eqb c ">"
       && (if endsWith (buf +:+ String c EmptyString) "/>" then true
           else TagFilter.scan_close ts (buf +:+ String c EmptyString))
    then (TagFilter.mk ts false EmptyString EmptyString, EmptyString)
    else (TagFilter.mk ts true (buf +:+ String c EmptyString) EmptyString, EmptyString).
Proof.
  unfold TagFilter.step.
  cbn [TagFilter.pendingPrefix TagFilter.inFilterTag TagFilter.tagBuffer
       TagFilter.tags truthy].
  destruct (Ascii.eqb c ">"); cbn [andb]; [|reflexivity].
  destruct (endsWith _ "/>"); [reflexivity|].
  destruct (TagFilter.scan_close ts _); reflexivity.
Qed.

(** Inside a tag, text that completes neither ["/>"] nor a closing tag is
    swallowed into the buffer. *)
Lemma filter_loop_in_tag (ts : list string) (x : string) :
  forall (buf acc : string),
    includes (buf +:+ x) "/>" = false ->
    (forall t, In t ts -> includes (buf +:+ x) ("</" +:+ t +:+ ">") = false) ->
    TagFilter.filter_loop (TagFilter.mk ts true buf EmptyString) x acc
    = (TagFilter.mk ts true (buf +:+ x) EmptyString, acc).
Proof.
  induction x as [|c x IH]; intros buf acc H1 H2.
  - cbn [TagFilter.filter_loop]. now rewrite append_nil_r.
  - cbn [TagFilter.filter_loop]. rewrite step_in_tag.
    assert (buf +:+ String c x = (buf +:+ String c EmptyString) +:+ x) as E
        by now rewrite append_assoc.
    rewrite E in H1.
    assert ((if endsWith (buf +:+ String c EmptyString) "/>" then true
             else TagFilter.scan_close ts (buf +:+ String c EmptyString)) = false) as ->.
    { destruct (endsWith _ "/>") eqn:Ee.
      - apply endsWith_includes in Ee.
        now rewrite (includes_app_l _ x _ Ee) in H1.
      - rewrite scan_close_exists. apply not_true_is_false. intros Hex.
        apply existsb_exists in Hex as (t & Ht & Hin).
        specialize (H2 t Ht). rewrite E in H2.
        now rewrite (includes_app_l _ x _ Hin) in H2. }
    rewrite andb_false_r, append_nil_r.
    rewrite IH; [now rewrite <- E| exact H1|].
    intros t Ht. rewrite <- E. now apply H2.
Qed.

(** Text without [">"] completes nothing. *)
Lemma filter_loop_in_tag_no_gt (ts : list string) (x : string) :
  includes x ">" = false ->
  forall (buf acc : string),
    TagFilter.filter_loop (TagFilter.mk ts true buf EmptyString) x acc
    = (TagFilter.mk ts true (buf +:+ x) EmptyString, acc).
Proof.
  induction x as [|c x IH]; intros H buf acc.
  - cbn [TagFilter.filter_loop]. now rewrite append_nil_r.
  - unfold includes in H; fold includes in H. apply orb_false_iff in H as [Hc Hx].
    assert (Ascii.eqb c ">" = false) as Hgt.
    { apply Ascii.eqb_neq. intros ->. destruct x; discriminate Hc. }
    cbn [TagFilter.filter_loop]. rewrite step_in_tag, Hgt. cbn [andb].
    rewrite append_nil_r, (IH Hx). now rewrite append_assoc.
Qed.

Lemma opens_tag_member (ts : list string) (tag x : string) :
  In tag ts -> TagFilter.opens_tag ts (("<" +:+ tag) +:+ x) = true.
Proof.
  intros H. unfold TagFilter.opens_tag. apply existsb_exists. exists tag.
  split; [exact H|]. unfold startsWith. apply prefix_self_app.
Qed.

Lemma open_prefix_member (ts : list string) (tag p rest : string) :
  In tag ts -> p +:+ rest = "<" +:+ tag -> TagFilter.open_prefix ts p = true.
Proof.
  intros H E. unfold TagFilter.open_prefix. apply existsb_exists. exists tag.
  split; [exact H|]. unfold startsWith. rewrite <- E. apply prefix_self_app.
Qed.

(** From a pending prefix of the opening tag of a configured name, the
    rest of the tag and what follows it, up to the closing tag, are
    swallowed. *)
Lemma filter_loop_opening (ts : list string) (tag inner : string) :
  In tag ts ->
  includes (("<" +:+ tag) +:+ inner) "/>" = false ->
  (forall t, In t ts -> includes (("<" +:+ tag) +:+ inner) ("</" +:+ t +:+ ">") = false) ->
  forall (rest : string) (c0 : ascii) (p buf acc : string),
    String c0 p +:+ rest = "<" +:+ tag ->
    TagFilter.opens_tag ts (String c0 p) = false ->
    TagFilter.filter_loop (TagFilter.mk ts false buf (String c0 p)) (rest +:+ inner) acc
    = (TagFilter.mk ts true (("<" +:+ tag) +:+ inner) EmptyString, acc).
Proof.
  intros Hin H1 H2. induction rest as [|c rest IH]; intros c0 p buf acc E Hno.
  - rewrite append_nil_r in E. rewrite E in Hno.
    pose proof (opens_tag_member ts tag EmptyString Hin) as Ho.
    rewrite append_nil_r in Ho. congruence.
  - change (String c rest +:+ inner) with (String c (rest +:+ inner)).
    cbn [TagFilter.filter_loop]. rewrite step_pending. cbn zeta.
    assert ((String c0 p +:+ String c EmptyString) +:+ rest = "<" +:+ tag) as E'
        by now rewrite append_assoc.
    destruct (TagFilter.opens_tag ts (String c0 p +:+ String c EmptyString)) eqn:Eo;
      cbv beta match.
    + rewrite append_nil_r.
      rewrite filter_loop_in_tag.
      * now rewrite <- append_assoc, E'.
      * now rewrite <- append_assoc, E'.
      * intros t Ht. rewrite <- append_assoc, E'. now apply H2.
    + rewrite (open_prefix_member ts tag _ rest Hin E'). cbv beta match.
      rewrite append_nil_r.
      change (String c0 p +:+ String c EmptyString)
        with (String c0 (p +:+ String c EmptyString)) in *.
      now apply IH.
Qed.

(** X9.  The behaviour the filter is there for.  Text that holds one
    element of a configured tag name, [a <tag inner </tag> b], where the
    text around the element has no ["<"], the name has no [">"], and the
    element up to its closing tag contains neither ["/>"] nor the closing
    tag of any configured name, is filtered to [a b]: the element is cut out
    with its content and every character outside it is kept. *)
Theorem filtered_element_is_cut_out
  (filterTags : list string) (tag a inner b : string) :
  In tag filterTags ->
  truthy tag = true ->
  includes tag ">" = false ->
  includes a "<" = false ->
  includes b "<" = false ->
  includes (("<" +:+ tag) +:+ inner) "/>" = false ->
  (forall t, In t filterTags ->
             includes (("<" +:+ tag) +:+ inner) ("</" +:+ t +:+ ">") = false) ->
  TagFilter.filterTagsFromContent
    (a +:+ (("<" +:+ tag) +:+ inner) +:+ ("</" +:+ tag +:+ ">") +:+ b) filterTags
  = a +:+ b.
Proof.
  intros Hin Htag Hgt Ha Hb H1 H2.
  unfold TagFilter.filterTagsFromContent.
  destruct filterTags as [|t0 rest0] eqn:Ef; [destruct Hin|]. rewrite <- Ef in *.
  unfold TagFilter.filter.
  set (ts := TagFilter.tags (TagFilter.new filterTags)).
  assert (In tag ts) as Hts.
  { subst ts. cbn [TagFilter.new TagFilter.tags]. apply List.filter_In. auto. }
  assert (forall t, In t ts -> In t filterTags) as Hsub.
  { subst ts. cbn [TagFilter.new TagFilter.tags]. intros t Ht.
    now apply List.filter_In in Ht. }
  assert (Forall (fun t => truthy t = true) ts) as Hall
      by (subst ts; apply new_tags_named).
  destruct ts as [|t1 ts'] eqn:Ets; [destruct Hts|]. rewrite <- Ets in *.
  change (TagFilter.new filterTags)
    with (TagFilter.mk (TagFilter.tags (TagFilter.new filterTags)) false EmptyString
            EmptyString).
  fold ts. rewrite Ets at 1. rewrite <- Ets.
  (* the text before the element *)
  rewrite filter_loop_app, (filter_loop_plain ts _ a Ha).
  change (EmptyString +:+ a) with a. cbv beta match.
  (* the opening bracket *)
  rewrite !append_assoc.
  change ("<" +:+ tag +:+ inner +:+ "</" +:+ tag +:+ ">" +:+ b)
    with (String "<" (tag +:+ inner +:+ "</" +:+ tag +:+ ">" +:+ b)).
  cbn [TagFilter.filter_loop]. unfold TagFilter.step at 1.
  cbn [TagFilter.pendingPrefix TagFilter.inFilterTag TagFilter.tags TagFilter.tagBuffer
       truthy Ascii.eqb Bool.eqb].
  rewrite append_nil_r.
  (* the element up to its closing tag *)
  rewrite <- (append_assoc tag inner).
  rewrite filter_loop_app.
  rewrite (filter_loop_opening ts tag inner Hts H1
             (fun t Ht => H2 t (Hsub t Ht)) tag "<" EmptyString EmptyString a
             eq_refl).
  2:{ apply (lone_bracket ts). split; [now rewrite Ets|exact Hall]. }
  cbv beta match.
  (* the closing tag *)
  rewrite <- (append_assoc "</" tag).
  change (">" +:+ b) with (String ">" b).
  rewrite filter_loop_app.
  rewrite filter_loop_in_tag_no_gt.
  2:{ change ("</" +:+ tag) with (String "<" (String "/" tag)).
      unfold includes; fold includes. now rewrite Hgt. }
  cbv beta match.
  cbn [TagFilter.filter_loop]. rewrite step_in_tag.
  match goal with
  | |- context [if endsWith ?x "/>" then true else TagFilter.scan_close ts ?x] =>
      assert ((if endsWith x "/>" then true else TagFilter.scan_close ts x) = true) as ->
  end.
  { destruct (endsWith _ "/>"); [reflexivity|].
    rewrite scan_close_exists. apply existsb_exists. exists tag. split; [exact Hts|].
    rewrite append_assoc. apply includes_app_r, includes_prefix.
    rewrite append_assoc. apply String.prefix_correct. rewrite substring_all.
    reflexivity. }
  cbn [Ascii.eqb Bool.eqb andb]. cbv beta match. rewrite append_nil_r.
  (* the text after the element *)
  rewrite (filter_loop_plain ts _ b Hb).
  cbn [TagFilter.flush TagFilter.pendingPrefix]. apply append_nil_r.
Qed.

(** X10.  Inside a filtered tag the filter writes nothing and keeps
    everything: a token without [">"] is swallowed whole and appended to the
    tag buffer, which therefore grows with the stream for as long as the tag
    is not closed. *)
Theorem unclosed_tag_swallows_the_stream (f : TagFilter.t) (token : string) :
  TagFilter.tags f <> [] ->
  TagFilter.inFilterTag f = true ->
  TagFilter.pendingPrefix f = EmptyString ->
  includes token ">" = false ->
  TagFilter.filter f token
  = (TagFilter.mk (TagFilter.tags f) true (TagFilter.tagBuffer f +:+ token) EmptyString,
     EmptyString).
Proof.
  destruct f as [ts inTag buf pend]. cbn. intros Hts -> -> H.
  unfold TagFilter.filter. cbn [TagFilter.tags].
  destruct ts as [|t ts]; [congruence|].
  now apply filter_loop_in_tag_no_gt.
Qed.

(** *** The filter only removes *)

Lemma length_append (a b : string) :
  String.length (a +:+ b) = (String.length a + String.length b)%nat.
Proof.
  induction a as [|c a IH]; [reflexivity|].
  change (String c a +:+ b) with (String c (a +:+ b)).
  cbn [String.length]. now rewrite IH.
Qed.

Lemma step_length (f : TagFilter.t) (c : ascii) :
  (String.length (snd (TagFilter.step f c))
   + String.length (TagFilter.pendingPrefix (fst (TagFilter.step f c)))
   <= String.length (TagFilter.pendingPrefix f) + 1)%nat.
Proof.
  destruct f as [ts inTag buf pend]. destruct pend as [|c0 p].
  - unfold TagFilter.step.
    cbn [TagFilter.pendingPrefix TagFilter.tags TagFilter.inFilterTag
         TagFilter.tagBuffer truthy].
    destruct inTag.
    + match goal with |- context [if ?b then (_, _) else (_, _)] => destruct b end;
        cbn; lia.
    + destruct (Ascii.eqb c "<"); cbn; lia.
  - rewrite step_pending. cbn zeta.
    destruct (TagFilter.opens_tag ts _); [cbn; lia|].
    destruct (TagFilter.open_prefix ts _);
      cbn [fst snd TagFilter.pendingPrefix]; rewrite ?length_append; cbn; lia.
Qed.

Lemma filter_loop_length (token : string) :
  forall (f : TagFilter.t) (acc : string),
    (String.length (snd (TagFilter.filter_loop f token acc))
     + String.length (TagFilter.pendingPrefix (fst (TagFilter.filter_loop f token acc)))
     <= String.length acc + String.length (TagFilter.pendingPrefix f)
        + String.length token)%nat.
Proof.
  induction token as [|c token IH]; intros f acc; cbn [TagFilter.filter_loop].
  - cbn. lia.
  - pose proof (step_length f c) as Hs.
    destruct (TagFilter.step f c) as [f' o]. cbn [fst snd] in Hs.
    specialize (IH f' (acc +:+ o)). rewrite length_append in IH.
    cbn [String.length]. lia.
Qed.

(** X11.  The filter only ever removes text.  What a call of [filter]
    returns, together with what it holds back as pending, is never longer
    than the token together with what was pending before; and the filtered
    content of the non-streaming path is never longer than the content. *)
Theorem filter_never_adds_text :
  (forall (f : TagFilter.t) (token : string),
      (String.length (snd (TagFilter.filter f token))
       + String.length (TagFilter.pendingPrefix (fst (TagFilter.filter f token)))
       <= String.length (TagFilter.pendingPrefix f) + String.length token)%nat)
  /\ (forall (content : string) (filterTags : list string),
         (String.length (TagFilter.filterTagsFromContent content filterTags)
          <= String.length content)%nat).
Proof.
  assert (forall (f : TagFilter.t) (token : string),
             (String.length (snd (TagFilter.filter f token))
              + String.length (TagFilter.pendingPrefix (fst (TagFilter.filter f token)))
              <= String.length (TagFilter.pendingPrefix f) + String.length token)%nat)
    as H.
  { intros f token. unfold TagFilter.filter.
    destruct (TagFilter.tags f); [cbn [fst snd]; lia|].
    pose proof (filter_loop_length token f EmptyString) as Hl. cbn in Hl. exact Hl. }
  split; [exact H|].
  intros content filterTags. unfold TagFilter.filterTagsFromContent.
  destruct filterTags as [|t ts]; [lia|].
  specialize (H (TagFilter.new (t :: ts)) content).
  destruct (TagFilter.filter (TagFilter.new (t :: ts)) content) as [f1 o].
  cbn [TagFilter.flush fst snd TagFilter.new TagFilter.pendingPrefix] in *.
  rewrite length_append. cbn [String.length] in H. lia.
Qed.

End TagFilterCuts.


(** ** The non-streaming path *)

Section CompletionFacts.
Import JS Completion.

Variable JSON_parse : string -> option json.
Variable URL_parse : string -> option Transcoder.URL.
Variable btoa : string -> string.
Variable opts : Opts.
Variable randomUUID : string.
Variable created : Z.

Lemma split_acc_line (sep : ascii) (line rest : string) :
  includes line (String sep EmptyString) = false ->
  forall cur : string,
    split_acc sep (line +:+ String sep rest) cur
    = (cur +:+ line) :: split_acc sep rest EmptyString.
Proof.
  induction line as [|c line IH]; intros H cur.
  - change (EmptyString +:+ String sep rest) with (String sep rest).
    cbn [split_acc]. now rewrite Ascii.eqb_refl, append_nil_r.
  - unfold includes in H; fold includes in H. apply orb_false_iff in H as [Hc Hl].
    change (String c line +:+ String sep rest) with (String c (line +:+ String sep rest)).
    cbn [split_acc].
    replace (Ascii.eqb c sep) with false.
    + rewrite (IH Hl). now rewrite append_assoc.
    + symmetry. apply Ascii.eqb_neq. intros ->. cbn [String.prefix] in Hc.
      destruct (ascii_dec sep sep); [|congruence]. destruct line; discriminate Hc.
Qed.

(** The first line of a body, when it is not blank. *)
Lemma lines_of_first (line rest : string) :
  includes line nl = false ->
  truthy (trim line) = true ->
  lines_of (line +:+ nl +:+ rest) = trim line :: lines_of rest.
Proof.
  intros Hn Ht. unfold lines_of, split.
  change (nl +:+ rest) with (String (ascii_of_nat 10) rest).
  rewrite (split_acc_line _ _ _ Hn).
  change (EmptyString +:+ line) with line.
  cbn [List.map List.filter]. now rewrite Ht.
Qed.

Lemma scan_unparsed (lines : list string) (content model : string) :
  (forall line, JSON_parse line = None) ->
  scan JSON_parse URL_parse btoa opts lines content model = inr (content, model).
Proof.
  intros Hn. induction lines as [|line lines IH]; cbn [scan]; [reflexivity|].
  now rewrite Hn.
Qed.

Lemma filter_nothing (filterTags : list string) :
  TagFilter.filterTagsFromContent EmptyString filterTags = EmptyString.
Proof.
  unfold TagFilter.filterTagsFromContent, TagFilter.filter.
  destruct filterTags as [|t ts]; [reflexivity|].
  destruct (TagFilter.tags (TagFilter.new (t :: ts))); reflexivity.
Qed.

(** A body none of whose lines parses as JSON (an empty body, an
    HTML error page) is not an error for the non-streaming path: the result
    is a completion with empty content, the requested model and
    [finish_reason] ["stop"]. *)
Theorem unparsable_body_gives_empty_completion (text : string) :
  (forall line, JSON_parse line = None) ->
  parseOpenAiFromGrokNdjson JSON_parse URL_parse btoa opts randomUUID created text
  = inr (completion randomUUID created (requestedModel opts) EmptyString).
Proof.
  intros Hn. unfold parseOpenAiFromGrokNdjson.
  rewrite scan_unparsed by exact Hn. now rewrite filter_nothing.
Qed.

(** X12.  The first chat reply settles the completion.  When the first
    line of the body is a frame whose [modelResponse] has a message (and no
    error and no [generatedImageUrls]), the content is that message with the
    configured tags filtered out, the model is the one of the frame (the
    requested model when the frame names none), and nothing that follows in
    the body is looked at: not a later reply, and not a later error frame. *)
Theorem first_reply_settles_the_completion (line rest model message : string) :
  Transcoder.carries JSON_parse line (reply_frame model message) ->
  parseOpenAiFromGrokNdjson JSON_parse URL_parse btoa opts randomUUID created
    (line +:+ nl +:+ rest)
  = inr (completion randomUUID created
           (if truthy model then model else requestedModel opts)
           (TagFilter.filterTagsFromContent message (filteredTags opts))).
Proof.
  intros (Hn & Ht & Hp). unfold parseOpenAiFromGrokNdjson.
  rewrite (lines_of_first _ _ Hn Ht). cbn [scan]. rewrite Hp.
  destruct model; reflexivity.
Qed.


End CompletionFacts.


(** ** The batch task manager: the streams of its observers *)

Section BatchStreamFacts.
Import JS BatchTask BatchStreams.

Lemma progress_then_final_app (e : BatchTaskEvent) (ms : list message) :
  progress_then_final false ms = true ->
  progress_then_final (is_final (e_type e)) (ms ++ [Event e]) = true.
Proof.
  induction ms as [|m ms IH]; cbn [progress_then_final app].
  - intros _. destruct (is_final (e_type e)); reflexivity.
  - destruct m as [s|e']; [discriminate|].
    destruct (is_final (e_type e')); [discriminate|exact IH].
Qed.

Lemma shaped_written (e : BatchTaskEvent) (s : Stream) :
  shaped s -> closed s = false ->
  shaped (mkStream (written s ++ [Event e]) (is_final (e_type e))).
Proof.
  unfold shaped. destruct s as [[|[snap|e0] ms] c]; cbn; try tauto.
  intros H ->. now apply progress_then_final_app.
Qed.

Lemma bridge_callback_shaped (n : nat) (event : BatchTaskEvent) (sys : System) :
  Forall shaped (streams sys) -> Forall shaped (streams (bridge_callback n event sys)).
Proof.
  intros Hs. unfold bridge_callback.
  destruct (streams sys !! n) as [s|] eqn:E; [|exact Hs].
  pose proof (Forall_lookup_1 _ _ _ _ Hs E) as Hsh.
  destruct (closed s) eqn:Ec; [exact Hs|].
  pose proof (shaped_written event s Hsh Ec) as Hw.
  destruct (is_final (e_type event)); cbn [streams]; apply Forall_insert; assumption.
Qed.

Lemma publish_shaped (event : BatchTaskEvent) (sys : System) :
  Forall shaped (streams sys) -> Forall shaped (streams (_publish event sys)).
Proof.
  unfold _publish. generalize (_callbacks (task sys)) as cbs.
  intros cbs. revert sys. induction cbs as [|cb cbs IH]; intros sys Hs; [exact Hs|].
  cbn [fold_left]. apply IH. now apply bridge_callback_shaped.
Qed.

(** The final event of a task is a final event. *)
Lemma apply_final_is_final (c : call) (sys : System) :
  (forall e, _finalEvent (task sys) = Some e -> is_final (e_type e) = true) ->
  forall e, _finalEvent (task (apply c sys)) = Some e -> is_final (e_type e) = true.
Proof.
  intros H e.
  destruct c as [args|result warning|error| | |]; cbn [apply].
  - unfold record. match goal with |- context [_publish ?ev ?s] => destruct (publish_task ev s) as [cbs ->] end. apply H.
  - unfold finish. match goal with |- context [_publish ?ev ?s] => destruct (publish_task ev s) as [cbs ->] end. cbn.
    intros E. now injection E as <-.
  - unfold failTask. match goal with |- context [_publish ?ev ?s] => destruct (publish_task ev s) as [cbs ->] end. cbn.
    intros E. now injection E as <-.
  - apply H.
  - unfold finishCancelled. match goal with |- context [_publish ?ev ?s] => destruct (publish_task ev s) as [cbs ->] end. cbn.
    intros E. now injection E as <-.
  - unfold createTaskSSEStream. destruct (_finalEvent (task sys)) eqn:Ef; cbn [fst task].
    + rewrite Ef. apply H.
    + unfold subscribe. destruct (existsb _ _); cbn; rewrite Ef; discriminate.
Qed.

Lemma apply_shaped (c : call) (sys : System) :
  (forall e, _finalEvent (task sys) = Some e -> is_final (e_type e) = true) ->
  Forall shaped (streams sys) -> Forall shaped (streams (apply c sys)).
Proof.
  intros Hf Hs. destruct c as [args|result warning|error| | |]; cbn [apply];
    try (now apply publish_shaped); [exact Hs|].
  unfold createTaskSSEStream.
  destruct (_finalEvent (task sys)) as [fe|] eqn:Efe; cbn [fst streams];
    apply Forall_app; (split; [exact Hs|]); constructor; try constructor.
  unfold shaped. cbn. now rewrite (Hf fe eq_refl).
Qed.

Lemma perform_shaped (calls : list call) :
  forall sys : System,
    (forall e, _finalEvent (task sys) = Some e -> is_final (e_type e) = true) ->
    Forall shaped (streams sys) ->
    Forall shaped (streams (perform calls sys)).
Proof.
  unfold perform. induction calls as [|c calls IH]; intros sys Hf Hs; [exact Hs|].
  cbn [fold_left]. apply IH; [now apply apply_final_is_final|now apply apply_shaped].
Qed.

(** X14.  What an observer reads from the stream of a task, whatever
    calls are made on the task and whenever the stream was opened: first the
    snapshot, then progress events only, then at most one final event ([done],
    [error] or [cancelled]) and nothing after it; and the stream is closed
    exactly when that final event was written. *)
Theorem every_stream_is_init_progress_then_one_final
  (randomUUID : string) (now total_ : Z) (calls : list call) :
  Forall shaped (streams (perform calls (fresh randomUUID now total_))).
Proof.
  apply perform_shaped; [discriminate|constructor].
Qed.

(** *** Subscribers *)

Lemma unsubscribe_callbacks (n m : nat) (task_ : BatchTask.t) :
  In m (_callbacks (unsubscribe n task_)) <-> In m (_callbacks task_) /\ m <> n.
Proof.
  unfold unsubscribe. cbn [with_callbacks _callbacks]. rewrite List.filter_In.
  destruct (Nat.eqb_spec n m); cbn [negb]; intuition congruence.
Qed.

Lemma bridge_callback_subscribed (n : nat) (event : BatchTaskEvent) (sys : System) :
  subscribed_are_open sys -> subscribed_are_open (bridge_callback n event sys).
Proof.
  intros H. unfold bridge_callback.
  destruct (streams sys !! n) as [s|] eqn:E; [|exact H].
  pose proof (lookup_lt_Some _ _ _ E) as Hlt.
  destruct (closed s) eqn:Ec; [|destruct (is_final (e_type event))];
    intros m; cbn [task streams].
  - rewrite unsubscribe_callbacks, (H m). split.
    + now intros [Hm _].
    + intros (s' & Hs' & Hc'). split; [now exists s'|].
      intros ->. congruence.
  - rewrite unsubscribe_callbacks, (H m). split.
    + intros [(s' & Hs' & Hc') Hne]. exists s'.
      now rewrite list_lookup_insert_ne by congruence.
    + intros (s' & Hs' & Hc'). apply list_lookup_insert_Some in Hs'.
      destruct Hs' as [(_ & <- & _)|[Hne Hs']]; [discriminate Hc'|].
      split; [now exists s'|congruence].
  - rewrite (H m). split.
    + intros (s' & Hs' & Hc'). destruct (Nat.eq_dec n m) as [->|Hne].
      * eexists. rewrite list_lookup_insert_eq by exact Hlt. split; reflexivity.
      * exists s'. now rewrite list_lookup_insert_ne by exact Hne.
    + intros (s' & Hs' & Hc'). apply list_lookup_insert_Some in Hs'.
      destruct Hs' as [(<- & _ & _)|[Hne Hs']]; [now exists s|now exists s'].
Qed.

Lemma fold_callbacks_subscribed (event : BatchTaskEvent) (cbs : list nat) :
  forall sys : System,
    subscribed_are_open sys ->
    subscribed_are_open (fold_left (fun acc cb => bridge_callback cb event acc) cbs sys).
Proof.
  induction cbs as [|cb cbs IH]; intros sys H; [exact H|].
  cbn [fold_left]. apply IH. now apply bridge_callback_subscribed.
Qed.

(** Publishing on a task whose fields other than the subscribers were
    changed. *)
Lemma publish_subscribed (event : BatchTaskEvent) (sys : System) :
  subscribed_are_open sys -> subscribed_are_open (_publish event sys).
Proof. apply fold_callbacks_subscribed. Qed.

Lemma apply_subscribed (c : call) (sys : System) :
  subscribed_are_open sys -> subscribed_are_open (apply c sys).
Proof.
  intros H. destruct c as [args|result warning|error| | |]; cbn [apply];
    try (apply publish_subscribed; exact H); [exact H|].
  unfold createTaskSSEStream.
  destruct (_finalEvent (task sys)) as [fe|]; cbn [fst]; intros m; cbn [task streams].
  - rewrite (H m). split.
    + intros (s & Hs & Hc). exists s. split; [|exact Hc].
      apply lookup_app_Some. now left.
    + intros (s & Hs & Hc). apply lookup_app_Some in Hs as [Hs|[_ Hs]]; [now exists s|].
      destruct (m - length (streams sys))%nat; [|discriminate Hs].
      injection Hs as <-. discriminate Hc.
  - assert (~ In (length (streams sys)) (_callbacks (task sys))) as Hnew.
    { intros Hin. apply H in Hin as (s & Hs & _).
      apply lookup_lt_Some in Hs. lia. }
    unfold subscribe.
    destruct (existsb _ _) eqn:Ex.
    { apply existsb_exists in Ex as (x & Hx & Ex). apply Nat.eqb_eq in Ex. now subst x. }
    cbn [with_callbacks _callbacks]. rewrite in_app_iff, (H m). cbn [In]. split.
    + intros [(s & Hs & Hc)|[<-|[]]].
      * exists s. split; [|exact Hc]. apply lookup_app_Some. now left.
      * exists (mkStream [Init (snapshot (task sys))] false). split; [|reflexivity].
        apply lookup_app_Some. right.
        split; [lia|]. now rewrite Nat.sub_diag.
    + intros (s & Hs & Hc). apply lookup_app_Some in Hs as [Hs|[Hle Hs]].
      * left. now exists s.
      * right. left. destruct (m - length (streams sys))%nat eqn:Ed; [lia|discriminate Hs].
Qed.

Lemma perform_subscribed (calls : list call) :
  forall sys : System, subscribed_are_open sys -> subscribed_are_open (perform calls sys).
Proof.
  unfold perform. induction calls as [|c calls IH]; intros sys H; [exact H|].
  cbn [fold_left]. apply IH. now apply apply_subscribed.
Qed.

Lemma fresh_subscribed (randomUUID : string) (now total_ : Z) :
  subscribed_are_open (fresh randomUUID now total_).
Proof.
  intros m. cbn. split; [tauto|]. intros (s & Hs & _). discriminate Hs.
Qed.

(** A final event takes every subscriber it is handed to out of the set. *)
Lemma bridge_callback_final (n : nat) (event : BatchTaskEvent) (sys : System) :
  is_final (e_type event) = true ->
  subscribed_are_open sys ->
  forall m : nat,
    In m (_callbacks (task (bridge_callback n event sys))) ->
    In m (_callbacks (task sys)) /\ m <> n.
Proof.
  intros Hf H m. unfold bridge_callback.
  destruct (streams sys !! n) as [s|] eqn:E.
  - rewrite Hf. destruct (closed s); cbn [task]; now rewrite unsubscribe_callbacks.
  - intros Hin. split; [exact Hin|]. intros ->.
    apply H in Hin as (s & Hs & _). congruence.
Qed.

Lemma fold_callbacks_final (event : BatchTaskEvent) (cbs : list nat) :
  is_final (e_type event) = true ->
  forall sys : System,
    subscribed_are_open sys ->
    forall m : nat,
      In m (_callbacks
              (task (fold_left (fun acc cb => bridge_callback cb event acc) cbs sys))) ->
      In m (_callbacks (task sys)) /\ ~ In m cbs.
Proof.
  intros Hf. induction cbs as [|cb cbs IH]; intros sys H m; cbn [fold_left].
  - intros Hin. split; [exact Hin|intros []].
  - intros Hin.
    apply (IH _ (bridge_callback_subscribed cb event sys H)) in Hin as [Hin Hno].
    apply (bridge_callback_final cb event sys Hf H) in Hin as [Hin Hne].
    split; [exact Hin|]. cbn [In]. intros [->|Hc]; [congruence|contradiction].
Qed.

Lemma publish_final (event : BatchTaskEvent) (sys : System) :
  is_final (e_type event) = true ->
  subscribed_are_open sys ->
  _callbacks (task (_publish event sys)) = [].
Proof.
  intros Hf H. unfold _publish.
  destruct (_callbacks (task (fold_left _ _ sys))) as [|m l] eqn:E; [reflexivity|].
  destruct (fold_callbacks_final event (_callbacks (task sys)) Hf sys H m) as [Hin Hno].
  - rewrite E. now left.
  - contradiction.
Qed.

(** X15.  A terminal call ([finish], [failTask] or [finishCancelled])
    leaves nothing behind: after it, whatever calls came before and however
    many observers had opened a stream, every stream of the task is closed
    and the task has no subscriber left. *)
Theorem terminal_call_closes_every_stream
  (randomUUID : string) (now total_ : Z) (calls : list call) (c : call) :
  terminal c = true ->
  let sys := apply c (perform calls (fresh randomUUID now total_)) in
  _callbacks (task sys) = [] /\ Forall (fun s => closed s = true) (streams sys).
Proof.
  intros Ht sys.
  pose proof (perform_subscribed calls _ (fresh_subscribed randomUUID now total_)) as H0.
  assert (_callbacks (task sys) = []) as Hcb.
  { subst sys. destruct c as [args|result warning|error| | |]; try discriminate Ht;
      cbn [apply]; apply publish_final; try reflexivity; exact H0. }
  split; [exact Hcb|].
  pose proof (apply_subscribed c _ H0) as H1. fold sys in H1.
  apply Forall_lookup_2. intros n s Hs.
  destruct (closed s) eqn:Ec; [reflexivity|].
  assert (In n (_callbacks (task sys))) as Hin by (apply H1; now exists s).
  rewrite Hcb in Hin. destruct Hin.
Qed.

End BatchStreamFacts.


(** ** Running a batch *)

Section BatchesFacts.
Import JS BatchTask Batches.

Variable processor : json -> exn + Result.

Lemma record_keeps (args : RecordArgs) (sys_ : System) :
  _cancelled (task (record args sys_)) = _cancelled (task sys_)
  /\ _processed (task (record args sys_)) = _processed (task sys_) + 1
  /\ _status (task (record args sys_)) = _status (task sys_)
  /\ _finalEvent (task (record args sys_)) = _finalEvent (task sys_).
Proof.
  unfold record.
  match goal with
  | |- context [_publish ?ev ?s] => destruct (publish_task ev s) as [cbs ->]
  end.
  repeat split.
Qed.

(** The three ways the head of the loop goes. *)
Lemma take_cases (q : list value) (cancelled : bool) :
  (take q cancelled = (Finished, q) /\ (cancelled = true \/ q = []))
  \/ (exists rest, q = None :: rest /\ cancelled = false
                   /\ take q cancelled = (Finished, rest))
  \/ (exists item rest,
         q = Some item :: rest /\ cancelled = false
         /\ take q cancelled = (Awaiting item, rest)).
Proof.
  destruct q as [|[item|] rest]; cbn [take].
  - left. auto.
  - destruct cancelled; [left; auto|right; right]. now exists item, rest.
  - destruct cancelled; [left; auto|right; left]. now exists rest.
Qed.

Lemma in_flight_app (ws1 ws2 : list worker) :
  in_flight (ws1 ++ ws2) = (in_flight ws1 ++ in_flight ws2)%list.
Proof. apply flat_map_app. Qed.

Lemma in_flight_cons (w : worker) (ws : list worker) :
  in_flight (w :: ws) = (in_flight [w] ++ in_flight ws)%list.
Proof. unfold in_flight. cbn [flat_map]. now rewrite app_nil_r. Qed.

(** Replacing a waiting worker: its item leaves the items in flight. *)
Lemma in_flight_replace (ws : list worker) :
  forall (i : nat) (item : json) (w : worker),
    ws !! i = Some (Awaiting item) ->
    Permutation (Some item :: in_flight (<[i := w]> ws)) (in_flight [w] ++ in_flight ws).
Proof.
  induction ws as [|x ws IH]; intros i item w H; [discriminate H|].
  destruct i as [|i].
  - injection H as ->. change (<[0%nat := w]> (Awaiting item :: ws)) with (w :: ws).
    rewrite (in_flight_cons w), (in_flight_cons (Awaiting item)).
    change (in_flight [Awaiting item]) with [Some item].
    cbn [app]. apply Permutation_middle.
  - change (<[S i := w]> (x :: ws)) with (x :: <[i := w]> ws).
    rewrite (in_flight_cons x (<[i := w]> ws)), (in_flight_cons x ws).
    specialize (IH i item w H).
    rewrite Permutation_middle, IH.
    rewrite !app_assoc. apply Permutation_app_tail, Permutation_app_comm.
Qed.

Lemma finished_in_flight (ws : list worker) :
  forallb is_finished ws = true -> in_flight ws = [].
Proof.
  induction ws as [|[item|] ws IH]; cbn [forallb is_finished andb]; intros H;
    [reflexivity|discriminate H|].
  rewrite in_flight_cons. now rewrite IH.
Qed.

Lemma waiting_exists (ws : list worker) :
  forallb is_finished ws = false ->
  exists i item, ws !! i = Some (Awaiting item).
Proof.
  induction ws as [|[item|] ws IH]; cbn [forallb is_finished andb]; intros H.
  - discriminate H.
  - now exists 0%nat, item.
  - destruct (IH H) as (i & item & Hi). now exists (S i), item.
Qed.

Lemma Exists_insert (ws : list worker) (i : nat) (w : worker) (P : worker -> Prop) :
  Exists P (<[i := w]> ws) -> P w \/ Exists P ws.
Proof.
  revert i. induction ws as [|x ws IH]; intros i H; [now right|].
  destruct i as [|i].
  - change (<[0%nat := w]> (x :: ws)) with (w :: ws) in H.
    apply Exists_cons in H as [H|H]; [now left|right]. now apply Exists_cons_tl.
  - change (<[S i := w]> (x :: ws)) with (x :: <[i := w]> ws) in H.
    apply Exists_cons in H as [H|H]; [right; now apply Exists_cons_hd|].
    destruct (IH i H) as [Hw|He]; [now left|right]. now apply Exists_cons_tl.
Qed.

Lemma stopped_app (ws1 ws2 : list worker) :
  stopped (ws1 ++ ws2) = (stopped ws1 + stopped ws2)%nat.
Proof. unfold stopped. now rewrite List.filter_app, List.length_app. Qed.

(** A waiting worker that is replaced: one more has stopped when it left
    its loop. *)
Lemma stopped_insert (ws : list worker) :
  forall (i : nat) (item : json) (w : worker),
    ws !! i = Some (Awaiting item) ->
    stopped (<[i := w]> ws) = (stopped ws + (if is_finished w then 1 else 0))%nat.
Proof.
  induction ws as [|x ws IH]; intros i item w H; [discriminate H|].
  destruct i as [|i].
  - injection H as ->. change (<[0%nat := w]> (Awaiting item :: ws)) with (w :: ws).
    unfold stopped. cbn [List.filter is_finished].
    destruct (is_finished w); cbn [List.length]; lia.
  - change (<[S i := w]> (x :: ws)) with (x :: <[i := w]> ws).
    specialize (IH i item w H). unfold stopped in *. cbn [List.filter].
    destruct (is_finished x); cbn [List.length]; lia.
Qed.

Lemma outcome_item (item : json) : a_item (outcome processor item) = Some item.
Proof. unfold outcome. now destruct (processor item). Qed.

(** *** What every step of a run keeps *)

(** The account of the items and the counters of the task, for every list
    of items. *)
Lemma resume_keeps (items : list value) (sys0 : System) (i : nat) (st : state) :
  (exists k, accounted items k st) /\ counted sys0 st ->
  (exists k, accounted items k (resume processor i st))
  /\ counted sys0 (resume processor i st).
Proof.
  intros ((k & Ha & Hk) & (Hc1 & Hc2 & Hc3)). unfold resume.
  destruct (workers st !! i) as [[item|]|] eqn:Ei;
    try (split; [exists k; split; assumption|repeat split; assumption]).
  destruct (record_keeps (outcome processor item) (sys st)) as (Hk1 & Hk2 & Hk3 & Hk4).
  assert (forall (w : worker) (q : list value),
             counted sys0
               (mkState q (<[i := w]> (workers st))
                  (record (outcome processor item) (sys st))
                  (recorded st ++ [outcome processor item]))) as Hcount.
  { intros w q. unfold counted. cbn [sys recorded].
    rewrite Hk2, Hk3, Hk4, List.length_app. cbn [List.length].
    repeat split; try assumption. lia. }
  assert (forall (w : worker) (tail : list value),
             Permutation
               (List.map a_item (recorded st ++ [outcome processor item])
                ++ in_flight (<[i := w]> (workers st)) ++ tail)
               (List.map a_item (recorded st)
                ++ in_flight [w] ++ in_flight (workers st) ++ tail)) as Hperm.
  { intros w tail. rewrite List.map_app, <- app_assoc. apply Permutation_app_head.
    cbn [List.map app]. rewrite outcome_item.
    change (Some item :: in_flight (<[i := w]> (workers st)) ++ tail)
      with ((Some item :: in_flight (<[i := w]> (workers st))) ++ tail)%list.
    rewrite (in_flight_replace _ _ _ w Ei). now rewrite <- app_assoc. }
  destruct (take_cases (queue st)
              (_cancelled (task (record (outcome processor item) (sys st)))))
    as [[-> _]|[(rest & Hq & _ & ->)|(next & rest & Hq & _ & ->)]];
    (split; [|apply Hcount]).
  - (* the worker leaves its loop *)
    exists k. split; cbn [queue workers sys recorded].
    + rewrite Hperm. exact Ha.
    + rewrite (stopped_insert _ _ _ Finished Ei). cbn [is_finished]. lia.
  - (* the worker shifts an undefined item off the queue and leaves *)
    exists (S k). split; cbn [queue workers sys recorded].
    + rewrite Hperm, <- Ha, Hq. apply Permutation_app_head.
      cbn [in_flight flat_map app List.repeat]. apply Permutation_app_head.
      symmetry. apply Permutation_middle.
    + rewrite (stopped_insert _ _ _ Finished Ei). cbn [is_finished]. lia.
  - (* the worker takes the next item *)
    exists k. split; cbn [queue workers sys recorded].
    + rewrite Hperm, <- Ha, Hq. apply Permutation_app_head.
      change (in_flight [Awaiting next]) with [Some next]. cbn [app].
      apply Permutation_middle.
    + rewrite (stopped_insert _ _ _ (Awaiting next) Ei). cbn [is_finished]. lia.
Qed.

(** For a queue without [undefined] items: a worker only leaves its loop
    because the queue is empty or the task cancelled. *)
Lemma resume_keeps_cause (i : nat) (st : state) :
  left_for_cause st /\ defined (queue st) ->
  left_for_cause (resume processor i st) /\ defined (queue (resume processor i st)).
Proof.
  intros (Hl & Hd). unfold resume.
  destruct (workers st !! i) as [[item|]|] eqn:Ei; try (split; assumption).
  destruct (record_keeps (outcome processor item) (sys st)) as (Hk1 & _).
  destruct (take_cases (queue st)
              (_cancelled (task (record (outcome processor item) (sys st)))))
    as [[-> Hcause]|[(rest & Hq & _)|(next & rest & Hq & Hcan & ->)]].
  - split; [|exact Hd]. intros _. exact Hcause.
  - rewrite Hq in Hd. apply Forall_inv in Hd. congruence.
  - split.
    + unfold left_for_cause. cbn [sys queue workers]. intros He.
      apply Exists_insert in He as [He|He]; [discriminate He|].
      destruct (Hl He) as [Hx|Hx]; [|congruence].
      rewrite Hk1 in Hcan. congruence.
    + cbn [queue]. rewrite Hq in Hd. now apply Forall_inv_tail in Hd.
Qed.

Lemma step_keeps (items : list value) (sys0 : System) (e : event) (st : state) :
  (exists k, accounted items k st) /\ counted sys0 st ->
  (exists k, accounted items k (step processor e st))
  /\ counted sys0 (step processor e st).
Proof.
  destruct e as [i|]; cbn [step]; [apply resume_keeps|]. intros H. exact H.
Qed.

Lemma step_keeps_cause (e : event) (st : state) :
  left_for_cause st /\ defined (queue st) ->
  left_for_cause (step processor e st) /\ defined (queue (step processor e st)).
Proof.
  destruct e as [i|]; cbn [step]; [apply resume_keeps_cause|].
  intros (Hl & Hd). split; [|exact Hd]. intros _. now left.
Qed.

Lemma start_keeps (items : list value) (sys0 : System) (st : state) :
  (exists k, accounted items k st) /\ counted sys0 st ->
  (exists k, accounted items k (start st)) /\ counted sys0 (start st).
Proof.
  intros ((k & Ha & Hk) & Hc). unfold start.
  destruct (take_cases (queue st) (_cancelled (task (sys st))))
    as [[-> _]|[(rest & Hq & _ & ->)|(next & rest & Hq & _ & ->)]];
    (split; [|exact Hc]).
  - exists k. split; cbn [queue workers sys recorded].
    + rewrite in_flight_app. cbn [in_flight flat_map app]. now rewrite app_nil_r.
    + rewrite stopped_app. lia.
  - exists (S k). split; cbn [queue workers sys recorded].
    + rewrite <- Ha, Hq, in_flight_app. cbn [in_flight flat_map app List.repeat].
      rewrite app_nil_r. do 2 apply Permutation_app_head.
      symmetry. apply Permutation_middle.
    + rewrite stopped_app. unfold stopped at 2. cbn. lia.
  - exists k. split; cbn [queue workers sys recorded].
    + rewrite <- Ha, Hq, in_flight_app. change (in_flight [Awaiting next]) with [Some next].
      apply Permutation_app_head. rewrite <- app_assoc. reflexivity.
    + rewrite stopped_app. lia.
Qed.

Lemma start_keeps_cause (st : state) :
  left_for_cause st /\ defined (queue st) ->
  left_for_cause (start st) /\ defined (queue (start st)).
Proof.
  intros (Hl & Hd). unfold start.
  destruct (take_cases (queue st) (_cancelled (task (sys st))))
    as [[-> Hcause]|[(rest & Hq & _)|(next & rest & Hq & Hcan & ->)]].
  - split; [|exact Hd]. intros _. exact Hcause.
  - rewrite Hq in Hd. apply Forall_inv in Hd. congruence.
  - split.
    + unfold left_for_cause. cbn [queue workers sys]. intros He.
      apply Exists_app in He as [He|He].
      * destruct (Hl He) as [Hx|Hx]; congruence.
      * apply Exists_cons in He as [He|He]; [discriminate He|inversion He].
    + cbn [queue]. rewrite Hq in Hd. now apply Forall_inv_tail in Hd.
Qed.

Lemma spawn_keeps (items : list value) (sys0 : System) (n : nat) :
  forall st : state,
    (exists k, accounted items k st) /\ counted sys0 st ->
    (exists k, accounted items k (spawn n st)) /\ counted sys0 (spawn n st).
Proof.
  induction n as [|n IH]; intros st H; cbn [spawn]; [exact H|].
  now apply IH, start_keeps.
Qed.

Lemma spawn_keeps_cause (n : nat) :
  forall st : state,
    left_for_cause st /\ defined (queue st) ->
    left_for_cause (spawn n st) /\ defined (queue (spawn n st)).
Proof.
  induction n as [|n IH]; intros st H; cbn [spawn]; [exact H|].
  now apply IH, start_keeps_cause.
Qed.

(** A run that ends has ended in a state that keeps the account and the
    counters and in which every worker has finished. *)
Lemma run_keeps (items : list value) (sys0 : System) (schedule : list event) :
  forall st st' : state,
    (exists k, accounted items k st) /\ counted sys0 st ->
    run processor schedule st = Some st' ->
    exists last : state,
      st' = conclude last
      /\ forallb is_finished (workers last) = true
      /\ (exists k, accounted items k last) /\ counted sys0 last
      /\ (left_for_cause st /\ defined (queue st) -> left_for_cause last)
      /\ (_cancelled (task (sys st)) = false ->
          forallb is_settle schedule = true ->
          _cancelled (task (sys last)) = false)
      /\ List.length (workers last) = List.length (workers st).
Proof.
  induction schedule as [|e schedule IH]; intros st st' H; cbn [run];
    destruct (forallb is_finished (workers st)) eqn:Ef; intros E;
    try discriminate E.
  - injection E as <-. exists st. destruct H as (Ha & Hc). tauto.
  - injection E as <-. exists st. destruct H as (Ha & Hc). tauto.
  - destruct (IH _ _ (step_keeps items sys0 e st H) E)
      as (last & -> & Hf & Ha & Hc & Hl & Hn & Hlen).
    exists last. split; [reflexivity|]. split; [exact Hf|]. split; [exact Ha|].
    split; [exact Hc|]. split; [|split].
    + intros Hd. now apply Hl, step_keeps_cause.
    + intros Hcan Hs. cbn [forallb] in Hs. apply andb_true_iff in Hs as [He Hs].
      apply Hn; [|exact Hs]. destruct e as [i|]; [|discriminate He].
      cbn [step]. unfold resume.
      destruct (workers st !! i) as [[item|]|]; try exact Hcan.
      destruct (take _ _). cbn [sys].
      now rewrite (proj1 (record_keeps _ _)).
    + rewrite Hlen. destruct e as [i|]; [|reflexivity]. cbn [step]. unfold resume.
      destruct (workers st !! i) as [[item|]|]; try reflexivity.
      destruct (take _ _). cbn [workers]. apply length_insert.
Qed.

Lemma spawn_length (n : nat) :
  forall st : state, List.length (workers (spawn n st)) = (List.length (workers st) + n)%nat.
Proof.
  induction n as [|n IH]; intros st; cbn [spawn]; [lia|].
  rewrite IH. unfold start. destruct (take _ _). cbn [workers].
  rewrite List.length_app. cbn [List.length]. lia.
Qed.

Lemma spawn_cancelled (n : nat) :
  forall st : state, _cancelled (task (sys (spawn n st))) = _cancelled (task (sys st)).
Proof.
  induction n as [|n IH]; intros st; cbn [spawn]; [reflexivity|].
  rewrite IH. unfold start. now destruct (take _ _).
Qed.

Lemma initial_keeps (items : list value) (sys0 : System) :
  let st := mkState items [] sys0 [] in
  (exists k, accounted items k st) /\ counted sys0 st.
Proof.
  cbn zeta. split.
  - exists 0%nat. split; cbn; [now rewrite app_nil_r|lia].
  - unfold counted. cbn. repeat split. lia.
Qed.

Lemma initial_keeps_cause (items : list value) (sys0 : System) :
  defined items ->
  let st := mkState items [] sys0 [] in
  left_for_cause st /\ defined (queue st).
Proof. intros Hd. cbn zeta. split; [|exact Hd]. intros He. inversion He. Qed.

(** What is recorded is the outcome of a processor call. *)
Lemma step_outcomes (e : event) (st : state) :
  Forall (fun args => exists item, a_item args = Some item
                                   /\ args = outcome processor item) (recorded st) ->
  Forall (fun args => exists item, a_item args = Some item
                                   /\ args = outcome processor item)
    (recorded (step processor e st)).
Proof.
  intros H. destruct e as [i|]; cbn [step]; [|exact H]. unfold resume.
  destruct (workers st !! i) as [[item|]|]; try exact H.
  destruct (take _ _). cbn [recorded]. apply Forall_app. split; [exact H|].
  constructor; [|constructor]. exists item. split; [|reflexivity].
  apply outcome_item.
Qed.

Lemma run_outcomes (schedule : list event) :
  forall st st' : state,
    Forall (fun args => exists item, a_item args = Some item
                                     /\ args = outcome processor item) (recorded st) ->
    run processor schedule st = Some st' ->
    Forall (fun args => exists item, a_item args = Some item
                                     /\ args = outcome processor item) (recorded st').
Proof.
  induction schedule as [|e schedule IH]; intros st st' H; cbn [run];
    destruct (forallb is_finished (workers st)); intros E; try discriminate E;
    try (injection E as <-; unfold conclude;
         destruct (_cancelled (task (sys st))); exact H).
  exact (IH _ _ (step_outcomes e st H) E).
Qed.

Lemma spawn_recorded (n : nat) :
  forall st : state, recorded (spawn n st) = recorded st.
Proof.
  induction n as [|n IH]; intros st; cbn [spawn]; [reflexivity|].
  rewrite IH. unfold start. now destruct (take _ _).
Qed.

Lemma conclude_keeps (st : state) :
  queue (conclude st) = queue st /\ recorded (conclude st) = recorded st
  /\ workers (conclude st) = workers st
  /\ _processed (task (sys (conclude st))) = _processed (task (sys st))
  /\ _cancelled (task (sys (conclude st))) = _cancelled (task (sys st)).
Proof.
  unfold conclude. destruct (_cancelled (task (sys st))) eqn:E; [|auto].
  cbn [queue recorded workers sys]. unfold finishCancelled.
  match goal with
  | |- context [_publish ?ev ?s] => destruct (publish_task ev s) as [cbs ->]
  end.
  cbn. auto.
Qed.

Lemma skipped_none (items l : list value) (k : nat) :
  Permutation (l ++ List.repeat None k) items -> defined items -> k = 0%nat.
Proof.
  intros Hp Hd. destruct k as [|k]; [reflexivity|]. exfalso.
  assert (In None items) as Hin.
  { eapply Permutation_in; [exact Hp|]. apply List.in_or_app. right. now left. }
  unfold defined in Hd. rewrite Forall_forall in Hd.
  now apply (Hd None); [apply list_elem_of_In|].
Qed.

(** X16.  No item is processed twice, and the only items that can be lost
    are [undefined] ones, under every interleaving of the workers and
    whenever [cancel()] is called.  When a run over a list of items ends, the
    items are, each once: those handed to [task.record], each with the
    outcome of its own processor call (a rejection is recorded as a failure
    with the message of the error); those still in the queue; and some
    [undefined] items that were shifted off the queue by a worker, which then
    left its loop without recording anything (at most one for each worker,
    and none when no item is [undefined]).  The task's [processed] counter
    went up by the number of records. *)
Theorem every_item_is_recorded_once_or_left_in_the_queue
  (items : list value) (sys0 : System) (concurrency : Z) (schedule : list event)
  (st' : state) :
  runInBatches processor items sys0 concurrency schedule = Some st' ->
  (exists skipped : nat,
      Permutation
        (List.map a_item (recorded st') ++ queue st' ++ List.repeat None skipped) items
      /\ (skipped <= List.length (workers st'))%nat
      /\ (defined items -> skipped = 0%nat))
  /\ Forall (fun args => exists item, a_item args = Some item
                                      /\ args = outcome processor item)
       (recorded st')
  /\ _processed (task (sys st'))
     = _processed (task sys0) + Z.of_nat (List.length (recorded st')).
Proof.
  unfold runInBatches. intros E.
  destruct (run_keeps _ sys0 _ _ _ (spawn_keeps _ sys0 _ _ (initial_keeps items sys0)) E)
    as (last & -> & Hf & (k & Ha & Hk) & (Hc & _) & _).
  destruct (conclude_keeps last) as (Hq & Hr & Hw & Hp & _).
  rewrite (finished_in_flight _ Hf) in Ha. cbn [app] in Ha.
  split; [|split].
  - exists k. rewrite Hq, Hr, Hw. split; [exact Ha|]. split.
    + etransitivity; [exact Hk|]. unfold stopped. apply List.filter_length_le.
    + apply (skipped_none items (List.map a_item (recorded last) ++ queue last)).
      now rewrite <- app_assoc.
  - apply run_outcomes in E; [exact E|]. rewrite spawn_recorded. constructor.
  - now rewrite Hp, Hr.
Qed.

(** X17.  A run that is not cancelled drains the queue, and leaves the
    task open.  When no item is [undefined], the task is not cancelled at
    the start, [cancel()] is not called during the run and the concurrency
    is at least one, a run that ends has recorded every item exactly once,
    under every interleaving of the workers; the status of the task and its
    final event are what they were: [runInBatches] never calls [finish],
    which is left to the caller.  (An [undefined] item stops the worker that
    takes it, so that a run can end with items left in the queue.) *)
Theorem uncancelled_run_records_every_item
  (items : list value) (sys0 : System) (concurrency : Z) (schedule : list event)
  (st' : state) :
  defined items ->
  _cancelled (task sys0) = false ->
  forallb is_settle schedule = true ->
  0 < concurrency ->
  runInBatches processor items sys0 concurrency schedule = Some st' ->
  Permutation (List.map a_item (recorded st')) items
  /\ queue st' = []
  /\ _processed (task (sys st')) = _processed (task sys0) + Z.of_nat (List.length items)
  /\ _status (task (sys st')) = _status (task sys0)
  /\ _finalEvent (task (sys st')) = _finalEvent (task sys0).
Proof.
  unfold runInBatches. intros Hdef Hcan Hs Hpos E.
  destruct (run_keeps _ sys0 _ _ _ (spawn_keeps _ sys0 _ _ (initial_keeps items sys0)) E)
    as (last & -> & Hf & (k & Ha & _) & (Hc1 & Hc2 & Hc3) & Hl & Hn & Hlen).
  specialize (Hl (spawn_keeps_cause _ _ (initial_keeps_cause items sys0 Hdef))).
  rewrite spawn_cancelled in Hn. specialize (Hn Hcan Hs).
  unfold conclude. rewrite Hn.
  rewrite (finished_in_flight _ Hf) in Ha. cbn [app] in Ha.
  assert (k = 0%nat) as ->.
  { apply (skipped_none items (List.map a_item (recorded last) ++ queue last));
      [now rewrite <- app_assoc|exact Hdef]. }
  cbn [List.repeat] in Ha. rewrite app_nil_r in Ha.
  assert (queue last = []) as Hq.
  { destruct (workers last) as [|w ws] eqn:Ew.
    - rewrite spawn_length in Hlen. cbn [workers List.length] in Hlen.
      assert (items = []) as -> by (destruct items; [reflexivity|cbn in Hlen; lia]).
      apply Permutation_nil_r in Ha. now apply app_eq_nil in Ha.
    - destruct Hl as [Hx|Hx]; [|congruence|exact Hx].
      rewrite Ew. apply Exists_cons_hd.
      cbn [forallb] in Hf. apply andb_true_iff in Hf as [Hw _]. now destruct w. }
  rewrite Hq, app_nil_r in Ha.
  split; [exact Ha|]. split; [exact Hq|]. split; [|auto].
  rewrite Hc1. f_equal. f_equal.
  apply Permutation_length in Ha. now rewrite List.length_map in Ha.
Qed.

Lemma in_flight_single (w : worker) :
  List.length (in_flight [w]) = if is_finished w then 0%nat else 1%nat.
Proof. now destruct w. Qed.

(** The schedule of a run is there to settle what is awaited: a state is
    never stuck. *)
Lemma resume_measure (i : nat) (item : json) (st : state) :
  workers st !! i = Some (Awaiting item) ->
  (List.length (queue (resume processor i st))
   + List.length (in_flight (workers (resume processor i st)))
   < List.length (queue st) + List.length (in_flight (workers st)))%nat.
Proof.
  intros Ei. unfold resume. rewrite Ei.
  destruct (take_cases (queue st)
              (_cancelled (task (record (outcome processor item) (sys st)))))
    as [[-> _]|[(rest & Hq & _ & ->)|(next & rest & Hq & _ & ->)]];
    cbn [queue workers];
    match goal with
    | |- context [<[i := ?w]> (workers st)] =>
        pose proof (Permutation_length (in_flight_replace _ _ _ w Ei)) as Hlen
    end;
    rewrite List.length_app, in_flight_single in Hlen;
    cbn [List.length is_finished] in Hlen;
    rewrite ?Hq; cbn [List.length]; unfold value in *; lia.
Qed.

(** X18.  A run never gets stuck.  From the start of
    [runInBatches], whatever the items (even [undefined] ones), the task and
    the concurrency, there is a schedule that only settles awaited processor
    calls, at most one per item, under which the run ends: no worker waits
    for anything but its processor. *)
Theorem a_run_ends_once_its_processors_settle
  (items : list value) (sys0 : System) (concurrency : Z) :
  exists (schedule : list event) (st' : state),
    forallb is_settle schedule = true
    /\ (List.length schedule <= List.length items)%nat
    /\ runInBatches processor items sys0 concurrency schedule = Some st'.
Proof.
  assert (forall (n : nat) (st : state),
             (List.length (queue st) + List.length (in_flight (workers st)) <= n)%nat ->
             exists schedule st',
               forallb is_settle schedule = true
               /\ (List.length schedule <= n)%nat
               /\ run processor schedule st = Some st') as Hrun.
  { induction n as [|n IH]; intros st Hm.
    - exists [], (conclude st). split; [reflexivity|]. split; [cbn; lia|].
      cbn [run]. destruct (forallb is_finished (workers st)) eqn:Ef; [reflexivity|].
      apply waiting_exists in Ef as (i & item & Ei).
      pose proof (resume_measure i item st Ei). lia.
    - destruct (forallb is_finished (workers st)) eqn:Ef.
      + exists [], (conclude st). split; [reflexivity|]. split; [cbn; lia|].
        cbn [run]. now rewrite Ef.
      + apply waiting_exists in Ef as Hw. destruct Hw as (i & item & Ei).
        pose proof (resume_measure i item st Ei) as Hlt.
        destruct (IH (resume processor i st)) as (schedule & st' & Hs & Hl & E); [lia|].
        exists (Settle i :: schedule), st'. split; [exact Hs|]. split; [cbn; lia|].
        cbn [run step]. now rewrite Ef. }
  unfold runInBatches. apply Hrun.
  assert (forall (n : nat) (st : state),
             (List.length (queue (spawn n st))
              + List.length (in_flight (workers (spawn n st)))
              <= List.length (queue st) + List.length (in_flight (workers st)))%nat)
    as Hspawn.
  { induction n as [|n IH]; intros st; cbn [spawn]; [lia|].
    etransitivity; [apply IH|]. unfold start.
    destruct (take_cases (queue st) (_cancelled (task (sys st))))
      as [[-> _]|[(rest & Hq & _ & ->)|(next & rest & Hq & _ & ->)]];
      cbn [queue workers]; rewrite in_flight_app, List.length_app, in_flight_single, ?Hq;
      cbn [List.length is_finished]; unfold value in *; lia. }
  etransitivity; [apply Hspawn|]. cbn. lia.
Qed.



(** X20.  [cancel()] freezes the queue.  From any state of a run in which
    the task is cancelled, a run that ends has taken no further item from the
    queue; what it has recorded since are exactly the items that were being
    processed when the state was reached, each once and each with the
    outcome of its own processor call; and it has concluded the task as
    cancelled. *)
Theorem cancelled_run_only_finishes_what_is_in_flight
  (schedule : list event) (st st' : state) :
  _cancelled (task (sys st)) = true ->
  run processor schedule st = Some st' ->
  queue st' = queue st
  /\ (exists added : list RecordArgs,
         recorded st' = (recorded st ++ added)%list
         /\ Permutation (List.map a_item added) (in_flight (workers st))
         /\ Forall (fun args => exists item, a_item args = Some item
                                             /\ args = outcome processor item) added)
  /\ _status (task (sys st')) = Cancelled.
Proof.
  revert st. induction schedule as [|e schedule IH]; intros st Hc; cbn [run];
    destruct (forallb is_finished (workers st)) eqn:Ef; intros E;
    try discriminate E;
    try (injection E as <-; destruct (conclude_keeps st) as (-> & -> & _);
         rewrite (finished_in_flight _ Ef);
         split; [reflexivity|]; split;
         [exists []; rewrite app_nil_r; repeat split; constructor|];
         unfold conclude; rewrite Hc; cbn [sys]; unfold finishCancelled;
         match goal with
         | |- context [_publish ?ev ?s] => destruct (publish_task ev s) as [cbs ->]
         end; reflexivity).
  destruct e as [i|]; cbn [step] in E.
  - unfold resume in E. destruct (workers st !! i) as [[item|]|] eqn:Ei.
    + destruct (record_keeps (outcome processor item) (sys st)) as (Hk & _).
      rewrite Hk, Hc in E.
      assert (take (queue st) true = (Finished, queue st)) as Ht
          by (destruct (queue st); reflexivity).
      rewrite Ht in E. apply IH in E; [|cbn [sys]; now rewrite Hk].
      cbn [queue recorded workers] in E.
      destruct E as (E1 & (added & E2 & E3 & E4) & E5).
      split; [exact E1|]. split; [|exact E5].
      exists (outcome processor item :: added). split; [|split].
      * rewrite E2, <- app_assoc. reflexivity.
      * cbn [List.map]. rewrite outcome_item, E3.
        now rewrite (in_flight_replace _ _ _ Finished Ei).
      * constructor; [|exact E4]. exists item. split; [apply outcome_item|reflexivity].
    + now apply IH in E.
    + now apply IH in E.
  - apply IH in E; [exact E|reflexivity].
Qed.

End BatchesFacts.


(** ** The settings store: what is read back *)

Section SpreadFacts.
Import JS Settings.

(** [{ ...a, ...b }] key by key: the value of [b] when it has the key,
    else the value of [a]. *)
Lemma lookup_spread (b : object) :
  forall (a : object) (k : string),
    NoDup (List.map fst a) ->
    lookup_field k (spread a b)
    = match lookup_field k b with
      | Some v => Some v
      | None => lookup_field k a
      end.
Proof.
  unfold spread. induction b as [|[k1 v1] b IH]; intros a k Hnd; [reflexivity|].
  cbn [fold_left fst snd lookup_field].
  rewrite IH by now apply set_field_NoDup.
  destruct (lookup_field k b); [reflexivity|].
  destruct (String.eqb_spec k k1) as [->|Hne].
  - now apply lookup_set_field.
  - apply lookup_set_field_other. congruence.
Qed.

Lemma set_field_keeps (k k' : string) (v : json) (o : object) :
  lookup_field k o <> None -> lookup_field k (set_field k' v o) <> None.
Proof.
  induction o as [|[k1 v1] o IH]; [intros H; now contradiction H|].
  cbn [set_field lookup_field]. destruct (String.eqb_spec k' k1) as [->|Hne].
  - cbn [lookup_field]. destruct (lookup_field k o); [discriminate|].
    destruct (String.eqb k k1); [discriminate|tauto].
  - cbn [lookup_field]. intros H.
    destruct (lookup_field k (set_field k' v o)) eqn:Es; [discriminate|].
    destruct (lookup_field k o) eqn:E; [|exact H].
    exfalso. now apply IH.
Qed.

Lemma spread_keeps (k : string) (b : object) :
  forall a : object, lookup_field k a <> None -> lookup_field k (spread a b) <> None.
Proof.
  unfold spread. induction b as [|[k1 v1] b IH]; intros a H; [exact H|].
  cbn [fold_left fst snd]. apply IH. now apply set_field_keeps.
Qed.

End SpreadFacts.

Section SettingsReadBack.
Import JS Settings SettingsSections.

Variable JSON_parse : string -> option json.
Variable JSON_stringify : json -> string.

(** A plain section of what [getSettings] returns: the defaults, then the
    stored object. *)
Lemma getSettings_plain (db : DB) (bundle : SettingsBundle) (key : string)
  (section : SettingsBundle -> object) (submitted : Updates -> option object) :
  getSettings JSON_parse db = inr bundle ->
  In (key, section, submitted) plain_sections ->
  section bundle
  = spread (section DEFAULTS)
      (own_fields (section_of JSON_parse db key (section DEFAULTS))).
Proof.
  intros H Hin. unfold getSettings in H. cbv zeta in H.
  destruct (section_of JSON_parse db "grok" (grok DEFAULTS)); try discriminate H;
    (destruct (strip_value _); [discriminate H|]);
    injection H as <-;
    cbn [plain_sections In] in Hin;
    (destruct Hin as [E|[E|[E|[E|[E|[]]]]]]; injection E as <- <- <-; reflexivity).
Qed.

Lemma getSettings_keeps_defaults
  (db : DB) (bundle : SettingsBundle) (section : SettingsBundle -> object)
  (k : string) :
  getSettings JSON_parse db = inr bundle ->
  In section sections ->
  lookup_field k (section DEFAULTS) <> None ->
  lookup_field k (section bundle) <> None.
Proof.
  intros Hget Hin Hk.
  destruct (getSettings_merged _ _ _ Hget) as (cf & method & _ & Hgrok).
  cbn [sections In] in Hin.
  destruct Hin as [<-|[<-|[<-|[<-|[<-|[<-|[]]]]]]].
  - rewrite (getSettings_plain _ _ "global" global_ global_config Hget)
      by (cbn; auto 10).
    now apply spread_keeps.
  - rewrite Hgrok. repeat apply set_field_keeps. now apply spread_keeps.
  - rewrite (getSettings_plain _ _ "token" token token_config Hget)
      by (cbn; auto 10).
    now apply spread_keeps.
  - rewrite (getSettings_plain _ _ "cache" cache cache_config Hget)
      by (cbn; auto 10).
    now apply spread_keeps.
  - rewrite (getSettings_plain _ _ "performance" performance performance_config Hget)
      by (cbn; auto 10).
    now apply spread_keeps.
  - rewrite (getSettings_plain _ _ "register" register register_config Hget)
      by (cbn; auto 10).
    now apply spread_keeps.
Qed.

(** X21.  [getSettings] fills in every default.  Whatever the rows of
    the store hold (nothing, text that does not parse, an object with some
    keys, a value that is no object), when [getSettings] returns, each of the
    six sections has a value under every key that the defaults of the section
    define. *)
Theorem getSettings_defines_every_default_key
  (db : DB) (bundle : SettingsBundle) (section : SettingsBundle -> object)
  (k : string) (dflt : json) :
  getSettings JSON_parse db = inr bundle ->
  In section sections ->
  lookup_field k (section DEFAULTS) = Some dflt ->
  exists v : json, lookup_field k (section bundle) = Some v.
Proof.
  intros Hget Hin Hk.
  destruct (lookup_field k (section bundle)) as [v|] eqn:E; [now exists v|].
  exfalso. revert E. apply (getSettings_keeps_defaults db bundle section k Hget Hin).
  congruence.
Qed.

Lemma DEFAULTS_NoDup (section : SettingsBundle -> object) :
  In section sections -> NoDup (List.map fst (section DEFAULTS)).
Proof.
  cbn [sections In]. intros [<-|[<-|[<-|[<-|[<-|[<-|[]]]]]]];
    apply (bool_decide_unpack _); vm_compute; exact I.
Qed.

Lemma section_of_written (db : DB) (key : string) (o dflt : object) (now : Z) :
  db !! key = Some (JSON_stringify (JObj o), now) ->
  truthy (JSON_stringify (JObj o)) = true ->
  JSON_parse (JSON_stringify (JObj o)) = Some (JObj o) ->
  section_of JSON_parse db key dflt = JObj o.
Proof.
  intros Hdb Ht Hp. unfold section_of, safeParseJson. now rewrite Hdb, Ht, Hp.
Qed.

(** X22.  What [saveSettings] writes is what [getSettings] reads back.
    For each of the five sections that are stored as submitted ([global],
    [token], [cache], [performance], [register]), when [JSON.parse] gives
    back the object that [JSON.stringify] wrote, the section read after a
    save has, under every key, the submitted value when the update has the
    key, and otherwise the value the section had before the save. *)
Theorem saved_section_is_read_back
  (db db' : DB) (updates : Updates) (now : Z) (current after : SettingsBundle)
  (key : string) (section : SettingsBundle -> object)
  (submitted : Updates -> option object) (k : string) :
  In (key, section, submitted) plain_sections ->
  getSettings JSON_parse db = inr current ->
  saveSettings JSON_parse JSON_stringify db updates now = inr db' ->
  getSettings JSON_parse db' = inr after ->
  let written := spread (section current) (or_empty (submitted updates)) in
  truthy (JSON_stringify (JObj written)) = true ->
  JSON_parse (JSON_stringify (JObj written)) = Some (JObj written) ->
  lookup_field k (section after)
  = match lookup_field k (or_empty (submitted updates)) with
    | Some v => Some v
    | None => lookup_field k (section current)
    end.
Proof.
  intros Hin Hcur Hsave Hafter written Ht Hp.
  assert (In section sections) as Hsec.
  { cbn [plain_sections In] in Hin. cbn [sections In].
    destruct Hin as [H|[H|[H|[H|[H|[]]]]]]; injection H as _ <- _; auto 10. }
  pose proof (DEFAULTS_NoDup section Hsec) as Hnd.
  (* the section before the save *)
  assert (exists cfg, section current = spread (section DEFAULTS) cfg) as [cfg Hc]
      by (eexists; exact (getSettings_plain _ _ _ _ _ Hcur Hin)).
  assert (NoDup (List.map fst (section current))) as Hndc
      by (rewrite Hc; now apply spread_NoDup).
  (* the row that was written *)
  assert (db' !! key = Some (JSON_stringify (JObj written), now)) as Hrow.
  { unfold saveSettings in Hsave. rewrite Hcur in Hsave.
    destruct (nextGrok updates current); [discriminate Hsave|].
    injection Hsave as <-. subst written. unfold upsert, DB in *.
    cbn [plain_sections In] in Hin.
    destruct Hin as [H|[H|[H|[H|[H|[]]]]]]; injection H as <- <- <-;
      rewrite ?lookup_insert_ne by discriminate; apply lookup_insert_eq. }
  (* the section after the save *)
  assert (section after = spread (section DEFAULTS) written) as Ha.
  { rewrite (getSettings_plain _ _ _ _ _ Hafter Hin).
    now rewrite (section_of_written db' key written _ now Hrow Ht Hp). }
  rewrite Ha, (lookup_spread written _ k Hnd).
  subst written. rewrite (lookup_spread _ _ k Hndc).
  destruct (lookup_field k (or_empty (submitted updates))); [reflexivity|].
  destruct (lookup_field k (section current)) eqn:E; [reflexivity|].
  destruct (lookup_field k (section DEFAULTS)) eqn:Ed; [|reflexivity].
  exfalso. rewrite Hc in E. revert E. apply spread_keeps. congruence.
Qed.

(** X23.  A row that poisons the store.  When the ["grok"] row parses to
    [null], or to an object whose [cf_clearance] is neither a string nor
    [null], [getSettings] throws a [TypeError]; and so does [saveSettings],
    whatever the update: it reads the settings first, so the row cannot be
    repaired by saving. *)
Theorem bad_grok_row_fails_reads_and_saves
  (db : DB) (text : string) (at_ : Z) (stored : json) :
  db !! "grok" = Some (text, at_) ->
  truthy text = true ->
  JSON_parse text = Some stored ->
  stored = JNull
  \/ (exists v, get stored "cf_clearance" = Some v
                /\ v <> JNull /\ forall s, v <> JStr s) ->
  exists message : string,
    getSettings JSON_parse db = inl (ErrorObject "TypeError" message)
    /\ forall (updates : Updates) (now : Z),
         saveSettings JSON_parse JSON_stringify db updates now
         = inl (ErrorObject "TypeError" message).
Proof.
  intros Hdb Ht Hp Hbad.
  assert (section_of JSON_parse db "grok" (grok DEFAULTS) = stored) as Hsec
      by (unfold section_of, safeParseJson; now rewrite Hdb, Ht, Hp).
  assert (exists message, getSettings JSON_parse db = inl (ErrorObject "TypeError" message))
    as [message Hget].
  { unfold getSettings. cbv zeta. rewrite Hsec.
    destruct Hbad as [->|(v & Hv & Hnull & Hstr)]; [eexists; reflexivity|].
    rewrite Hv.
    destruct stored; try discriminate Hv;
      destruct v; try congruence; try (eexists; reflexivity). }
  exists message. split; [exact Hget|].
  intros updates now. unfold saveSettings. now rewrite Hget.
Qed.

End SettingsReadBack.

(** ** The settings store: the two forms of the cookie *)

Section CookieForms.
Import JS Settings.

Lemma trimStart_idem (s : string) : trimStart (trimStart s) = trimStart s.
Proof.
  induction s as [|c s IH]; [reflexivity|].
  cbn [trimStart]. destruct (is_ws c) eqn:E; [exact IH|].
  cbn [trimStart]. now rewrite E.
Qed.

Lemma trimStart_app (x y : string) :
  x <> EmptyString -> trimStart x = x -> trimStart (x +:+ y) = x +:+ y.
Proof.
  destruct x as [|c x]; [congruence|]. intros _ H.
  change (String c x +:+ y) with (String c (x +:+ y)).
  cbn [trimStart] in *. destruct (is_ws c) eqn:E; [|reflexivity].
  exfalso. assert (String.length (trimStart x) <= String.length x)%nat as Hl.
  { clear. induction x as [|d x IH]; [cbn; lia|].
    cbn [trimStart]. destruct (is_ws d); cbn [String.length]; lia. }
  rewrite H in Hl. cbn [String.length] in Hl. lia.
Qed.

(** What trimming the start leaves before a character that is no white
    space ends with that character. *)
Lemma trimStart_last (c : ascii) (z : string) :
  is_ws c = false ->
  exists y, trimStart (z +:+ String c EmptyString) = y +:+ String c EmptyString.
Proof.
  intros Hc. induction z as [|d z IH].
  - exists EmptyString.
    change (EmptyString +:+ String c EmptyString) with (String c EmptyString).
    cbn [trimStart]. now rewrite Hc.
  - change (String d z +:+ String c EmptyString)
      with (String d (z +:+ String c EmptyString)).
    cbn [trimStart]. destruct (is_ws d); [exact IH|].
    now exists (String d z).
Qed.

Lemma rev_cons (c : ascii) (s : string) :
  String.rev (String c s) = String.rev s +:+ String c EmptyString.
Proof.
  change (String c s) with (String c EmptyString +:+ s). now rewrite rev_append.
Qed.

Lemma rev_empty (s : string) : String.rev s = EmptyString -> s = EmptyString.
Proof.
  intros H. rewrite <- (rev_involutive s), H. reflexivity.
Qed.

(** A trimmed string read backwards begins with no white space. *)
Lemma trim_end_fixed (v : string) : trimStart (String.rev (trim v)) = String.rev (trim v).
Proof.
  unfold trim, trimEnd. rewrite rev_involutive. apply trimStart_idem.
Qed.

(** Nor does it read forwards. *)
Lemma trim_start_fixed (v : string) : trimStart (trim v) = trim v.
Proof.
  unfold trim, trimEnd.
  destruct (trimStart v) as [|c t] eqn:E; [reflexivity|].
  assert (is_ws c = false) as Hc.
  { clear -E. induction v as [|d v IH]; [discriminate E|].
    cbn [trimStart] in E. destruct (is_ws d) eqn:Ed; [now apply IH|].
    now injection E as <- _. }
  rewrite rev_cons. destruct (trimStart_last c (String.rev t) Hc) as [y ->].
  rewrite rev_append. cbn [trimStart].
  change (String.rev (String c EmptyString)) with (String c EmptyString).
  change (String c EmptyString +:+ String.rev y) with (String c (String.rev y)).
  cbn [trimStart]. now rewrite Hc.
Qed.

Lemma trim_idem (v : string) : trim (trim v) = trim v.
Proof.
  unfold trim at 1. rewrite trim_start_fixed. unfold trimEnd.
  now rewrite trim_end_fixed, rev_involutive.
Qed.

(** A prefix without leading white space before a trimmed text. *)
Lemma trim_app (p v : string) :
  p <> EmptyString -> trimStart p = p -> trim v <> EmptyString ->
  trim (p +:+ trim v) = p +:+ trim v.
Proof.
  intros Hp Hfix Hv. unfold trim at 1. rewrite (trimStart_app _ _ Hp Hfix).
  unfold trimEnd. rewrite rev_append, trimStart_app.
  - now rewrite <- rev_append, rev_involutive.
  - intros H. now apply rev_empty in H.
  - apply trim_end_fixed.
Qed.

(** X24.  The two forms of the Cloudflare cookie convert into each
    other.  [normalizeCfCookie] gives the header form ([cf_clearance=] and
    the value) and [stripCfPrefix] the stored form (the value); stripping the
    header form of any text gives what stripping the text gives, and
    normalizing twice is normalizing once. *)
Theorem cookie_forms_convert_into_each_other (v : string) :
  stripCfPrefix (normalizeCfCookie v) = stripCfPrefix v
  /\ normalizeCfCookie (normalizeCfCookie v) = normalizeCfCookie v.
Proof.
  assert (stripCfPrefix (normalizeCfCookie v) = stripCfPrefix v) as H.
  { unfold normalizeCfCookie.
    destruct (stripCfPrefix v) as [|c0 s0] eqn:Es; [reflexivity|].
    cbn [truthy]. rewrite <- Es.
    destruct (stripCfPrefix_spec v) as [[Hp Ht]|[Hp Ht]].
    - (* the text already is in header form *)
      rewrite <- Ht. unfold stripCfPrefix. now rewrite trim_idem.
    - (* the prefix is put in front of the trimmed text *)
      rewrite Ht.
      assert (trim (cf_prefix +:+ trim v) = cf_prefix +:+ trim v) as Hfix.
      { apply trim_app; [discriminate|reflexivity|]. rewrite <- Ht, Es. discriminate. }
      destruct (stripCfPrefix_spec (cf_prefix +:+ trim v)) as [[_ Hq]|[Hq _]].
      + rewrite Hfix in Hq. now apply String.app_inj in Hq.
      + rewrite Hfix in Hq. unfold startsWith in Hq.
        now rewrite prefix_self_app in Hq. }
  split; [exact H|].
  unfold normalizeCfCookie at 1. rewrite H. reflexivity.
Qed.

End CookieForms.


(** ** The models *)

Section ModelsFacts.
Import JS Models.

Lemma own_In (model : string) (table : list (string * ModelInfo)) (cfg : ModelInfo) :
  own model table = Some cfg -> In (model, cfg) table.
Proof.
  induction table as [|[name c] table IH]; cbn [own]; [discriminate|].
  destruct (String.eqb_spec model name) as [->|Hne].
  - intros H. injection H as <-. now left.
  - intros H. right. now apply IH.
Qed.

Lemma lookup_Own (model : string) (cfg : ModelInfo) :
  lookup model = Own cfg -> In (model, cfg) MODEL_CONFIG.
Proof.
  unfold lookup. destruct (own model MODEL_CONFIG) as [c|] eqn:E.
  - intros H. injection H as <-. now apply own_In.
  - destruct (existsb _ _); discriminate.
Qed.

(** Going through the entries of the table. *)
Ltac each_model H :=
  cbn [MODEL_CONFIG In] in H;
  repeat (destruct H as [H|H]; [injection H as <- <-|]); [..|destruct H].

Lemma existsb_In (model : string) (names : list string) :
  existsb (String.eqb model) names = true <-> In model names.
Proof.
  rewrite existsb_exists. split.
  - intros (x & Hx & E). apply String.eqb_eq in E. now subst.
  - intros H. exists model. split; [exact H|apply String.eqb_refl].
Qed.

(** X25.  [toRateLimitModel] maps every name to a name it leaves alone:
    the rate-limit model of a configured model is either not configured or
    its own rate-limit model, and any other name, whether unknown or
    inherited from [Object.prototype], is its own. *)
Theorem toRateLimitModel_is_idempotent (model : string) :
  toRateLimitModel (toRateLimitModel model) = toRateLimitModel model.
Proof.
  unfold toRateLimitModel at 2 3.
  destruct (lookup model) as [cfg| |] eqn:E.
  - apply lookup_Own in E. each_model E; reflexivity.
  - unfold toRateLimitModel. now rewrite E.
  - unfold toRateLimitModel. now rewrite E.
Qed.

(** X26.  The token pools of a model.  For every name, the pool
    [poolForModel] gives is the first candidate of
    [poolCandidatesForModel]; the super pool is always among the candidates;
    and the only name confined to the super pool is ["grok-4-heavy"]: every
    other name, configured or not, starts with the basic pool. *)
Theorem pools_agree_and_only_heavy_needs_super (model : string) :
  List.hd EmptyString (poolCandidatesForModel model) = poolForModel model
  /\ In "ssoSuper" (poolCandidatesForModel model)
  /\ (poolForModel model = "ssoSuper" <-> model = "grok-4-heavy").
Proof.
  unfold poolCandidatesForModel, poolForModel.
  destruct (lookup model) as [cfg| |] eqn:E.
  - apply lookup_Own in E. each_model E; cbn;
      (split; [reflexivity|split; [tauto|split; [try discriminate|try discriminate]]]);
      reflexivity.
  - cbn. split; [reflexivity|]. split; [tauto|]. split; [discriminate|].
    intros ->. discriminate E.
  - cbn. split; [reflexivity|]. split; [tauto|]. split; [discriminate|].
    intros ->. discriminate E.
Qed.

(** X27.  Which names are accepted.  [isValidModel] accepts the fourteen
    configured names and, the table being a plain object, also the twelve
    property names it inherits from [Object.prototype] (["constructor"],
    ["toString"] and the like); [toGrokModel] throws a [TypeError] exactly on
    those inherited names, and on every other name it returns a mode that
    begins with ["MODEL_MODE_"], with the video flag set only for
    ["grok-imagine-1.0-video"]. *)
Theorem accepted_model_names (model : string) :
  (isValidModel model = true
   <-> In model (List.map fst MODEL_CONFIG) \/ In model Object_prototype)
  /\ match toGrokModel model with
     | inl e =>
         In model Object_prototype
         /\ e = ErrorObject "TypeError" "Cannot read properties of undefined (reading '0')"
     | inr g =>
         ~ In model Object_prototype
         /\ startsWith (mode g) "MODEL_MODE_" = true
         /\ (isVideoModel g = true <-> model = "grok-imagine-1.0-video")
     end.
Proof.
  unfold isValidModel, toGrokModel.
  destruct (lookup model) as [cfg| |] eqn:E.
  - apply lookup_Own in E. split.
    + split; [intros _|reflexivity]. left.
      apply (List.in_map fst) in E. exact E.
    + each_model E; cbn [fst snd grok_model is_video_model mode isVideoModel];
        (split; [intros H; cbn in H; intuition discriminate|]);
        (split; [reflexivity|split; [try discriminate|try discriminate]; reflexivity]).
  - unfold lookup in E. destruct (own model MODEL_CONFIG); [discriminate E|].
    destruct (existsb _ _) eqn:Ex; [|discriminate E].
    apply existsb_In in Ex. split; [|split; [exact Ex|reflexivity]].
    split; [intros _; now right|reflexivity].
  - unfold lookup in E. destruct (own model MODEL_CONFIG) as [c|] eqn:Eo; [discriminate E|].
    destruct (existsb _ _) eqn:Ex; [discriminate E|].
    assert (~ In model Object_prototype) as Hno.
    { intros H. apply existsb_In in H. congruence. }
    split.
    + split; [discriminate|]. intros [H|H]; [|contradiction].
      exfalso. cbn [MODEL_CONFIG List.map fst In] in H.
      repeat (destruct H as [H|H]; [subst model; discriminate Eo|]). destruct H.
    + split; [exact Hno|]. split; [reflexivity|]. cbn [isVideoModel].
      split; [discriminate|]. intros ->. discriminate Eo.
Qed.

End ModelsFacts.


(** ** The progress of a token refresh *)

Section RefreshFacts.
Import RefreshProgress.

(** X28.  A partial update is a merge, also on an empty table.  What
    [getRefreshProgress] reads after [setRefreshProgress(p)] has, for each
    field, the value of [p] when [p] gives one and otherwise the value that
    was read before (zero and not running when there was no row); its
    [updated_at] is the time of the update, whatever [p.updated_at] says; and
    the read leaves the table as the update left it. *)
Theorem refresh_progress_update_is_a_merge
  (db : Table) (p : Partial) (before now later : Z) :
  let old := fst (getRefreshProgress db before) in
  let db' := setRefreshProgress db p now in
  getRefreshProgress db' later
  = (mkProgress
       (match p_running p with Some b => b | None => running old end)
       (COALESCE (p_current p) (current old))
       (COALESCE (p_total p) (total old))
       (COALESCE (p_success p) (success old))
       (COALESCE (p_failed p) (failed old))
       now,
     db').
Proof.
  destruct db as [row|], p as [[[|]|] c t s f u]; reflexivity.
Qed.

(** Two updates in a row are one update: the second update's
    fields where it gives them, else the first's, at the time of the second. *)
Theorem refresh_progress_updates_compose
  (db : Table) (p q : Partial) (t1 t2 : Z) :
  setRefreshProgress (setRefreshProgress db p t1) q t2
  = setRefreshProgress db (after p q) t2.
Proof.
  destruct db as [row|], p as [[[|]|] pc pt ps pf pu], q as [[[|]|] [qc|] [qt|] [qs|] [qf|] qu];
    reflexivity.
Qed.

End RefreshFacts.


(** ** Request statistics: the hourly slots and the success rate *)

Section LogsMoreFacts.
Import Logs Double.

(** X29.  The hourly slots.  [getRequestStats] returns twenty-four
    hourly slots, for the clock hours from 23 hours ago to now, each labelled
    with its UTC hour; a slot is the tally of the rows of the last 24 hours
    whose timestamp falls in its clock hour (a row of the last 24 hours in
    the clock hour before the first slot is in the summary and in no slot). *)
Theorem hourly_slots_count_the_rows_of_their_hour
  (now : Z) (table : list RequestLogRow) (models_ : list (string * Z)) :
  hourly (getRequestStats now table models_)
  = List.map
      (fun i =>
         let ts := now - 23 * 60 * 60 * 1000 + i * (60 * 60 * 1000) in
         (JS.pad2 (getUTCHours ts) +:+ ":00",
          tally (fun r => recent now r && in_hour (toIsoHourKey ts) r) table))
      (List.map Z.of_nat (List.seq 0 24)).
Proof.
  unfold getRequestStats. cbn [hourly].
  apply List.map_ext. intros i. cbn zeta. f_equal.
  destruct (scan_fold (now - 24 * 60 * 60 * 1000)
              (select_since table (now - 14 * 24 * 60 * 60 * 1000))
              (mkScan ∅ ∅ 0 0)) as (_ & Hh & _).
  cbn zeta in Hh. unfold scan. rewrite Hh. cbn [hourlyMap].
  unfold bucket_of at 1. rewrite lookup_empty, plus_zero_l, tally_select.
  apply tally_ext. intros r. fold (recent now r).
  destruct (recent now r) eqn:E; [|now rewrite andb_false_r].
  now rewrite (recent_scanned _ _ E).
Qed.

(** *** Rounding to a [number] *)

Lemma pow2_pos (k : Z) : (0 < pow2 k)%Q.
Proof. apply Qpower_0_lt. reflexivity. Qed.

Lemma pow2_add (a b : Z) : (pow2 (a + b) == pow2 a * pow2 b)%Q.
Proof. apply Qpower_plus. discriminate. Qed.

Lemma pow2_Z (k : Z) : 0 <= k -> (pow2 k == inject_Z (2 ^ k))%Q.
Proof. intros H. unfold pow2. now rewrite Zpower_Qpower. Qed.

Lemma pow2_le (a b : Z) : a <= b -> (pow2 a <= pow2 b)%Q.
Proof. intros H. apply Qpower_le_compat_l; [exact H|discriminate]. Qed.

Lemma pow2_lt (a b : Z) : a < b -> (pow2 a < pow2 b)%Q.
Proof. intros H. apply Qpower_lt_compat_l; [exact H|reflexivity]. Qed.

(** Comparing after scaling by a power of two. *)
Lemma scale_le (x y : Q) (k : Z) : (x <= y -> x * pow2 k <= y * pow2 k)%Q.
Proof. intros H. apply Qmult_le_compat_r; [exact H|apply Qlt_le_weak, pow2_pos]. Qed.

Lemma scale_lt (x y : Q) (k : Z) : (x < y -> x * pow2 k < y * pow2 k)%Q.
Proof. intros H. apply Qmult_lt_compat_r; [apply pow2_pos|exact H]. Qed.

Lemma unscale_le (x y : Q) (k : Z) : (x * pow2 k <= y * pow2 k -> x <= y)%Q.
Proof. intros H. apply Qmult_le_r in H; [exact H|apply pow2_pos]. Qed.

Lemma unscale_lt (x y : Q) (k : Z) : (x * pow2 k < y * pow2 k -> x < y)%Q.
Proof. intros H. apply Qmult_lt_r in H; [exact H|apply pow2_pos]. Qed.

Lemma exponent_spec (x : Q) :
  (0 < x)%Q -> (pow2 (exponent x) <= x /\ x < pow2 (exponent x + 1))%Q.
Proof.
  intros Hx. destruct x as [n d]. unfold exponent. cbn [Qnum Qden].
  assert (0 < n) as Hn by (unfold Qlt in Hx; cbn in Hx; lia).
  set (a := Z.log2 n). set (b := Z.log2 (Z.pos d)).
  assert (0 <= a) as Ha by apply Z.log2_nonneg.
  assert (0 <= b) as Hb by apply Z.log2_nonneg.
  destruct (Z.log2_spec n Hn) as [Hn1 Hn2]. fold a in Hn1, Hn2.
  destruct (Z.log2_spec (Z.pos d) (Pos2Z.is_pos d)) as [Hd1 Hd2]. fold b in Hd1, Hd2.
  assert ((n # d) * inject_Z (Z.pos d) == inject_Z n)%Q as Hnd
      by (unfold Qeq, Qmult, inject_Z; cbn; lia).
  assert (pow2 (a - b - 1) < n # d)%Q as Hlow.
  { apply (unscale_lt _ _ (b + 1)). rewrite <- pow2_add.
    replace (a - b - 1 + (b + 1)) with a by lia.
    apply Qle_lt_trans with (inject_Z n).
    - rewrite pow2_Z by exact Ha. now rewrite <- Zle_Qle.
    - rewrite <- Hnd. apply Qmult_lt_l; [exact Hx|].
      rewrite pow2_Z by lia. rewrite <- Zlt_Qlt. replace (b + 1) with (Z.succ b) by lia.
      exact Hd2. }
  assert (n # d < pow2 (a - b + 1))%Q as Hhigh.
  { apply (unscale_lt _ _ b). rewrite <- pow2_add.
    replace (a - b + 1 + b) with (a + 1) by lia.
    apply Qle_lt_trans with (inject_Z n).
    - rewrite <- Hnd. apply Qmult_le_l; [exact Hx|].
      rewrite pow2_Z by lia. now rewrite <- Zle_Qle.
    - rewrite pow2_Z by lia. rewrite <- Zlt_Qlt. replace (a + 1) with (Z.succ a) by lia.
      exact Hn2. }
  destruct (Qcompare_spec (n # d) (pow2 (a - b))) as [E|E|E].
  - split; [rewrite E; apply Qle_refl|exact Hhigh].
  - split; [now apply Qlt_le_weak|]. replace (a - b - 1 + 1) with (a - b) by lia. exact E.
  - split; [now apply Qlt_le_weak|exact Hhigh].
Qed.

(** Rounding to the nearest integer keeps on its side of an integer. *)
Lemma nearest_even_le (q : Q) (K : Z) : (q <= inject_Z K)%Q -> nearest_even q <= K.
Proof.
  intros H. unfold nearest_even.
  pose proof (Qfloor_le q) as Hf.
  assert (Qfloor q <= K) as HfK by (rewrite Zle_Qle; now apply Qle_trans with q).
  assert ((1 # 2 <= q - inject_Z (Qfloor q))%Q -> Qfloor q + 1 <= K) as Hup.
  { intros Hr. assert (inject_Z (Qfloor q) < inject_Z K)%Q as Hlt.
    { apply Qlt_le_trans with q; [|exact H].
      apply Qlt_minus_iff. apply Qlt_le_trans with (1 # 2); [reflexivity|].
      unfold Qminus in Hr. exact Hr. }
    rewrite <- Zlt_Qlt in Hlt. lia. }
  destruct (Qcompare_spec (q - inject_Z (Qfloor q)) (1 # 2)) as [E|E|E].
  - destruct (Z.even (Qfloor q)); [exact HfK|]. apply Hup. now rewrite E.
  - exact HfK.
  - apply Hup. now apply Qlt_le_weak.
Qed.

Lemma nearest_even_ge (q : Q) (K : Z) : (inject_Z K <= q)%Q -> K <= nearest_even q.
Proof.
  intros H. unfold nearest_even.
  assert (K <= Qfloor q) as HfK.
  { pose proof (Qlt_floor q) as Hf.
    assert (inject_Z K < inject_Z (Qfloor q + 1))%Q as Hlt
        by now apply Qle_lt_trans with q.
    rewrite <- Zlt_Qlt in Hlt. lia. }
  destruct (Qcompare (q - inject_Z (Qfloor q)) (1 # 2)); [|lia|lia].
  destruct (Z.even (Qfloor q)); lia.
Qed.

(** A number [M * 2^E] with a 53-bit [M] is a [number]: rounding keeps on
    its side of it. *)
Lemma round53_le (x : Q) (M E : Z) :
  (0 < x)%Q -> 2 ^ 52 <= M < 2 ^ 53 ->
  (x <= inject_Z M * pow2 E)%Q -> (round53 x <= inject_Z M * pow2 E)%Q.
Proof.
  intros Hx HM Hle. unfold round53.
  destruct (exponent_spec x Hx) as [He1 He2]. set (e := exponent x) in *.
  assert (pow2 (E + 52) <= inject_Z M * pow2 E)%Q as HB.
  { rewrite Z.add_comm, pow2_add. apply scale_le.
    rewrite pow2_Z by lia. rewrite <- Zle_Qle. lia. }
  assert (inject_Z M * pow2 E < pow2 (E + 53))%Q as HB'.
  { rewrite Z.add_comm, pow2_add. apply scale_lt.
    rewrite pow2_Z by lia. rewrite <- Zlt_Qlt. lia. }
  destruct (Z.lt_trichotomy e (E + 52)) as [Hlt|[Heq|Hgt]].
  - (* a smaller exponent *)
    apply Qle_trans with (pow2 (e + 1)).
    + replace (e + 1) with (53 + (e - 52)) by lia. rewrite pow2_add.
      apply scale_le. rewrite (pow2_Z 53) by lia. rewrite <- Zle_Qle.
      apply nearest_even_le.
      rewrite <- (pow2_Z 53) by lia. replace 53 with (e + 1 + (52 - e)) by lia.
      rewrite pow2_add. apply scale_le. now apply Qlt_le_weak.
    + apply Qle_trans with (pow2 (E + 52)); [apply pow2_le; lia|exact HB].
  - (* the same exponent *)
    replace (e - 52) with E by lia. apply scale_le. rewrite <- Zle_Qle.
    apply nearest_even_le. apply (unscale_le _ _ E).
    rewrite <- Qmult_assoc, <- pow2_add. replace (52 - e + E) with 0 by lia.
    change (pow2 0) with 1%Q. now rewrite Qmult_1_r.
  - (* a larger exponent: impossible *)
    exfalso. apply (Qlt_irrefl x).
    apply Qle_lt_trans with (inject_Z M * pow2 E)%Q; [exact Hle|].
    apply Qlt_le_trans with (pow2 (E + 53)); [exact HB'|].
    apply Qle_trans with (pow2 e); [apply pow2_le; lia|exact He1].
Qed.

Lemma round53_ge (x : Q) (M E : Z) :
  (0 < x)%Q -> 2 ^ 52 <= M < 2 ^ 53 ->
  (inject_Z M * pow2 E <= x)%Q -> (inject_Z M * pow2 E <= round53 x)%Q.
Proof.
  intros Hx HM Hle. unfold round53.
  destruct (exponent_spec x Hx) as [He1 He2]. set (e := exponent x) in *.
  assert (pow2 (E + 52) <= inject_Z M * pow2 E)%Q as HB.
  { rewrite Z.add_comm, pow2_add. apply scale_le.
    rewrite pow2_Z by lia. rewrite <- Zle_Qle. lia. }
  assert (inject_Z M * pow2 E < pow2 (E + 53))%Q as HB'.
  { rewrite Z.add_comm, pow2_add. apply scale_lt.
    rewrite pow2_Z by lia. rewrite <- Zlt_Qlt. lia. }
  destruct (Z.lt_trichotomy e (E + 52)) as [Hlt|[Heq|Hgt]].
  - (* a smaller exponent: impossible *)
    exfalso. apply (Qlt_irrefl x).
    apply Qlt_le_trans with (pow2 (e + 1)); [exact He2|].
    apply Qle_trans with (pow2 (E + 52)); [apply pow2_le; lia|].
    now apply Qle_trans with (inject_Z M * pow2 E)%Q.
  - (* the same exponent *)
    replace (e - 52) with E by lia. apply scale_le. rewrite <- Zle_Qle.
    apply nearest_even_ge. apply (unscale_le _ _ E).
    rewrite <- Qmult_assoc, <- pow2_add. replace (52 - e + E) with 0 by lia.
    change (pow2 0) with 1%Q. now rewrite Qmult_1_r.
  - (* a larger exponent *)
    apply Qle_trans with (pow2 e).
    + apply Qle_trans with (pow2 (E + 53)); [now apply Qlt_le_weak|apply pow2_le; lia].
    + replace e with (52 + (e - 52)) at 1 by lia. rewrite pow2_add.
      apply scale_le. rewrite (pow2_Z 52) by lia. rewrite <- Zle_Qle.
      apply nearest_even_ge.
      rewrite <- (pow2_Z 52) by lia. replace 52 with (e + (52 - e)) at 1 by lia.
      rewrite pow2_add. now apply scale_le.
Qed.

Lemma round53_pos (x : Q) : (0 < x)%Q -> (0 <= round53 x)%Q.
Proof.
  intros Hx. unfold round53. apply Qmult_le_0_compat; [|apply Qlt_le_weak, pow2_pos].
  change 0%Q with (inject_Z 0). rewrite <- Zle_Qle. apply nearest_even_ge.
  apply Qmult_le_0_compat; [now apply Qlt_le_weak|apply Qlt_le_weak, pow2_pos].
Qed.

(** Rounding a number between zero and a [number] gives one between them. *)
Lemma nearest_between (x : Q) (M E : Z) :
  2 ^ 52 <= M < 2 ^ 53 ->
  (0 <= x)%Q -> (x <= inject_Z M * pow2 E)%Q ->
  (0 <= nearest x /\ nearest x <= inject_Z M * pow2 E)%Q.
Proof.
  intros HM H0 Hle. unfold nearest. destruct x as [[|n|n] d]; cbn [Qnum].
  - split; [apply Qle_refl|].
    apply Qmult_le_0_compat; [|apply Qlt_le_weak, pow2_pos].
    change 0%Q with (inject_Z 0). rewrite <- Zle_Qle.
    pose proof (Z.pow_pos_nonneg 2 52). lia.
  - split; [now apply round53_pos|now apply round53_le].
  - exfalso. unfold Qle in H0. cbn in H0. lia.
Qed.

Lemma nearest_above (x : Q) (M E : Z) :
  2 ^ 52 <= M < 2 ^ 53 ->
  (inject_Z M * pow2 E <= x)%Q -> (inject_Z M * pow2 E <= nearest x)%Q.
Proof.
  intros HM Hle.
  assert (0 < inject_Z M * pow2 E)%Q as HB.
  { apply Qmult_lt_0_compat; [|apply pow2_pos].
    change 0%Q with (inject_Z 0). rewrite <- Zlt_Qlt.
    pose proof (Z.pow_pos_nonneg 2 52). lia. }
  assert (0 < x)%Q as Hx by now apply Qlt_le_trans with (inject_Z M * pow2 E)%Q.
  unfold nearest. destruct x as [[|n|n] d]; cbn [Qnum].
  - exfalso. unfold Qlt in Hx. cbn in Hx. lia.
  - now apply round53_ge.
  - exfalso. unfold Qlt in Hx. cbn in Hx. lia.
Qed.

Lemma one_is_a_number : (1 == inject_Z (2 ^ 52) * pow2 (-52))%Q.
Proof. vm_compute. reflexivity. Qed.

Lemma thousand_is_a_number : (1000 == inject_Z (1000 * 2 ^ 43) * pow2 (-43))%Q.
Proof. vm_compute. reflexivity. Qed.

Lemma rate_bounds (s t : Z) :
  0 <= s <= t ->
  exists tenths : Z,
    0 <= tenths <= 1000
    /\ rate s t = (if t >? 0 then nearest (inject_Z tenths / 10) else 0)%Q
    /\ (s = t -> 0 < t -> tenths = 1000)
    /\ (s = 0 -> tenths = 0).
Proof.
  intros Hst. unfold rate. destruct (t >? 0) eqn:Et.
  - assert (0 < t) as Hpos by lia.
    set (x := (inject_Z s / inject_Z t)%Q).
    assert (0 <= x /\ x <= 1)%Q as [Hx0 Hx1].
    { subst x. split.
      - apply Qle_shift_div_l; [now rewrite <- (Zlt_Qlt 0)|].
        rewrite Qmult_0_l. rewrite <- (Zle_Qle 0). lia.
      - apply Qle_shift_div_r; [now rewrite <- (Zlt_Qlt 0)|].
        rewrite Qmult_1_l. rewrite <- Zle_Qle. lia. }
    assert (2 ^ 52 <= 2 ^ 52 < 2 ^ 53) as HM1 by (split; [lia|reflexivity]).
    assert (2 ^ 52 <= 1000 * 2 ^ 43 < 2 ^ 53) as HM2 by (split; vm_compute; congruence).
    destruct (nearest_between x _ (-52) HM1 Hx0) as [Hy0 Hy1];
      [now rewrite <- one_is_a_number|].
    rewrite <- one_is_a_number in Hy1.
    set (y := nearest x) in *.
    assert (0 <= y * 1000 /\ y * 1000 <= 1000)%Q as [Hz0 Hz1].
    { split.
      - apply Qmult_le_0_compat; [exact Hy0|discriminate].
      - rewrite <- (Qmult_1_l 1000) at 2. apply Qmult_le_compat_r; [exact Hy1|discriminate]. }
    destruct (nearest_between (y * 1000) _ (-43) HM2 Hz0) as [Hw0 Hw1];
      [now rewrite <- thousand_is_a_number|].
    rewrite <- thousand_is_a_number in Hw1.
    set (w := nearest (y * 1000)) in *.
    exists (Math_round w). split; [|split; [reflexivity|split]].
    + unfold Math_round. split.
      * change 0 with (Qfloor 0). apply Qfloor_resp_le.
        apply Qle_trans with (0 + (1 # 2))%Q; [discriminate|].
        apply Qplus_le_compat; [exact Hw0|apply Qle_refl].
      * change 1000 with (Qfloor (1000 + (1 # 2))). apply Qfloor_resp_le.
        apply Qplus_le_compat; [exact Hw1|apply Qle_refl].
    + intros -> _.
      assert (1 <= x)%Q as Hx.
      { subst x. apply Qle_shift_div_l; [now rewrite <- (Zlt_Qlt 0)|].
        rewrite Qmult_1_l. apply Qle_refl. }
      assert (1 <= y)%Q as Hy.
      { subst y. rewrite one_is_a_number at 1. apply nearest_above; [exact HM1|].
        now rewrite <- one_is_a_number. }
      assert (1000 <= w)%Q as Hw.
      { subst w. rewrite thousand_is_a_number at 1. apply nearest_above; [exact HM2|].
        rewrite <- thousand_is_a_number.
        rewrite <- (Qmult_1_l 1000) at 1. apply Qmult_le_compat_r; [exact Hy|discriminate]. }
      unfold Math_round. apply Z.le_antisymm.
      * change 1000 with (Qfloor (1000 + (1 # 2))). apply Qfloor_resp_le.
        apply Qplus_le_compat; [exact Hw1|apply Qle_refl].
      * change 1000 with (Qfloor (1000 + (1 # 2))) at 1. apply Qfloor_resp_le.
        apply Qplus_le_compat; [exact Hw|apply Qle_refl].
    + intros ->. subst w y x. reflexivity.
  - exists 0. repeat split; try lia; try reflexivity.
Qed.

(** The quotient is rounded as the code rounds it: for 201 successes in
    400 requests the product [(201 / 400) * 1000] is the [number] just
    below 502.5, so that the rate is 50.2 (and not 50.3, which rounding the
    exact 502.5 would give). *)
Example rate_rounds_the_double :
  Math_round (nearest (nearest (201 / 400) * 1000)) = 502
  /\ (nearest (nearest (201 / 400) * 1000) < 5025 # 10)%Q
  /\ rate 201 400 = nearest (502 / 10).
Proof. vm_compute. repeat split. Qed.

(** X30.  The success rate is a percentage.  For every table of logs the
    [success_rate] of the summary is the [number] nearest to a whole number
    of tenths between 0 and 100 (what [Math.round(...) / 10] returns for a
    rounded value between 0 and 1000); it is 0 when there is no request in
    the last 24 hours, 100 when none of them failed, and 0 when all of them
    failed. *)
Theorem success_rate_is_a_percentage_in_tenths
  (now : Z) (table : list RequestLogRow) (models_ : list (string * Z)) :
  let s := summary (getRequestStats now table models_) in
  exists tenths : Z,
    0 <= tenths <= 1000
    /\ success_rate s = (if total s >? 0 then nearest (inject_Z tenths / 10) else 0)%Q
    /\ (sum_failed s = 0 -> 0 < total s -> tenths = 1000)
    /\ (sum_success s = 0 -> tenths = 0).
Proof.
  cbn zeta. rewrite summary_recent. cbn [success_rate total sum_failed sum_success].
  pose proof (tally_total (recent now) table) as Ht.
  assert (0 <= success (tally (recent now) table)) as Hs by (unfold tally, how_many; cbn; lia).
  assert (0 <= failed (tally (recent now) table)) as Hf by (unfold tally, how_many; cbn; lia).
  destruct (rate_bounds (success (tally (recent now) table)) (how_many (recent now) table))
    as (tenths & Hb & Hr & H100 & H0); [lia|].
  exists tenths. split; [exact Hb|]. split; [exact Hr|]. split; [|exact H0].
  intros Hfail Hpos. apply H100; lia.
Qed.

End LogsMoreFacts.


(** ** The properties on the scenarios *)

(** X2 with a first-response time-out of zero on an upstream that has a
    frame ready: the frame is not read. *)
Lemma first_timeout_zero_ends_at_once_witness :
  Transcoder.createOpenAiStreamFromGrokNdjson Scenario.parse Scenario.no_URL
    Scenario.plain_btoa (Scenario.first_timeout 0 None) Scenario.still
    (Some [Scenario.chunk_of "A"; Transcoder.ReadDone])
  = [Transcoder.Enqueue
       (Transcoder.makeChunk "chatcmpl-uuid" 1700000000 Transcoder.defaultModel
          EmptyString (Some "stop"));
     Transcoder.Enqueue Transcoder.SseDone;
     Transcoder.OnFinish 200 0;
     Transcoder.Close;
     Transcoder.ReleaseLock].
Proof.
  exact (first_timeout_zero_ends_at_once Scenario.parse Scenario.no_URL
           Scenario.plain_btoa (Scenario.first_timeout 0 None) Scenario.still 0
           [Scenario.chunk_of "A"; Transcoder.ReadDone] eq_refl
           ltac:(lia)).
Defined.

(** X3 on an HTML page in two chunks. *)
Lemma unparsable_upstream_gives_empty_completion_witness :
  Transcoder.createOpenAiStreamFromGrokNdjson Scenario.no_parse Scenario.no_URL
    Scenario.plain_btoa (Scenario.opts None None None) Scenario.still
    (Some [Transcoder.ReadValue (Some "<html>"); Transcoder.ReadValue (Some "</html>");
           Transcoder.ReadDone])
  = [Transcoder.Enqueue
       (Transcoder.makeChunk "chatcmpl-uuid" 1700000000 Transcoder.defaultModel
          EmptyString (Some "stop"));
     Transcoder.Enqueue Transcoder.SseDone;
     Transcoder.OnFinish 200 0;
     Transcoder.Close;
     Transcoder.ReleaseLock].
Proof.
  exact (unparsable_upstream_gives_empty_completion Scenario.no_parse Scenario.no_URL
           Scenario.plain_btoa (Scenario.opts None None None) Scenario.still
           ["<html>"; "</html>"] (still_patient None) (fun line => eq_refl)).
Defined.

(** X5 on a reset of the HTTP/2 stream and on another error. *)
Lemma rejected_read_gives_502_or_500_witness :
  Transcoder.createOpenAiStreamFromGrokNdjson Scenario.parse Scenario.no_URL
    Scenario.plain_btoa (Scenario.opts None None None) Scenario.still
    (Some [Transcoder.ReadError (JS.ErrorObject "Error" "HTTP/2 stream reset");
           Transcoder.ReadDone])
  = [Transcoder.Warn (Transcoder.WarnHttp2 "HTTP/2 stream reset");
     Transcoder.Enqueue
       (Transcoder.makeChunk "chatcmpl-uuid" 1700000000 Transcoder.defaultModel
          EmptyString (Some "stop"));
     Transcoder.Enqueue Transcoder.SseDone;
     Transcoder.OnFinish 502 0;
     Transcoder.Close;
     Transcoder.ReleaseLock]
  /\ Transcoder.createOpenAiStreamFromGrokNdjson Scenario.parse Scenario.no_URL
       Scenario.plain_btoa (Scenario.opts None None None) Scenario.still
       (Some [Transcoder.ReadError (JS.ErrorObject "TypeError" "fetch failed");
              Transcoder.ReadDone])
     = [Transcoder.Enqueue
          (Transcoder.makeChunk "chatcmpl-uuid" 1700000000 Transcoder.defaultModel
             ("处理错误: " +:+ "fetch failed") (Some "error"));
        Transcoder.Enqueue Transcoder.SseDone;
        Transcoder.OnFinish 500 0;
        Transcoder.Close;
        Transcoder.ReleaseLock].
Proof.
  split.
  - exact (rejected_read_gives_502_or_500 Scenario.parse Scenario.no_URL
             Scenario.plain_btoa (Scenario.opts None None None) Scenario.still
             "Error" "HTTP/2 stream reset" [Transcoder.ReadDone] (still_patient None)).
  - exact (rejected_read_gives_502_or_500 Scenario.parse Scenario.no_URL
             Scenario.plain_btoa (Scenario.opts None None None) Scenario.still
             "TypeError" "fetch failed" [Transcoder.ReadDone] (still_patient None)).
Defined.

(** X6 on the first frame of a response. *)
Lemma hidden_thinking_writes_nothing_witness :
  exists st' : Transcoder.state,
    Transcoder.handle_text (Scenario.opts (Some false) None None) Scenario.still
      (Transcoder.initial (Scenario.opts (Some false) None None) Scenario.still)
      (Transcoder.text_response true "A") (Some (JS.JStr "A"))
    = Transcoder.Next st'
    /\ Transcoder.out st' = [].
Proof.
  exact (hidden_thinking_writes_nothing (Scenario.opts (Some false) None None)
           Scenario.still
           (Transcoder.initial (Scenario.opts (Some false) None None) Scenario.still)
           (Transcoder.text_response true "A") (Some (JS.JStr "A")) eq_refl eq_refl).
Defined.

(** X9 on an element with an attribute-free opening tag. *)
Lemma filtered_element_is_cut_out_witness :
  TagFilter.filterTagsFromContent
    "Hello <xaiartifact>secret</xaiartifact> World" ["xaiartifact"]
  = "Hello  World".
Proof.
  apply (filtered_element_is_cut_out ["xaiartifact"] "xaiartifact" "Hello " ">secret"
           " World"); try reflexivity.
  left. reflexivity.
Defined.

(** X10 on a token inside an element. *)
Lemma unclosed_tag_swallows_the_stream_witness :
  TagFilter.filter Scenario.inside_tag "secret"
  = (TagFilter.mk ["xaiartifact"] true "<xaiartifactsecret" EmptyString, EmptyString).
Proof.
  exact (unclosed_tag_swallows_the_stream Scenario.inside_tag "secret"
           ltac:(discriminate) eq_refl eq_refl eq_refl).
Defined.

(** ** The non-streaming path on the scenarios *)

Lemma carries_reply :
  Transcoder.carries Scenario.body_parse "reply"
    (Completion.reply_frame "grok-4" Scenario.reply_message).
Proof. repeat split. Qed.


(** X12 on a body whose reply is followed by an error frame: the error is
    not read, and the filtered element is cut out of the message. *)
Lemma first_reply_settles_the_completion_witness :
  Completion.parseOpenAiFromGrokNdjson Scenario.body_parse Scenario.no_URL
    Scenario.plain_btoa Scenario.completion_opts "uuid" 1700000000
    ("reply" +:+ JS.nl +:+ "error")
  = inr (Completion.completion "uuid" 1700000000 "grok-4" "Hi there").
Proof.
  exact (first_reply_settles_the_completion Scenario.body_parse Scenario.no_URL
           Scenario.plain_btoa Scenario.completion_opts "uuid" 1700000000
           "reply" "error" "grok-4" Scenario.reply_message carries_reply).
Defined.


(** ** Batch tasks on the scenarios *)

(** X15 on a task with two streams, one opened before a result was
    recorded and one after, that is then finished. *)
Lemma terminal_call_closes_every_stream_witness :
  let sys :=
    BatchTask.apply (BatchTask.CallFinish (JS.JObj []) None)
      (BatchTask.perform
         [BatchTask.CallCreateStream;
          BatchTask.CallRecord (BatchTask.mkArgs true (Some (JS.JNum 1)) None None);
          BatchTask.CallCreateStream]
         Scenario.new_task) in
  BatchTask._callbacks (BatchTask.task sys) = []
  /\ Forall (fun s => BatchTask.closed s = true) (BatchTask.streams sys).
Proof.
  exact (terminal_call_closes_every_stream "0f8fad5b-d9cb-469f-a165-70867728950e"
           1700000000000 4
           [BatchTask.CallCreateStream;
            BatchTask.CallRecord (BatchTask.mkArgs true (Some (JS.JNum 1)) None None);
            BatchTask.CallCreateStream]
           (BatchTask.CallFinish (JS.JObj []) None) eq_refl).
Defined.

(** X16 on a run of one worker over a list whose first item is
    [undefined]: nothing is recorded, the two other items are left in the
    queue, and the [undefined] item is the one that is lost. *)
Lemma every_item_is_recorded_once_or_left_in_the_queue_witness :
  (exists skipped : nat,
      Permutation
        (List.map BatchTask.a_item (Batches.recorded Scenario.holey_run)
         ++ Batches.queue Scenario.holey_run ++ List.repeat None skipped)
        Scenario.holey_items
      /\ (skipped <= List.length (Batches.workers Scenario.holey_run))%nat
      /\ (Batches.defined Scenario.holey_items -> skipped = 0%nat))
  /\ Forall (fun args => exists item, BatchTask.a_item args = Some item
                                      /\ args = Batches.outcome Scenario.processor item)
       (Batches.recorded Scenario.holey_run)
  /\ BatchTask._processed (BatchTask.task (Batches.sys Scenario.holey_run))
     = BatchTask._processed (BatchTask.task Scenario.new_task)
       + Z.of_nat (List.length (Batches.recorded Scenario.holey_run)).
Proof.
  exact (every_item_is_recorded_once_or_left_in_the_queue Scenario.processor
           Scenario.holey_items Scenario.new_task 1 [] Scenario.holey_run eq_refl).
Defined.

(** X17 on a run of two workers over four items that nothing cancels. *)
Lemma uncancelled_run_records_every_item_witness :
  Permutation (List.map BatchTask.a_item (Batches.recorded Scenario.full_run))
    (List.map Some Scenario.four_items)
  /\ Batches.queue Scenario.full_run = []
  /\ BatchTask._processed (BatchTask.task (Batches.sys Scenario.full_run))
     = BatchTask._processed (BatchTask.task Scenario.new_task)
       + Z.of_nat (List.length (List.map Some Scenario.four_items))
  /\ BatchTask._status (BatchTask.task (Batches.sys Scenario.full_run))
     = BatchTask._status (BatchTask.task Scenario.new_task)
  /\ BatchTask._finalEvent (BatchTask.task (Batches.sys Scenario.full_run))
     = BatchTask._finalEvent (BatchTask.task Scenario.new_task).
Proof.
  apply (uncancelled_run_records_every_item Scenario.processor
           (List.map Some Scenario.four_items) Scenario.new_task 2
           Scenario.full_schedule Scenario.full_run); try reflexivity.
  repeat (constructor; [discriminate|]). constructor.
Defined.


(** X20 from the state in which the first two of four items are being
    processed and the task has just been cancelled. *)
Lemma cancelled_run_only_finishes_what_is_in_flight_witness :
  Batches.queue Scenario.cancelled_run = [Some (JS.JNum 3); Some (JS.JNum 4)]
  /\ (exists added : list BatchTask.RecordArgs,
         Batches.recorded Scenario.cancelled_run = ([] ++ added)%list
         /\ Permutation (List.map BatchTask.a_item added)
              [Some (JS.JNum 1); Some (JS.JNum 2)]
         /\ Forall (fun args =>
                      exists item, BatchTask.a_item args = Some item
                                   /\ args = Batches.outcome Scenario.processor item)
              added)
  /\ BatchTask._status (BatchTask.task (Batches.sys Scenario.cancelled_run))
     = BatchTask.Cancelled.
Proof.
  exact (cancelled_run_only_finishes_what_is_in_flight Scenario.processor
           [Batches.Settle 1; Batches.Settle 0] Scenario.just_cancelled
           Scenario.cancelled_run eq_refl eq_refl).
Defined.

(** ** Settings on the scenarios *)

(** X21 on a store that holds a ["grok"] row with one field: the section
    that is read has the default [show_thinking] too. *)
Lemma getSettings_defines_every_default_key_witness :
  exists v : JS.json,
    JS.lookup_field "show_thinking"
      (Settings.grok
         (Scenario.bundle_or_defaults
            (Settings.getSettings Scenario.stored_parse Scenario.stored_db)))
    = Some v.
Proof.
  apply (getSettings_defines_every_default_key Scenario.stored_parse Scenario.stored_db
           (Scenario.bundle_or_defaults
              (Settings.getSettings Scenario.stored_parse Scenario.stored_db))
           Settings.grok "show_thinking" (JS.JBool true)).
  - vm_compute. reflexivity.
  - right. left. reflexivity.
  - reflexivity.
Defined.

(** X22 on an empty store, when [fail_threshold] of the section [token] is
    set to 9: it is read back as 9, and [save_delay_ms] as before. *)
Lemma saved_section_is_read_back_witness :
  JS.lookup_field "fail_threshold"
    (Settings.token
       (Scenario.bundle_or_defaults
          (Settings.getSettings Scenario.read_text Scenario.saved_db)))
  = Some (JS.JNum 9)
  /\ JS.lookup_field "save_delay_ms"
       (Settings.token
          (Scenario.bundle_or_defaults
             (Settings.getSettings Scenario.read_text Scenario.saved_db)))
     = JS.lookup_field "save_delay_ms"
         (Settings.token
            (Scenario.bundle_or_defaults (Settings.getSettings Scenario.read_text ∅))).
Proof.
  split.
  - apply (saved_section_is_read_back Scenario.read_text Scenario.write_text
             ∅ Scenario.saved_db Scenario.token_update 1700000000000
             (Scenario.bundle_or_defaults (Settings.getSettings Scenario.read_text ∅))
             (Scenario.bundle_or_defaults
                (Settings.getSettings Scenario.read_text Scenario.saved_db))
             "token" Settings.token Settings.token_config "fail_threshold").
    + right. left. reflexivity.
    + vm_compute. reflexivity.
    + vm_compute. reflexivity.
    + vm_compute. reflexivity.
    + vm_compute. reflexivity.
    + vm_compute. reflexivity.
  - apply (saved_section_is_read_back Scenario.read_text Scenario.write_text
             ∅ Scenario.saved_db Scenario.token_update 1700000000000
             (Scenario.bundle_or_defaults (Settings.getSettings Scenario.read_text ∅))
             (Scenario.bundle_or_defaults
                (Settings.getSettings Scenario.read_text Scenario.saved_db))
             "token" Settings.token Settings.token_config "save_delay_ms").
    + right. left. reflexivity.
    + vm_compute. reflexivity.
    + vm_compute. reflexivity.
    + vm_compute. reflexivity.
    + vm_compute. reflexivity.
    + vm_compute. reflexivity.
Defined.

(** X23 on a store whose ["grok"] row holds the text [null]. *)
Lemma bad_grok_row_fails_reads_and_saves_witness :
  exists message : string,
    Settings.getSettings Scenario.null_parse Scenario.null_db
    = inl (JS.ErrorObject "TypeError" message)
    /\ forall (updates : Settings.Updates) (now : Z),
         Settings.saveSettings Scenario.null_parse Scenario.write_text
           Scenario.null_db updates now
         = inl (JS.ErrorObject "TypeError" message).
Proof.
  exact (bad_grok_row_fails_reads_and_saves Scenario.null_parse Scenario.write_text
           Scenario.null_db "null" 0 JS.JNull eq_refl eq_refl eq_refl
           (or_introl eq_refl)).
Defined.
